(** * The video-export core of the OpenCut/UniVA editor, embedded in Rocq

    The TypeScript package [video-export] turns a multi-track timeline into an
    MP4: a frame renderer composites the active elements of every frame, an
    audio processor mixes the audio sources into one PCM buffer, and the export
    engine drives the encoder and reports progress.  This file embeds the
    functions of that package a shallow way -- one Rocq definition per source
    function, under the source's name -- and proves (or refutes) the
    properties of its specification on them.

    JavaScript numbers.  The source computes on IEEE-754 doubles.  The model is
    written once over an interface [JSNumber] of the operations the source uses
    and is read two ways:
    - [float] (instance [Binary64]): the kernel's binary64 numbers, the
      arithmetic the program really runs, bit for bit;
    - [Q] (instance [ExactNumber]): exact rationals, the arithmetic the
      specification's formulas are written in.
    A theorem about comparisons, offsets or stored samples, where rounding
    decides the outcome, is stated for every reading: it holds of the doubles
    as of the rationals, and uses of the numbers only the laws of
    [JSNumberLaws], which are proved of both.  A theorem of the exact reading
    alone is about a result that rounding does not move.
    Loop counters and array indices are integers in both ([Z], [nat]).
    Infinities and NaN exist in the binary64 reading only: a theorem of the
    exact reading that divides does so by a constant or by a number it
    assumes positive. *)

From Stdlib Require Import ZArith QArith Qround Qabs Lia Lqa Floats Sorted.
From Stdlib Require Uint63.
From Stdlib Require Import String.
From stdpp Require Import base list strings pretty gmap.

Local Open Scope Z_scope.

(** ** JavaScript numbers *)

Class JSNumber (num : Type) : Type := {
  (** an integer (a counter, an integer literal) as a number *)
  num_of_Z : Z -> num;
  (** [+], [-], [*], [/] *)
  nadd : num -> num -> num;
  nsub : num -> num -> num;
  nmul : num -> num -> num;
  ndiv : num -> num -> num;
  (** [Math.abs], [Math.max], [Math.min] *)
  Math_abs : num -> num;
  Math_max : num -> num -> num;
  Math_min : num -> num -> num;
  (** [<], [<=], [===] *)
  nltb : num -> num -> bool;
  nleb : num -> num -> bool;
  neqb : num -> num -> bool;
  (** [!x]: the number is falsy (zero or NaN) *)
  nfalsy : num -> bool;
  (** [Math.floor], [Math.ceil], [Math.round]; their results are integers *)
  Math_floor : num -> Z;
  Math_ceil : num -> Z;
  Math_round : num -> Z;
  (** [Math.fround]: what a store into a [Float32Array] keeps of a number *)
  Math_fround : num -> num;
  (** [a % b === 0] *)
  nrem_is_zero : num -> num -> bool
}.

(** [a > b] and [a >= b] are [b < a] and [b <= a]. *)
Definition ngtb {num} `{JSNumber num} (a b : num) : bool := nltb b a.
Definition ngeb {num} `{JSNumber num} (a b : num) : bool := nleb b a.

(** [x || d] on numbers. *)
Definition num_or {num} `{JSNumber num} (x d : num) : num :=
  if nfalsy x then d else x.

(** *** Reading 1: exact rationals *)

Definition Qltb (a b : Q) : bool := negb (Qle_bool b a).

Definition Q_rem_is_zero (a b : Q) : bool :=
  negb (Qeq_bool b 0%Q) && Qeq_bool (inject_Z (Qfloor (a / b)%Q)) (a / b)%Q.

#[export] Instance ExactNumber : JSNumber Q := {
  num_of_Z := inject_Z;
  nadd := Qplus;
  nsub := Qminus;
  nmul := Qmult;
  ndiv := Qdiv;
  Math_abs := Qabs;
  Math_max := fun a b => if Qltb a b then b else a;
  Math_min := fun a b => if Qltb b a then b else a;
  nltb := Qltb;
  nleb := Qle_bool;
  neqb := Qeq_bool;
  nfalsy := fun x => Qeq_bool x 0%Q;
  Math_floor := Qfloor;
  Math_ceil := Qceiling;
  Math_round := fun x => Qfloor (x + (1 # 2))%Q;
  Math_fround := fun x => x;
  nrem_is_zero := Q_rem_is_zero
}.

(** *** Reading 2: IEEE-754 binary64

    [float_of_Z] is exact below 2^53 in absolute value, which covers every
    integer of this file.  [float_floor] and [float_round] read the mantissa
    and exponent of a finite number; infinities and NaN (no timeline has
    them) are read as 0.  [Math.round] is the floor of the exact sum of the
    number and 1/2.  [float_fround] rounds to the nearest binary32 number,
    ties to even, as the standard's rounding to 24 bits of precision and a
    largest exponent of 128 does. *)

Definition float_of_Z (z : Z) : float :=
  if z <? 0 then PrimFloat.opp (PrimFloat.of_uint63 (Uint63.of_Z (- z)))
  else PrimFloat.of_uint63 (Uint63.of_Z z).

Definition float_is_nan (x : float) : bool := negb (PrimFloat.eqb x x).

Definition float_floor (x : float) : Z :=
  match Prim2SF x with
  | S754_finite s m e =>
      let v := if s then Z.neg m else Z.pos m in
      if 0 <=? e then v * 2 ^ e else v / 2 ^ (- e)
  | _ => 0
  end.

Definition float_round (x : float) : Z :=
  match Prim2SF x with
  | S754_finite s m e =>
      let v := if s then Z.neg m else Z.pos m in
      if 0 <=? e then v * 2 ^ e else (2 * v + 2 ^ (- e)) / 2 ^ (- e + 1)
  | _ => 0
  end.

Definition float_fround (x : float) : float :=
  match Prim2SF x with
  | S754_finite s m e => SF2Prim (binary_round 24 128 s m e)
  | _ => x
  end.

Definition float_max (a b : float) : float :=
  if float_is_nan a || float_is_nan b then PrimFloat.nan
  else if PrimFloat.ltb a b then b else a.

Definition float_min (a b : float) : float :=
  if float_is_nan a || float_is_nan b then PrimFloat.nan
  else if PrimFloat.ltb b a then b else a.

(** [a % b === 0]: both finite, [b] not zero, and [a] an integer multiple of
    [b]; decided exactly on the mantissas scaled to a common exponent. *)
Definition float_rem_is_zero (a b : float) : bool :=
  match Prim2SF a, Prim2SF b with
  | S754_zero _, S754_finite _ _ _ => true
  | S754_finite _ ma ea, S754_finite _ mb eb =>
      let e := Z.min ea eb in
      (Z.pos ma * 2 ^ (ea - e)) mod (Z.pos mb * 2 ^ (eb - e)) =? 0
  | _, _ => false
  end.

#[export] Instance Binary64 : JSNumber float := {
  num_of_Z := float_of_Z;
  nadd := PrimFloat.add;
  nsub := PrimFloat.sub;
  nmul := PrimFloat.mul;
  ndiv := PrimFloat.div;
  Math_abs := PrimFloat.abs;
  Math_max := float_max;
  Math_min := float_min;
  nltb := PrimFloat.ltb;
  nleb := PrimFloat.leb;
  neqb := PrimFloat.eqb;
  nfalsy := fun x => PrimFloat.eqb x PrimFloat.zero || float_is_nan x;
  Math_floor := float_floor;
  Math_ceil := fun x => - float_floor (PrimFloat.opp x);
  Math_round := float_round;
  Math_fround := float_fround;
  nrem_is_zero := float_rem_is_zero
}.

(** *** What both readings have in common

    The laws of order and of the stored samples that the theorems about
    comparisons use.  A number is NaN when it differs from itself; no
    comparison with NaN holds. *)

Class JSNumberLaws (num : Type) `{JSNumber num} : Prop := {
  nltb_irrefl : forall x : num, nltb x x = false;
  nltb_nleb_trans :
    forall a b c : num, nltb a b = true -> nleb b c = true -> nltb a c = true;
  nltb_nleb_refl : forall a b : num, nltb a b = true -> nleb a a = true;
  nleb_defined :
    forall a b : num, nleb a b = true -> neqb a a = true /\ neqb b b = true;
  nleb_total :
    forall a b : num,
      neqb a a = true -> neqb b b = true -> nltb a b = false -> nleb b a = true;
  (** -1, 0 and 1 are in order *)
  unit_constants :
    nleb (num_of_Z (-1)) (num_of_Z (-1)) = true
    /\ nleb (num_of_Z (-1)) (num_of_Z 0) = true
    /\ nleb (num_of_Z (-1)) (num_of_Z 1) = true
    /\ nleb (num_of_Z 0) (num_of_Z 1) = true
    /\ nleb (num_of_Z 1) (num_of_Z 1) = true
    /\ nltb (num_of_Z 1) (num_of_Z (-1)) = false;
  (** a sample of [-1, 1] plus a number that is not NaN is stored as a
      number that is not NaN *)
  fround_nadd_defined :
    forall o s : num,
      nleb (num_of_Z (-1)) o = true -> nleb o (num_of_Z 1) = true ->
      neqb s s = true ->
      neqb (Math_fround (nadd o s)) (Math_fround (nadd o s)) = true
}.

(** ** The data model ([types.ts])

    Records keep the fields the modelled functions read; an object's other
    fields (styling of text, overlays and subtitles, intrinsic media size)
    play no part in them and are left out. *)

Inductive BlendMode : Type :=
  | source_over | multiply | screen | blend_overlay | darken | lighten
  | color_dodge | color_burn | hard_light | soft_light | difference | exclusion.

Inductive ElementType : Type :=
  | el_media | el_text | el_effect | el_overlay | el_subtitle.

Inductive TrackType : Type :=
  | track_media | track_text | track_audio | track_effect | track_overlay
  | track_subtitle.

Inductive MediaType : Type := media_video | media_image | media_audio.

(** A [File] object is an opaque handle. *)
Inductive File : Type := FileHandle (n : nat).

Definition is_text_track (t : TrackType) : bool :=
  match t with track_text => true | _ => false end.

(** [!s] on a string: the empty string is falsy. *)
Definition str_falsy (s : string) : bool :=
  match s with EmptyString => true | _ => false end.

(** [!s] on an optional string: [undefined] and the empty string are falsy. *)
Definition optstr_falsy (s : option string) : bool :=
  match s with None => true | Some s => str_falsy s end.

(** [!o] on an optional object. *)
Definition opt_missing {A} (o : option A) : bool :=
  match o with None => true | Some _ => false end.

(** [s || d] on strings. *)
Definition str_or (s d : string) : string := if str_falsy s then d else s.

(** A property that an object may leave out: it is absent, or present with
    the value [undefined], or present with a value of its type. *)
Inductive OptionalProperty (A : Type) : Type :=
  | Absent
  | Undefined
  | Present (value : A).
Arguments Absent {A}.
Arguments Undefined {A}.
Arguments Present {A} value.

Section Types.
Context {num : Type}.

(** What a [MediaExportElement] adds to the base element. *)
Record MediaFields : Type := {
  mediaId : string;
  mediaType : MediaType;
  file : option File;
  url : option string
}.

(** The tagged union [ExportElement]: the tag is [type]. *)
Inductive ElementPayload : Type :=
  | MediaPayload (m : MediaFields)
  | TextPayload (content : string)
  | EffectPayload (effectType : string)
  | OverlayPayload
  | SubtitlePayload (content : string).

Record ExportElement : Type := {
  el_id : string;
  el_name : string;
  startTime : num;
  duration : num;
  trimStart : num;
  trimEnd : num;
  opacity : option num;
  blendMode : option BlendMode;
  payload : ElementPayload
}.

Definition el_type (e : ExportElement) : ElementType :=
  match payload e with
  | MediaPayload _ => el_media
  | TextPayload _ => el_text
  | EffectPayload _ => el_effect
  | OverlayPayload => el_overlay
  | SubtitlePayload _ => el_subtitle
  end.

(** [track_ref] is the identity of the track object: JavaScript compares
    objects by reference ([Array.prototype.indexOf]), so two entries of
    [tracks] are the same object exactly when they carry the same
    reference. *)
Record ExportTrack : Type := {
  track_ref : nat;
  track_id : string;
  track_name : string;
  track_type : TrackType;
  elements : list ExportElement;
  muted : bool
}.

Record ProjectSettings : Type := {
  project_width : num;
  project_height : num;
  project_fps : num
}.

(** [settings] is declared mandatory, but the validator tests it for
    presence, so it is optional here. *)
Record TimelineExportData : Type := {
  tracks : list ExportTrack;
  timeline_duration : num;
  timeline_settings : option ProjectSettings
}.

Record ExportSettings : Type := {
  resolution : num;
  fps : num;
  videoBitrate : num;
  sampleRate : num;
  numberOfChannels : num;
  audioBitrate : num;
  width : num;
  height : num;
  backgroundColor : string;
  hardwareAcceleration : bool;
  fileName : string
}.

(** [Partial<ExportSettings>]: every property may be left out.  Of the
    numeric fields the code reads [settings.f], which is [undefined] for an
    absent property as for one that holds [undefined]: [None] stands for
    both.  The other three fields are written by the object spread alone,
    which copies the property when it is present, whatever it holds. *)
Record PartialExportSettings : Type := {
  opt_resolution : option num;
  opt_fps : option num;
  opt_videoBitrate : option num;
  opt_sampleRate : option num;
  opt_numberOfChannels : option num;
  opt_audioBitrate : option num;
  opt_width : option num;
  opt_height : option num;
  opt_backgroundColor : OptionalProperty string;
  opt_hardwareAcceleration : OptionalProperty bool;
  opt_fileName : OptionalProperty string
}.

(** The object [validateSettings] builds.  It is declared an
    [ExportSettings]; the three fields that the spread writes hold
    [undefined] ([None]) when the argument holds them so. *)
Record ValidatedSettings : Type := {
  validated_resolution : num;
  validated_fps : num;
  validated_videoBitrate : num;
  validated_sampleRate : num;
  validated_numberOfChannels : num;
  validated_audioBitrate : num;
  validated_width : num;
  validated_height : num;
  validated_backgroundColor : option string;
  validated_hardwareAcceleration : option bool;
  validated_fileName : option string
}.

(** The object read as the [ExportSettings] it is declared to be: there is
    none when one of its fields is [undefined]. *)
Definition as_ExportSettings (v : ValidatedSettings) : option ExportSettings :=
  match validated_backgroundColor v, validated_hardwareAcceleration v,
        validated_fileName v with
  | Some color, Some acceleration, Some name =>
      Some {| resolution := validated_resolution v;
              fps := validated_fps v;
              videoBitrate := validated_videoBitrate v;
              sampleRate := validated_sampleRate v;
              numberOfChannels := validated_numberOfChannels v;
              audioBitrate := validated_audioBitrate v;
              width := validated_width v;
              height := validated_height v;
              backgroundColor := color;
              hardwareAcceleration := acceleration;
              fileName := name |}
  | _, _, _ => None
  end.

Inductive Stage : Type :=
  | initializing | processing | finalizing | complete | error.

(** [ExportProgress] without the fields read off the wall clock
    ([estimatedTimeRemaining], [formattedTimeRemaining], [renderSpeed]). *)
Record ExportProgress : Type := {
  currentFrame : Z;
  totalFrames : Z;
  percentage : num;
  stage : Stage;
  error_message : option string
}.
End Types.

Arguments MediaFields : clear implicits.
Arguments ElementPayload : clear implicits.
Arguments ExportElement : clear implicits.
Arguments ExportTrack : clear implicits.
Arguments ProjectSettings : clear implicits.
Arguments TimelineExportData : clear implicits.
Arguments ExportSettings : clear implicits.
Arguments PartialExportSettings : clear implicits.
Arguments ValidatedSettings : clear implicits.
Arguments ExportProgress : clear implicits.

(** ** The 2D canvas context

    The media path transforms the surface by [scale] only, so the current
    transform is kept as its two scale factors.  [drawImage] records the
    rectangle it covers on the surface, in device pixels: the rectangle it is
    given, mapped through the current transform. *)

Section Canvas.
Context {num : Type} `{JSNumber num}.

Record DrawnRect : Type := {
  rect_x : num;
  rect_y : num;
  rect_w : num;
  rect_h : num
}.

Record ContextState : Type := {
  scaleX : num;
  scaleY : num;
  globalAlpha : num;
  globalCompositeOperation : BlendMode
}.

Record CanvasContext : Type := {
  current : ContextState;
  saved : list ContextState;
  drawn : list DrawnRect
}.

(** A fresh context: identity transform, opaque, [source-over]. *)
Definition new_context : CanvasContext :=
  {| current := {| scaleX := num_of_Z 1; scaleY := num_of_Z 1;
                   globalAlpha := num_of_Z 1;
                   globalCompositeOperation := source_over |};
     saved := [];
     drawn := [] |}.

Definition ctx_save (c : CanvasContext) : CanvasContext :=
  {| current := current c; saved := current c :: saved c; drawn := drawn c |}.

Definition ctx_restore (c : CanvasContext) : CanvasContext :=
  match saved c with
  | [] => c
  | s :: rest => {| current := s; saved := rest; drawn := drawn c |}
  end.

Definition ctx_set_globalAlpha (a : num) (c : CanvasContext) : CanvasContext :=
  {| current := {| scaleX := scaleX (current c); scaleY := scaleY (current c);
                   globalAlpha := a;
                   globalCompositeOperation := globalCompositeOperation (current c) |};
     saved := saved c; drawn := drawn c |}.

Definition ctx_set_globalCompositeOperation (b : BlendMode) (c : CanvasContext)
  : CanvasContext :=
  {| current := {| scaleX := scaleX (current c); scaleY := scaleY (current c);
                   globalAlpha := globalAlpha (current c);
                   globalCompositeOperation := b |};
     saved := saved c; drawn := drawn c |}.

Definition ctx_scale (sx sy : num) (c : CanvasContext) : CanvasContext :=
  {| current := {| scaleX := nmul (scaleX (current c)) sx;
                   scaleY := nmul (scaleY (current c)) sy;
                   globalAlpha := globalAlpha (current c);
                   globalCompositeOperation := globalCompositeOperation (current c) |};
     saved := saved c; drawn := drawn c |}.

Definition ctx_drawImage (x y w h : num) (c : CanvasContext) : CanvasContext :=
  {| current := current c; saved := saved c;
     drawn := drawn c ++
              [ {| rect_x := nmul x (scaleX (current c));
                   rect_y := nmul y (scaleY (current c));
                   rect_w := nmul w (scaleX (current c));
                   rect_h := nmul h (scaleY (current c)) |} ] |}.
End Canvas.

Arguments DrawnRect : clear implicits.
Arguments ContextState : clear implicits.
Arguments CanvasContext : clear implicits.

(** ** [BaseElementRenderer] ([renderers/base-renderer.ts]) *)

Section BaseElementRenderer.
Context {num : Type} `{JSNumber num}.

Definition applyElementProperties (settings : ExportSettings num)
    (element : ExportElement num) (c : CanvasContext num) : CanvasContext num :=
  let c := ctx_save c in
  let c := match opacity element with
           | Some o => ctx_set_globalAlpha o c
           | None => c
           end in
  let c := match blendMode element with
           | Some b => ctx_set_globalCompositeOperation b c
           | None => c
           end in
  ctx_scale (resolution settings) (resolution settings) c.

Definition restoreContext (c : CanvasContext num) : CanvasContext num :=
  ctx_restore c.

Definition isElementActive (element : ExportElement num) (timestamp : num) : bool :=
  let elementEndTime :=
    nsub (nsub (nadd (startTime element) (duration element)) (trimStart element))
         (trimEnd element) in
  ngeb timestamp (startTime element) && nltb timestamp elementEndTime.

Definition getElementTime (element : ExportElement num) (timestamp : num) : num :=
  nadd (nsub timestamp (startTime element)) (trimStart element).
End BaseElementRenderer.

(** ** [MediaElementRenderer] ([renderers/media-renderer.ts])

    Loading and seeking are the browser's work.  What the renderer gets back
    is given by the environment: the media [loadMedia] resolves to (a video
    with its current playback position, an image, or nothing), and whether a
    seek that was started completes. *)

Section MediaElementRenderer.
Context {num : Type} `{JSNumber num}.

Inductive LoadedMedia : Type :=
  | HTMLVideoElement (currentTime : num)
  | HTMLImageElement.

(** What [seekVideo] does with the video: leave it where it is, or pause it
    and set [currentTime]. *)
Inductive SeekAction : Type :=
  | ReuseCurrentFrame
  | SeekTo (time : num).

Definition seekVideo (video_currentTime time : num) : SeekAction :=
  let tolerance := ndiv (num_of_Z 1) (num_of_Z 60) in
  let timeDiff := Math_abs (nsub video_currentTime time) in
  if nltb timeDiff tolerance then ReuseCurrentFrame else SeekTo time.

Definition renderVideoToCanvas (settings : ExportSettings num)
    (c : CanvasContext num) : CanvasContext num :=
  let canvasWidth := nmul (width settings) (resolution settings) in
  let canvasHeight := nmul (height settings) (resolution settings) in
  ctx_drawImage (num_of_Z 0) (num_of_Z 0) canvasWidth canvasHeight c.

Definition renderImage (settings : ExportSettings num)
    (c : CanvasContext num) : CanvasContext num :=
  let canvasWidth := nmul (width settings) (resolution settings) in
  let canvasHeight := nmul (height settings) (resolution settings) in
  ctx_drawImage (num_of_Z 0) (num_of_Z 0) canvasWidth canvasHeight c.

(** [renderVideoFrame]: seek, then draw.  [seek_completes] says whether a
    started seek fires [seeked] (otherwise it rejects: error or timeout);
    [None] is the rejection. *)
Definition renderVideoFrame (settings : ExportSettings num) (seek_completes : bool)
    (video_currentTime elementTime : num) (c : CanvasContext num)
  : option (CanvasContext num) :=
  match seekVideo video_currentTime elementTime with
  | ReuseCurrentFrame => Some (renderVideoToCanvas settings c)
  | SeekTo _ =>
      if seek_completes then Some (renderVideoToCanvas settings c) else None
  end.

(** [render]: an exception inside the [try] leaves the context as it is at
    that point (the [catch] is empty). *)
Definition media_render (settings : ExportSettings num)
    (loaded : option LoadedMedia) (seek_completes : bool)
    (element : ExportElement num) (timestamp : num) (c : CanvasContext num)
  : CanvasContext num :=
  if negb (isElementActive element timestamp) then c
  else
    match loaded with
    | None => c
    | Some media =>
        let c := applyElementProperties settings element c in
        let elementTime := getElementTime element timestamp in
        match media with
        | HTMLVideoElement video_currentTime =>
            match renderVideoFrame settings seek_completes video_currentTime
                    elementTime c with
            | Some c => restoreContext c
            | None => c
            end
        | HTMLImageElement => restoreContext (renderImage settings c)
        end
    end.
End MediaElementRenderer.

Arguments LoadedMedia : clear implicits.
Arguments SeekAction : clear implicits.

(** ** [FrameRenderer] ([core/frame-renderer.ts]) *)

(** [Array.prototype.sort] with a comparator.  The language fixes the result
    for a consistent comparator: the stable sort.  It is computed here by
    insertion; [cmp a b > 0] is what moves [a] behind [b]. *)
Section ArraySort.
Context {A : Type} (cmp : A -> A -> Z).

Fixpoint sort_insert (x : A) (l : list A) : list A :=
  match l with
  | [] => [x]
  | y :: l' => if cmp x y <=? 0 then x :: y :: l' else y :: sort_insert x l'
  end.

Definition Array_sort (l : list A) : list A := foldr sort_insert [] l.

(** The comparator does not put [a] behind [b]. *)
Definition cmp_le (a b : A) : Prop := cmp a b <= 0.
End ArraySort.

Section FrameRenderer.
Context {num : Type} `{JSNumber num}.

(** The surface the constructor allocates. *)
Definition canvas_width (settings : ExportSettings num) : Z :=
  Math_round (nmul (width settings) (resolution settings)).
Definition canvas_height (settings : ExportSettings num) : Z :=
  Math_round (nmul (height settings) (resolution settings)).

(** The inner loop of [getActiveElementsAtTime]: the elements of one track. *)
Definition pushActiveOfTrack (timestamp : num) (track : ExportTrack num)
    (activeElements : list (ExportElement num * ExportTrack num))
  : list (ExportElement num * ExportTrack num) :=
  foldl (fun activeElements element =>
           let elementEndTime :=
             nsub (nsub (nadd (startTime element) (duration element))
                        (trimStart element)) (trimEnd element) in
           if ngeb timestamp (startTime element) && nltb timestamp elementEndTime
           then activeElements ++ [(element, track)]
           else activeElements)
        activeElements (elements track).

Definition getActiveElementsAtTime (timelineData : TimelineExportData num)
    (timestamp : num) : list (ExportElement num * ExportTrack num) :=
  foldl (fun activeElements track => pushActiveOfTrack timestamp track activeElements)
        [] (tracks timelineData).

(** [tracks.indexOf(track)]: the first position holding that object, or -1. *)
Fixpoint indexOf_from (i : Z) (l : list (ExportTrack num)) (track : ExportTrack num) : Z :=
  match l with
  | [] => -1
  | t :: l' =>
      if Nat.eqb (track_ref t) (track_ref track) then i
      else indexOf_from (i + 1) l' track
  end.

Definition indexOf (l : list (ExportTrack num)) (track : ExportTrack num) : Z :=
  indexOf_from 0 l track.

(** The comparator of [sortElementsByRenderOrder]. *)
Definition renderOrderCompare (timelineData : TimelineExportData num)
    (a b : ExportElement num * ExportTrack num) : Z :=
  let aTrackIndex := indexOf (tracks timelineData) (snd a) in
  let bTrackIndex := indexOf (tracks timelineData) (snd b) in
  if is_text_track (track_type (snd a)) && negb (is_text_track (track_type (snd b)))
  then 1
  else if is_text_track (track_type (snd b)) && negb (is_text_track (track_type (snd a)))
  then -1
  else aTrackIndex - bTrackIndex.

Definition sortElementsByRenderOrder (timelineData : TimelineExportData num)
    (elements : list (ExportElement num * ExportTrack num))
  : list (ExportElement num * ExportTrack num) :=
  Array_sort (renderOrderCompare timelineData) elements.

Implicit Types (a b : ExportElement num * ExportTrack num).

(** The sort key the comparator works on: track-kind priority, then the
    index of the track in the timeline. *)
Definition onTextTrack a : bool := is_text_track (track_type (snd a)).
Definition trackIndex (timelineData : TimelineExportData num) a : Z :=
  indexOf (tracks timelineData) (snd a).

(** [a] is not drawn after [b] by the key: non-text before text, and within
    one kind the lower track index first. *)
Definition render_le (timelineData : TimelineExportData num) a b : Prop :=
  (onTextTrack a = false /\ onTextTrack b = true)
  \/ (onTextTrack a = onTextTrack b
      /\ trackIndex timelineData a <= trackIndex timelineData b).

(** [a] and [b] tie: same kind, same track index. *)
Definition render_tie (timelineData : TimelineExportData num) a b : bool :=
  renderOrderCompare timelineData a b =? 0.
End FrameRenderer.

(** ** [TimelineDataTransformer.validateTimelineData]
    ([utils/timeline-transformer.ts]) *)

Section TimelineDataTransformer.
Context {num : Type} `{JSNumber num}.

(** The checks of one element, pushed onto [errors]. *)
Definition validateElement (track : ExportTrack num) (errors : list string)
    (element : ExportElement num) : list string :=
  let errors :=
    if str_falsy (el_id element)
       || nltb (startTime element) (num_of_Z 0)
       || nleb (duration element) (num_of_Z 0)
    then errors ++ ["Invalid element: " +:+ str_or (el_id element) "unknown"
                      +:+ " in track " +:+ track_name track]
    else errors in
  match payload element with
  | MediaPayload mediaElement =>
      let errors :=
        if str_falsy (mediaId mediaElement)
        then errors ++ ["Media element " +:+ el_id element +:+ " missing mediaId"]
        else errors in
      if opt_missing (file mediaElement) && optstr_falsy (url mediaElement)
      then errors ++ ["Media element " +:+ el_id element +:+ " missing file or URL"]
      else errors
  | TextPayload content =>
      if str_falsy content
      then errors ++ ["Text element " +:+ el_id element +:+ " missing content"]
      else errors
  | _ => errors
  end.

Definition validateTrack (errors : list string) (track : ExportTrack num)
  : list string :=
  let errors :=
    if str_falsy (track_id track) || str_falsy (track_name track)
    then errors ++ ["Invalid track: " +:+ str_or (track_id track) "unknown"]
    else errors in
  foldl (validateElement track) errors (elements track).

Definition validateTimelineData (data : TimelineExportData num) : list string :=
  let errors := [] in
  let errors :=
    if (length (tracks data) =? 0)%nat
    then errors ++ ["No tracks found in timeline data"]
    else errors in
  let errors :=
    if nleb (timeline_duration data) (num_of_Z 0)
    then errors ++ ["Timeline duration must be greater than 0"]
    else errors in
  let totalElements :=
    foldl (fun sum track => (sum + length (elements track))%nat) 0%nat (tracks data) in
  let errors :=
    if (totalElements =? 0)%nat
    then errors ++ ["No elements found in timeline - add some media or text to export"]
    else errors in
  let errors :=
    if match timeline_settings data with
       | None => true
       | Some s => nfalsy (project_width s) || nfalsy (project_height s)
       end
    then errors ++ ["Invalid project settings"]
    else errors in
  foldl validateTrack errors (tracks data).
End TimelineDataTransformer.

(** ** [ConfigGenerator] ([core/config-generator.ts]) *)

Section ConfigGenerator.
Context {num : Type} `{JSNumber num}.

Definition getDefaultSettings : ExportSettings num :=
  {| resolution := num_of_Z 1;
     fps := num_of_Z 30;
     videoBitrate := num_of_Z 4000000;
     sampleRate := num_of_Z 48000;
     numberOfChannels := num_of_Z 2;
     audioBitrate := num_of_Z 128000;
     width := num_of_Z 1920;
     height := num_of_Z 1080;
     backgroundColor := "#000000";
     hardwareAcceleration := true;
     fileName := "export.mp4" |}.

(** [settings.f || defaults.f]: a missing field is [undefined], falsy. *)
Definition field_or (x : option num) (d : num) : num :=
  match x with
  | Some v => num_or v d
  | None => d
  end.

(** [list.includes(x)] *)
Definition includes (l : list num) (x : num) : bool := existsb (fun y => neqb y x) l.

Definition supportedSampleRates : list num :=
  [num_of_Z 8000; num_of_Z 16000; num_of_Z 22050; num_of_Z 44100; num_of_Z 48000].

(** [{...defaults, ...settings}.f] for a field that is not listed after the
    spread: the property of [settings] when it has one, whatever it holds,
    and the default otherwise. *)
Definition spread {A} (d : A) (given : OptionalProperty A) : option A :=
  match given with
  | Absent => Some d
  | Undefined => None
  | Present value => Some value
  end.

Definition validateSettings (settings : PartialExportSettings num)
  : ValidatedSettings num :=
  let defaults := getDefaultSettings in
  {| validated_resolution :=
       Math_max (ndiv (num_of_Z 1) (num_of_Z 4))
                (Math_min (num_of_Z 4) (field_or (opt_resolution settings) (resolution defaults)));
     validated_fps :=
       Math_max (num_of_Z 1)
                (Math_min (num_of_Z 120) (field_or (opt_fps settings) (fps defaults)));
     validated_videoBitrate :=
       Math_max (num_of_Z 500000)
                (Math_min (num_of_Z 100000000)
                          (field_or (opt_videoBitrate settings) (videoBitrate defaults)));
     validated_sampleRate :=
       if includes supportedSampleRates
                   (field_or (opt_sampleRate settings) (sampleRate defaults))
       then field_or (opt_sampleRate settings) (sampleRate defaults)
       else sampleRate defaults;
     validated_numberOfChannels :=
       Math_max (num_of_Z 1)
                (Math_min (num_of_Z 8)
                          (field_or (opt_numberOfChannels settings) (numberOfChannels defaults)));
     validated_audioBitrate :=
       Math_max (num_of_Z 64000)
                (Math_min (num_of_Z 320000)
                          (field_or (opt_audioBitrate settings) (audioBitrate defaults)));
     validated_width :=
       Math_max (num_of_Z 64)
                (Math_min (num_of_Z 7680) (field_or (opt_width settings) (width defaults)));
     validated_height :=
       Math_max (num_of_Z 64)
                (Math_min (num_of_Z 4320) (field_or (opt_height settings) (height defaults)));
     validated_backgroundColor :=
       spread (backgroundColor defaults) (opt_backgroundColor settings);
     validated_hardwareAcceleration :=
       spread (hardwareAcceleration defaults) (opt_hardwareAcceleration settings);
     validated_fileName := spread (fileName defaults) (opt_fileName settings) |}.
End ConfigGenerator.

(** ** [AudioProcessor] ([core/audio-processor.ts])

    An [AudioBuffer] is its sample rate, its length in sample frames and one
    list of samples per channel.  Fetching, decoding and resampling are the
    browser's work: [decodeAudioData] gives the decoded source of a media
    element ([None]: the fetch or the decode throws), [startRendering] the
    channels of a source resampled to a length and rate ([None]: the
    resampling context cannot be made or its rendering fails), and
    [bufferSupported] says whether the browser makes an [AudioBuffer] of a
    given channel count, length and rate (its limits differ from one browser
    to the next).  The channels are [Float32Array]s: a store into one keeps
    the number rounded to single precision ([Math_fround]), and the tests
    that follow the store read the rounded number back. *)

Section AudioProcessor.
Context {num : Type} `{JSNumber num}.

Record AudioBuffer : Type := {
  buf_sampleRate : num;
  buf_length : Z;
  channelData : list (list num)
}.

Definition buf_numberOfChannels (b : AudioBuffer) : nat := length (channelData b).

(** [sourceBuffer.duration] *)
Definition buf_duration (b : AudioBuffer) : num :=
  ndiv (num_of_Z (buf_length b)) (buf_sampleRate b).

Record AudioEnv : Type := {
  decodeAudioData : MediaFields -> option AudioBuffer;
  startRendering : AudioBuffer -> Z -> num -> option (list (list num));
  bufferSupported : Z -> Z -> num -> bool
}.

(** [new AudioBuffer({numberOfChannels, length, sampleRate})]: silence; the
    constructor throws ([None]) on a channel count or a length below 1 and
    on what the browser does not support. *)
Definition new_AudioBuffer (env : AudioEnv) (numberOfChannels length : Z)
    (sampleRate : num) : option AudioBuffer :=
  if (numberOfChannels <? 1) || (length <? 1)
     || negb (bufferSupported env numberOfChannels length sampleRate)
  then None
  else Some {| buf_sampleRate := sampleRate;
               buf_length := length;
               channelData := replicate (Z.to_nat numberOfChannels)
                                (replicate (Z.to_nat length) (num_of_Z 0)) |}.

(** [outputData[idx] += s] followed by the two clamping statements.  A
    typed array ignores a store outside its bounds. *)
Definition addClamped (outputData : list num) (idx : Z) (s : num) : list num :=
  if idx <? 0 then outputData
  else
    match outputData !! Z.to_nat idx with
    | None => outputData
    | Some o =>
        let v := Math_fround (nadd o s) in
        let v := if ngtb v (num_of_Z 1) then num_of_Z 1 else v in
        let v := if nltb v (num_of_Z (-1)) then num_of_Z (-1) else v in
        <[Z.to_nat idx := v]> outputData
    end.

(** The inner loop of [mixAudioElement], from [i] on; it runs at most
    [sourceDuration] times, which is the fuel it is started with. *)
Fixpoint mixLoop (fuel : nat) (i : Z) (startSample trimStartSamples sourceDuration : Z)
    (sourceData outputData : list num) : list num :=
  match fuel with
  | O => outputData
  | S fuel =>
      if (i <? sourceDuration) && (startSample + i <? Z.of_nat (length outputData))
      then
        let sourceIndex := trimStartSamples + i in
        let outputData :=
          if (sourceIndex <? Z.of_nat (length sourceData)) && (sourceIndex >=? 0)
          then match sourceData !! Z.to_nat sourceIndex with
               | Some s => addClamped outputData (startSample + i) s
               | None => outputData
               end
          else outputData in
        mixLoop fuel (i + 1) startSample trimStartSamples sourceDuration
                sourceData outputData
      else outputData
  end.

Definition mixChannel (startSample trimStartSamples sourceDuration : Z)
    (sourceData outputData : list num) : list num :=
  mixLoop (Z.to_nat sourceDuration) 0 startSample trimStartSamples sourceDuration
          sourceData outputData.

(** The part of [mixAudioElement] up to the resampling: the buffer that is
    mixed, or [None] when the element is left out (no file and no URL, or an
    exception, which the [catch] swallows). *)
Definition processedBufferOf (env : AudioEnv) (outputBuffer : AudioBuffer)
    (m : MediaFields) : option AudioBuffer :=
  if opt_missing (file m) && optstr_falsy (url m) then None
  else
    match decodeAudioData env m with
    | None => None
    | Some sourceBuffer =>
        if negb (neqb (buf_sampleRate sourceBuffer) (buf_sampleRate outputBuffer))
        then
          let length :=
            Math_ceil (nmul (buf_duration sourceBuffer) (buf_sampleRate outputBuffer)) in
          match startRendering env sourceBuffer length (buf_sampleRate outputBuffer) with
          | Some channels =>
              Some {| buf_sampleRate := buf_sampleRate outputBuffer;
                      buf_length := length;
                      channelData := channels |}
          | None => None
          end
        else Some sourceBuffer
    end.

(** The timing and the two loops of [mixAudioElement]. *)
Definition mixInto (outputBuffer processedBuffer : AudioBuffer)
    (element : ExportElement num) : AudioBuffer :=
  let startSample := Math_floor (nmul (startTime element) (buf_sampleRate outputBuffer)) in
  let trimStartSamples :=
    Math_floor (nmul (trimStart element) (buf_sampleRate outputBuffer)) in
  let trimEndSamples :=
    Math_floor (nmul (trimEnd element) (buf_sampleRate outputBuffer)) in
  let sourceDuration := buf_length processedBuffer - trimStartSamples - trimEndSamples in
  {| buf_sampleRate := buf_sampleRate outputBuffer;
     buf_length := buf_length outputBuffer;
     channelData :=
       foldl (fun channels channel =>
                match channels !! channel, channelData processedBuffer !! channel with
                | Some outputData, Some sourceData =>
                    <[channel := mixChannel startSample trimStartSamples sourceDuration
                                   sourceData outputData]> channels
                | _, _ => channels
                end)
             (channelData outputBuffer)
             (seq 0 (Nat.min (buf_numberOfChannels outputBuffer)
                             (buf_numberOfChannels processedBuffer))) |}.

Definition mixAudioElement (env : AudioEnv) (outputBuffer : AudioBuffer)
    (element : ExportElement num) : AudioBuffer :=
  match payload element with
  | MediaPayload m =>
      match processedBufferOf env outputBuffer m with
      | Some processedBuffer => mixInto outputBuffer processedBuffer element
      | None => outputBuffer
      end
  | _ => outputBuffer
  end.

(** [element.type === 'media' && (mediaType === 'audio' || mediaType === 'video')] *)
Definition isAudioBearing (element : ExportElement num) : bool :=
  match payload element with
  | MediaPayload m =>
      match mediaType m with
      | media_audio | media_video => true
      | media_image => false
      end
  | _ => false
  end.

Definition is_audio_track (t : TrackType) : bool :=
  match t with track_audio => true | _ => false end.

Inductive AudioResult : Type :=
  | NoAudioTracks
  | AudioBufferRejected
  | AudioEncoded (audioBuffer : AudioBuffer).

(** [processAudio]: the buffer it hands to [encodeAudioBuffer].  The channel
    count reaches the [AudioBuffer] constructor as an integer. *)
Definition processAudio (env : AudioEnv) (settings : ExportSettings num)
    (timelineData : TimelineExportData num) : AudioResult :=
  let audioTracks :=
    List.filter (fun track => is_audio_track (track_type track)
                              || existsb isAudioBearing (elements track))
                (tracks timelineData) in
  if (length audioTracks =? 0)%nat then NoAudioTracks
  else
    let duration := timeline_duration timelineData in
    let sampleRate := sampleRate settings in
    let numberOfChannels := Math_floor (numberOfChannels settings) in
    let length := Math_ceil (nmul duration sampleRate) in
    match new_AudioBuffer env numberOfChannels length sampleRate with
    | None => AudioBufferRejected
    | Some audioBuffer =>
        AudioEncoded
          (foldl (fun audioBuffer track =>
                    if muted track then audioBuffer
                    else foldl (fun audioBuffer element =>
                                  if isAudioBearing element
                                  then mixAudioElement env audioBuffer element
                                  else audioBuffer)
                               audioBuffer (elements track))
                 audioBuffer audioTracks)
    end.
End AudioProcessor.

Arguments AudioBuffer : clear implicits.
Arguments AudioEnv : clear implicits.
Arguments AudioResult : clear implicits.

(** ** [VideoExportEngine] ([core/video-export-engine.ts])

    The engine is effectful: it dispatches progress events, submits frames to
    the encoder, writes to the error log, and any step may throw.  A run is a
    function of the engine's state with an outcome; what the browser and the
    user decide during a run is given by an [ExportEnv]. *)

Inductive FrameCanvas : Type := RenderedCanvas | FallbackCanvas.

(** What [new VideoFrame(canvas, {timestamp, duration})] and
    [encoder.encode(videoFrame, {keyFrame})] are given. *)
Record EncodedFrame : Type := {
  frame_canvas : FrameCanvas;
  frame_timestamp : Z;
  frame_duration : Z;
  frame_keyFrame : bool
}.

Record ExportEnv : Type := {
  (** [new VideoExportEngine(timelineData, settings)]: [None] when the
      constructor returns, else the message of what it throws (the renderer
      gets no canvas, or no 2D context of it) *)
  constructorError : option string;
  (** [isWebCodecsSupported()] *)
  webCodecsSupported : bool;
  (** [generateConfig]: [None] when it throws, else whether [config.audio]
      is defined *)
  generatedConfig : option bool;
  (** [streamTarget.create()] and [output.start()] resolve *)
  streamCreated : bool;
  outputStarted : bool;
  (** the window has [showSaveFilePicker] and the picker resolves with a file
      handle; otherwise the stream is the download stream *)
  fileHandlePicked : bool;
  (** [encoder.configure(videoConfig)] does not throw *)
  encoderConfigured : bool;
  (** [signal.aborted] as read at the top of the iteration for a frame *)
  abortedAt : Z -> bool;
  (** [renderFrame] resolves with a canvas for the frame *)
  frameRendered : Z -> bool;
  (** [new VideoFrame] and [encoder.encode] do not throw for the frame *)
  frameEncodes : Z -> bool;
  (** the encoder's output callback for the frame runs with [meta] and
      [videoSource.add] does not throw: [encodedChunks++] *)
  chunkAdded : Z -> bool;
  (** [encoder.flush()], the audio processing, [output.finalize()] resolve;
      the target holds a buffer; [saveBuffer] resolves *)
  flushed : bool;
  audioProcessed : bool;
  finalized : bool;
  bufferObtained : bool;
  bufferSaved : bool
}.

(** [StreamTarget] ([core/stream-target.ts]): the stream [create()]
    resolves with, and the string its [saveBuffer] resolves with. *)
Inductive StreamInfo : Type := FileSystemStream | DownloadStream.

Definition StreamTarget_create (env : ExportEnv) : StreamInfo :=
  if fileHandlePicked env then FileSystemStream else DownloadStream.

Definition saveBuffer (stream : StreamInfo) (fileName : string) : string :=
  match stream with
  | FileSystemStream => "File saved: " +:+ fileName
  | DownloadStream => "Downloaded: " +:+ fileName
  end.

Section VideoExportEngine.
Context {num : Type} `{JSNumber num}.

Record EngineState : Type := {
  events : list (ExportProgress num);
  submitted : list EncodedFrame;
  encodedChunks : Z;
  errorLog : list string
}.

Definition initial_state : EngineState :=
  {| events := []; submitted := []; encodedChunks := 0; errorLog := [] |}.

Inductive Outcome (A : Type) : Type :=
  | Returned (a : A)
  | Thrown (message : string).
Arguments Returned {A} a.
Arguments Thrown {A} message.

Definition Eff (A : Type) : Type := EngineState -> Outcome A * EngineState.

#[local] Instance Eff_ret : MRet Eff := fun A a s => (Returned a, s).
#[local] Instance Eff_bind : MBind Eff := fun A B f m s =>
  match m s with
  | (Returned a, s') => f a s'
  | (Thrown e, s') => (Thrown e, s')
  end.

Definition throw {A} (message : string) : Eff A := fun s => (Thrown message, s).

(** [try { body } catch (error) { handler(error) }] *)
Definition try_catch {A} (body : Eff A) (handler : string -> Eff A) : Eff A :=
  fun s =>
    match body s with
    | (Returned a, s') => (Returned a, s')
    | (Thrown e, s') => handler e s'
    end.

(** [if (!ok) throw new Error(message)], and an awaited promise that
    rejects with [message] unless [ok]. *)
Definition require (ok : bool) (message : string) : Eff unit :=
  if ok then mret tt else throw message.

Definition emitProgress (progress : ExportProgress num) : Eff unit :=
  fun s => (Returned tt,
            {| events := events s ++ [progress]; submitted := submitted s;
               encodedChunks := encodedChunks s; errorLog := errorLog s |}).

Definition logError (message : string) : Eff unit :=
  fun s => (Returned tt,
            {| events := events s; submitted := submitted s;
               encodedChunks := encodedChunks s;
               errorLog := errorLog s ++ [message] |}).

(** [encoder.encode(videoFrame, {keyFrame})]; the chunk of the frame, when
    the output callback accepts it, is counted by the time of the flush. *)
Definition encode (counted : bool) (f : EncodedFrame) : Eff unit :=
  fun s => (Returned tt,
            {| events := events s; submitted := submitted s ++ [f];
               encodedChunks := if counted then encodedChunks s + 1 else encodedChunks s;
               errorLog := errorLog s |}).

Definition get_encodedChunks : Eff Z := fun s => (Returned (encodedChunks s), s).

Definition emitRenderProgress (frame totalFrames : Z) : Eff unit :=
  emitProgress
    {| currentFrame := frame;
       totalFrames := totalFrames;
       percentage := nmul (ndiv (num_of_Z frame) (num_of_Z totalFrames)) (num_of_Z 100);
       stage := processing;
       error_message := None |}.

(** The body of the frame loop of [processVideo]. *)
Definition processFrame (env : ExportEnv) (settings : ExportSettings num)
    (totalFrames frame : Z) : Eff unit :=
  require (negb (abortedAt env frame)) "User aborted rendering";;
  let canvas := if frameRendered env frame then RenderedCanvas else FallbackCanvas in
  let videoFrame :=
    {| frame_canvas := canvas;
       frame_timestamp :=
         Math_floor (nmul (ndiv (num_of_Z frame) (fps settings)) (num_of_Z 1000000));
       frame_duration := Math_floor (ndiv (num_of_Z 1000000) (fps settings));
       frame_keyFrame :=
         nrem_is_zero (num_of_Z frame) (nmul (num_of_Z 3) (fps settings)) |} in
  require (frameEncodes env frame) "Video encoding error";;
  encode (chunkAdded env frame) videoFrame;;
  if (Z.rem frame 10 =? 0) || (frame =? totalFrames)
  then emitRenderProgress frame totalFrames
  else mret tt.

(** [for (let frame = 0; frame <= totalFrames; frame++)], from [frame] on. *)
Fixpoint frameLoop (fuel : nat) (env : ExportEnv) (settings : ExportSettings num)
    (totalFrames frame : Z) : Eff unit :=
  match fuel with
  | O => mret tt
  | S fuel =>
      if frame <=? totalFrames
      then processFrame env settings totalFrames frame;;
           frameLoop fuel env settings totalFrames (frame + 1)
      else mret tt
  end.

Definition frameMismatch : string := "Frame mismatch".

(** [processVideo].  The loop runs [totalFrames + 1] times at most, which
    is the fuel it is started with. *)
Definition processVideo (env : ExportEnv) (settings : ExportSettings num)
    (totalFrames : Z) : Eff unit :=
  require (encoderConfigured env) "encoder configuration failed";;
  try_catch
    (frameLoop (Z.to_nat (totalFrames + 1)) env settings totalFrames 0;;
     require (flushed env) "flush failed";;
     encodedChunks ← get_encodedChunks;
     (if encodedChunks <? totalFrames + 1 then logError frameMismatch else mret tt);;
     mret tt)
    (fun thrown => logError "Video processing failed";; throw thrown).

Definition hasAudioTracks (timelineData : TimelineExportData num) : bool :=
  existsb (fun track =>
             match track_type track with
             | track_audio => true
             | track_media =>
                 existsb (fun el =>
                            match payload el with
                            | MediaPayload m =>
                                match mediaType m with
                                | media_audio | media_video => true
                                | media_image => false
                                end
                            | _ => false
                            end)
                         (elements track)
             | _ => false
             end)
          (tracks timelineData).

Definition export (env : ExportEnv) (timelineData : TimelineExportData num)
    (settings : ExportSettings num) : Eff string :=
  try_catch
    (emitProgress {| currentFrame := 0; totalFrames := 0; percentage := num_of_Z 0;
                     stage := initializing; error_message := None |};;
     require (webCodecsSupported env) "WebCodecs is not supported in this browser";;
     configAudio ← match generatedConfig env with
                   | Some audio => mret audio
                   | None => throw "No supported video encoder configuration found"
                   end;
     let totalFrames := Math_ceil (nmul (timeline_duration timelineData) (fps settings)) in
     require (streamCreated env) "stream creation failed";;
     let stream := StreamTarget_create env in
     require (outputStarted env) "output start failed";;
     processVideo env settings totalFrames;;
     (if configAudio && hasAudioTracks timelineData
      then require (audioProcessed env) "audio processing failed"
      else mret tt);;
     emitProgress {| currentFrame := totalFrames; totalFrames := totalFrames;
                     percentage := num_of_Z 100; stage := finalizing;
                     error_message := None |};;
     require (finalized env) "finalize failed";;
     require (bufferObtained env) "Failed to get output buffer";;
     require (bufferSaved env) "save failed";;
     let result := saveBuffer stream (fileName settings) in
     emitProgress {| currentFrame := totalFrames; totalFrames := totalFrames;
                     percentage := num_of_Z 100; stage := complete;
                     error_message := None |};;
     mret result)
    (fun thrown =>
       logError "Export failed";;
       emitProgress {| currentFrame := 0; totalFrames := 0; percentage := num_of_Z 0;
                       stage := error; error_message := Some thrown |};;
       throw thrown).

(** A run of [export] from the engine's initial state. *)
Definition run_export (env : ExportEnv) (timelineData : TimelineExportData num)
    (settings : ExportSettings num) : Outcome string * EngineState :=
  export env timelineData settings initial_state.
End VideoExportEngine.

Arguments EngineState : clear implicits.
Arguments Returned {A} a.
Arguments Thrown {A} message.

(** ** What the validator rejects

    The offences [validateTimelineData] looks for, read off its tests. *)

Section ValidatorOffences.
Context {num : Type} `{JSNumber num}.

Definition element_offends (element : ExportElement num) : bool :=
  str_falsy (el_id element)
  || nltb (startTime element) (num_of_Z 0)
  || nleb (duration element) (num_of_Z 0)
  || match payload element with
     | MediaPayload m =>
         str_falsy (mediaId m) || (opt_missing (file m) && optstr_falsy (url m))
     | TextPayload content => str_falsy content
     | _ => false
     end.

Definition track_offends (track : ExportTrack num) : bool :=
  str_falsy (track_id track) || str_falsy (track_name track)
  || existsb element_offends (elements track).

Definition settings_offend (data : TimelineExportData num) : bool :=
  match timeline_settings data with
  | None => true
  | Some s => nfalsy (project_width s) || nfalsy (project_height s)
  end.

Definition timeline_offends (data : TimelineExportData num) : bool :=
  (length (tracks data) =? 0)%nat
  || nleb (timeline_duration data) (num_of_Z 0)
  || forallb (fun track => (length (elements track) =? 0)%nat) (tracks data)
  || settings_offend data
  || existsb track_offends (tracks data).
End ValidatorOffences.

(** ** What [validateSettings] promises for a numeric field

    In the exact reading: [output] is what becomes of the optional [input] of
    a field with range [lo, hi] and default [d].  The result lies in the
    range; a missing or zero input gives the default, an input in the range is
    kept, an input above it gives [hi], a non-zero input below it [lo]. *)
Definition clamped_field (lo hi d : Q) (input : option Q) (output : Q) : Prop :=
  (lo <= output /\ output <= hi)%Q
  /\ (input = None -> output = d)
  /\ (forall x, input = Some x ->
        ((x == 0)%Q -> output = d)
        /\ ((lo <= x /\ x <= hi)%Q -> (output == x)%Q)
        /\ ((hi < x)%Q -> output = hi)
        /\ ((x < lo)%Q -> ~ (x == 0)%Q -> output = lo)).

(** What becomes of a field that the spread writes: the default [d] for an
    absent property, the value of a property that holds one, and [undefined]
    for a property that holds [undefined]. *)
Definition spread_field {A} (d : A) (input : OptionalProperty A) (output : option A)
  : Prop :=
  (input = Absent -> output = Some d)
  /\ (forall value, input = Present value -> output = Some value)
  /\ (input = Undefined -> output = None).

(** The sample rates [validateSettings] accepts, in the exact reading. *)
Definition supported_rate (x : Q) : Prop :=
  (x == 8000 \/ x == 16000 \/ x == 22050 \/ x == 44100 \/ x == 48000)%Q.

(** ** What a run of the frame loop leaves behind

    The frame the loop submits for index [k], the progress event it emits
    after it (every tenth frame and the last), and the engine's state after
    the frames [ks] have gone through without an exception. *)

Section FrameLoopEffects.
Context {num : Type} `{JSNumber num}.

Definition frame_of (env : ExportEnv) (settings : ExportSettings num) (k : Z)
  : EncodedFrame :=
  {| frame_canvas := if frameRendered env k then RenderedCanvas else FallbackCanvas;
     frame_timestamp :=
       Math_floor (nmul (ndiv (num_of_Z k) (fps settings)) (num_of_Z 1000000));
     frame_duration := Math_floor (ndiv (num_of_Z 1000000) (fps settings));
     frame_keyFrame := nrem_is_zero (num_of_Z k) (nmul (num_of_Z 3) (fps settings)) |}.

Definition render_progress (totalFrames k : Z) : ExportProgress num :=
  {| currentFrame := k;
     totalFrames := totalFrames;
     percentage := nmul (ndiv (num_of_Z k) (num_of_Z totalFrames)) (num_of_Z 100);
     stage := processing;
     error_message := None |}.

Definition progress_of_frame (totalFrames k : Z) : list (ExportProgress num) :=
  if (Z.rem k 10 =? 0) || (k =? totalFrames) then [render_progress totalFrames k] else [].

Definition chunk_count (env : ExportEnv) (ks : list Z) : Z :=
  Z.of_nat (length (List.filter (chunkAdded env) ks)).

Definition after_frames (env : ExportEnv) (settings : ExportSettings num)
    (totalFrames : Z) (ks : list Z) (s : EngineState num) : EngineState num :=
  {| events := events s ++ flat_map (progress_of_frame totalFrames) ks;
     submitted := submitted s ++ map (frame_of env settings) ks;
     encodedChunks := encodedChunks s + chunk_count env ks;
     errorLog := errorLog s |}.

(** No frame of the run is aborted or refused by the encoder. *)
Definition loop_unbroken (env : ExportEnv) (totalFrames : Z) : Prop :=
  forall k, 0 <= k <= totalFrames -> abortedAt env k = false /\ frameEncodes env k = true.
End FrameLoopEffects.

(** ** Progress: order of stages and of percentages *)

Definition stage_rank (s : Stage) : Z :=
  match s with
  | initializing => 0
  | processing => 1
  | finalizing => 2
  | complete => 3
  | error => 3
  end.

(** A step from one progress event to the next goes forward along
    initializing -> processing -> finalizing -> (complete | error):
    it stays in [processing] or moves to a later stage; nothing follows
    [complete] or [error]. *)
Definition stage_forward (a b : Stage) : Prop :=
  (a = processing /\ b = processing) \/ stage_rank a < stage_rank b.

Definition stages_only_forward {num} (evs : list (ExportProgress num)) : Prop :=
  forall i a b, evs !! i = Some a -> evs !! S i = Some b -> stage_forward (stage a) (stage b).

Definition stage_rel {num} (a b : ExportProgress num) : Prop :=
  stage_forward (stage a) (stage b).

Definition percentage_le (a b : ExportProgress Q) : Prop :=
  (percentage a <= percentage b)%Q.

Definition percentages_nondecreasing (evs : list (ExportProgress Q)) : Prop :=
  forall i a b, evs !! i = Some a -> evs !! S i = Some b ->
                (percentage a <= percentage b)%Q.

Definition is_error_event {num} (e : ExportProgress num) : bool :=
  match stage e with error => true | _ => false end.

(** The events [export] dispatches itself. *)
Section ExportEvents.
Context {num : Type} `{JSNumber num}.

Definition initializing_event : ExportProgress num :=
  {| currentFrame := 0; totalFrames := 0; percentage := num_of_Z 0;
     stage := initializing; error_message := None |}.

Definition finalizing_event (N : Z) : ExportProgress num :=
  {| currentFrame := N; totalFrames := N; percentage := num_of_Z 100;
     stage := finalizing; error_message := None |}.

Definition complete_event (N : Z) : ExportProgress num :=
  {| currentFrame := N; totalFrames := N; percentage := num_of_Z 100;
     stage := complete; error_message := None |}.

Definition error_event (message : string) : ExportProgress num :=
  {| currentFrame := 0; totalFrames := 0; percentage := num_of_Z 0;
     stage := error; error_message := Some message |}.
End ExportEvents.

(** ** What the mixer computes, sample by sample

    The claim's words: with [offset], [trimStartS] and the effective length of
    the element, the output sample at [offset + i] becomes the clamped sum of
    what it was and the source sample at [trimStartS + i], for every [i] of
    the effective length; every other sample stays.  The sum is the one the
    float32 buffer keeps. *)

Section MixedSamples.
Context {num : Type} `{JSNumber num}.

(** The two clamping statements. *)
Definition clampSample (v : num) : num :=
  let v := if ngtb v (num_of_Z 1) then num_of_Z 1 else v in
  if nltb v (num_of_Z (-1)) then num_of_Z (-1) else v.

(** [l[z]] for an integer index: nothing outside the bounds. *)
Definition zlookup {A} (l : list A) (z : Z) : option A :=
  if z <? 0 then None else l !! Z.to_nat z.

(** The sample at position [j] of an output channel after the element is
    mixed in, [o] being the sample before. *)
Definition mixed_sample (offset trimStartS effectiveLength : Z)
    (sourceData : list num) (j : Z) (o : num) : num :=
  if (offset <=? j) && (j <? offset + effectiveLength)
  then match zlookup sourceData (trimStartS + (j - offset)) with
       | Some s => clampSample (Math_fround (nadd o s))
       | None => o
       end
  else o.

(** The loop from [i] on reaches the positions from [offset + i]. *)
Definition mixed_sample_from (i offset trimStartS effectiveLength : Z)
    (sourceData : list num) (j : Z) (o : num) : num :=
  if (offset + i <=? j) && (j <? offset + effectiveLength)
  then match zlookup sourceData (trimStartS + (j - offset)) with
       | Some s => clampSample (Math_fround (nadd o s))
       | None => o
       end
  else o.

Definition offsetOf (outputBuffer : AudioBuffer num) (element : ExportElement num) : Z :=
  Math_floor (nmul (startTime element) (buf_sampleRate outputBuffer)).
Definition trimStartSOf (outputBuffer : AudioBuffer num) (element : ExportElement num) : Z :=
  Math_floor (nmul (trimStart element) (buf_sampleRate outputBuffer)).
Definition trimEndSOf (outputBuffer : AudioBuffer num) (element : ExportElement num) : Z :=
  Math_floor (nmul (trimEnd element) (buf_sampleRate outputBuffer)).
Definition effectiveLengthOf (outputBuffer processedBuffer : AudioBuffer num)
    (element : ExportElement num) : Z :=
  buf_length processedBuffer - trimStartSOf outputBuffer element
  - trimEndSOf outputBuffer element.

(** The body of the channel loop of [mixInto]. *)
Definition channel_step (start trimS dur : Z) (srcs : list (list num))
    (channels : list (list num)) (channel : nat) : list (list num) :=
  match channels !! channel, srcs !! channel with
  | Some outputData, Some sourceData =>
      <[channel := mixChannel start trimS dur sourceData outputData]> channels
  | _, _ => channels
  end.

(** The channel [c] of the output after the element is mixed in. *)
Definition mixed_channel (outputBuffer processedBuffer : AudioBuffer num)
    (element : ExportElement num) (c : nat) (outputData : list num) : list num :=
  if (c <? Nat.min (buf_numberOfChannels outputBuffer)
                   (buf_numberOfChannels processedBuffer))%nat
  then match channelData processedBuffer !! c with
       | Some sourceData =>
           imap (fun j o =>
                   mixed_sample (offsetOf outputBuffer element)
                                (trimStartSOf outputBuffer element)
                                (effectiveLengthOf outputBuffer processedBuffer element)
                                sourceData (Z.of_nat j) o)
                outputData
       | None => outputData
       end
  else outputData.

(** The elements the mixer mixes, in timeline order: the audio and video
    media of the tracks that are not muted. *)
Definition audible_elements (timelineData : TimelineExportData num)
  : list (ExportElement num) :=
  flat_map (fun track =>
              if muted track then []
              else List.filter isAudioBearing (elements track))
           (tracks timelineData).

(** The buffer [processAudio] starts from. *)
Definition silence (settings : ExportSettings num)
    (timelineData : TimelineExportData num) : AudioBuffer num :=
  {| buf_sampleRate := sampleRate settings;
     buf_length := Math_ceil (nmul (timeline_duration timelineData) (sampleRate settings));
     channelData :=
       replicate (Z.to_nat (Math_floor (numberOfChannels settings)))
         (replicate
            (Z.to_nat (Math_ceil (nmul (timeline_duration timelineData)
                                       (sampleRate settings))))
            (num_of_Z 0)) |}.

(** The mix of a timeline: silence, with the audible elements mixed in one
    after the other. *)
Definition mix_of_timeline (env : AudioEnv num) (settings : ExportSettings num)
    (timelineData : TimelineExportData num) : AudioBuffer num :=
  foldl (mixAudioElement env) (silence settings timelineData)
        (audible_elements timelineData).

(** Every channel of the buffer has the buffer's length. *)
Definition well_formed_buffer (b : AudioBuffer num) : Prop :=
  Forall (fun ch => Z.of_nat (length ch) = buf_length b) (channelData b).
End MixedSamples.

(** A number of [-1, 1], by the program's own comparison; NaN is none. *)
Definition in_unit_range {num} `{JSNumber num} (x : num) : Prop :=
  nleb (num_of_Z (-1)) x = true /\ nleb x (num_of_Z 1) = true.

(** No sample that the browser decodes or resamples is NaN. *)
Definition sources_defined {num} `{JSNumber num} (env : AudioEnv num) : Prop :=
  (forall m sourceBuffer,
     decodeAudioData env m = Some sourceBuffer ->
     Forall (Forall (fun s => neqb s s = true)) (channelData sourceBuffer))
  /\ (forall sourceBuffer length rate channels,
        startRendering env sourceBuffer length rate = Some channels ->
        Forall (Forall (fun s => neqb s s = true)) channels).

(** ** The end of an element's interval

    [elementEndTime] as [getActiveElementsAtTime] and [isElementActive]
    compute it: the sum, then the two differences, in this order. *)
Definition elementEndTime {num} `{JSNumber num} (element : ExportElement num) : num :=
  nsub (nsub (nadd (startTime element) (duration element)) (trimStart element))
       (trimEnd element).

(** ** Settings at another frame rate *)
Definition with_fps {num} (settings : ExportSettings num) (fps_out : num)
  : ExportSettings num :=
  {| resolution := resolution settings;
     fps := fps_out;
     videoBitrate := videoBitrate settings;
     sampleRate := sampleRate settings;
     numberOfChannels := numberOfChannels settings;
     audioBitrate := audioBitrate settings;
     width := width settings;
     height := height settings;
     backgroundColor := backgroundColor settings;
     hardwareAcceleration := hardwareAcceleration settings;
     fileName := fileName settings |}.

(** ** Concrete inputs *)

(** A timeline of one media track on a 32 x 32 canvas.  Its first clip is in
    order; the second has [trimStart + trimEnd >= duration]; the third has a
    negative [trimStart].  The total duration, 2 s, is the largest element
    end, as the transformer computes it. *)
Definition clip (ident : string) (start dur tStart tEnd : float) : ExportElement float :=
  {| el_id := ident; el_name := ident;
     startTime := start; duration := dur; trimStart := tStart; trimEnd := tEnd;
     opacity := None; blendMode := None;
     payload := MediaPayload {| mediaId := "m1"; mediaType := media_video;
                                file := None; url := Some "blob:clip" |} |}.

Definition untrimmed_clip : ExportElement float := clip "a" 0%float 2%float 0%float 0%float.
Definition overtrimmed_clip : ExportElement float := clip "b" 0%float 2%float 2%float 1%float.
Definition negative_trim_clip : ExportElement float := clip "c" 0%float 1%float (-1)%float 1%float.

Definition small_canvas_timeline : TimelineExportData float :=
  {| tracks := [ {| track_ref := 0; track_id := "t1"; track_name := "Main";
                    track_type := track_media;
                    elements := [untrimmed_clip; overtrimmed_clip; negative_trim_clip];
                    muted := false |} ];
     timeline_duration := 2%float;
     timeline_settings := Some {| project_width := 32%float; project_height := 32%float;
                                  project_fps := 30%float |} |}.

(** A browser in which every step of the export succeeds and the user never
    aborts; and the same with the abort signal raised when the loop reaches
    frame [k]. *)
Definition untroubled_env : ExportEnv :=
  {| constructorError := None;
     webCodecsSupported := true; generatedConfig := Some true;
     streamCreated := true; outputStarted := true; fileHandlePicked := false;
     encoderConfigured := true;
     abortedAt := fun _ => false; frameRendered := fun _ => true;
     frameEncodes := fun _ => true; chunkAdded := fun _ => true;
     flushed := true; audioProcessed := true; finalized := true;
     bufferObtained := true; bufferSaved := true |}.

Definition aborting_env (k : Z) : ExportEnv :=
  {| constructorError := None;
     webCodecsSupported := true; generatedConfig := Some true;
     streamCreated := true; outputStarted := true; fileHandlePicked := false;
     encoderConfigured := true;
     abortedAt := fun frame => frame =? k; frameRendered := fun _ => true;
     frameEncodes := fun _ => true; chunkAdded := fun _ => true;
     flushed := true; audioProcessed := true; finalized := true;
     bufferObtained := true; bufferSaved := true |}.

(** A timeline of one video clip that fills it, on a 1920 x 1080 project at
    30 fps, in either reading. *)
Definition one_clip_timeline {num} `{JSNumber num} (seconds : Z) : TimelineExportData num :=
  {| tracks :=
       [ {| track_ref := 0; track_id := "t1"; track_name := "Main";
            track_type := track_media;
            elements :=
              [ {| el_id := "clip"; el_name := "clip";
                   startTime := num_of_Z 0; duration := num_of_Z seconds;
                   trimStart := num_of_Z 0; trimEnd := num_of_Z 0;
                   opacity := None; blendMode := None;
                   payload := MediaPayload {| mediaId := "m1"; mediaType := media_video;
                                              file := None; url := Some "blob:clip" |} |} ];
            muted := false |} ];
     timeline_duration := num_of_Z seconds;
     timeline_settings := Some {| project_width := num_of_Z 1920;
                                  project_height := num_of_Z 1080;
                                  project_fps := num_of_Z 30 |} |}.

(** A timeline without tracks. *)
Definition empty_timeline : TimelineExportData Q :=
  {| tracks := []; timeline_duration := 2%Q;
     timeline_settings := Some {| project_width := 1920%Q; project_height := 1080%Q;
                                  project_fps := 30%Q |} |}.

(** A clip from 1/30 s to 4/30 s on a text track, on binary64: at 30 fps it
    covers the frames 1, 2 and 3. *)
Definition short_clip : ExportElement float :=
  {| el_id := "short"; el_name := "short";
     startTime := (1 / 30)%float; duration := (3 / 30)%float;
     trimStart := 0%float; trimEnd := 0%float;
     opacity := None; blendMode := None; payload := TextPayload "HELLO" |}.

Definition short_clip_track : ExportTrack float :=
  {| track_ref := 0; track_id := "t0"; track_name := "Titles";
     track_type := track_text; elements := [short_clip]; muted := false |}.

Definition short_clip_timeline : TimelineExportData float :=
  {| tracks := [short_clip_track]; timeline_duration := (4 / 30)%float;
     timeline_settings := Some {| project_width := 1920%float;
                                  project_height := 1080%float;
                                  project_fps := 30%float |} |}.

(** A title on a text track under a video track: the text track comes first
    in the timeline.  Both elements run from 0 s to 2 s. *)
Definition title_element : ExportElement Q :=
  {| el_id := "title"; el_name := "title";
     startTime := 0%Q; duration := 2%Q; trimStart := 0%Q; trimEnd := 0%Q;
     opacity := None; blendMode := None; payload := TextPayload "HELLO" |}.

Definition video_element : ExportElement Q :=
  {| el_id := "video"; el_name := "video";
     startTime := 0%Q; duration := 2%Q; trimStart := 0%Q; trimEnd := 0%Q;
     opacity := None; blendMode := None;
     payload := MediaPayload {| mediaId := "m1"; mediaType := media_video;
                                file := None; url := Some "blob:clip" |} |}.

Definition title_track : ExportTrack Q :=
  {| track_ref := 0; track_id := "t0"; track_name := "Titles";
     track_type := track_text; elements := [title_element]; muted := false |}.

Definition video_track : ExportTrack Q :=
  {| track_ref := 1; track_id := "t1"; track_name := "Main";
     track_type := track_media; elements := [video_element]; muted := false |}.

Definition titled_timeline : TimelineExportData Q :=
  {| tracks := [title_track; video_track]; timeline_duration := 2%Q;
     timeline_settings := Some {| project_width := 1920%Q; project_height := 1080%Q;
                                  project_fps := 30%Q |} |}.

(** Partial settings that ask for 240 fps and nothing else. *)
Definition settings_240_fps : PartialExportSettings Q :=
  {| opt_resolution := None; opt_fps := Some 240%Q; opt_videoBitrate := None;
     opt_sampleRate := None; opt_numberOfChannels := None; opt_audioBitrate := None;
     opt_width := None; opt_height := None; opt_backgroundColor := Absent;
     opt_hardwareAcceleration := Absent; opt_fileName := Absent |}.

(** Partial settings that hold a file name, which is [undefined], and
    nothing else. *)
Definition settings_with_undefined_fileName : PartialExportSettings float :=
  {| opt_resolution := None; opt_fps := None; opt_videoBitrate := None;
     opt_sampleRate := None; opt_numberOfChannels := None; opt_audioBitrate := None;
     opt_width := None; opt_height := None; opt_backgroundColor := Absent;
     opt_hardwareAcceleration := Absent; opt_fileName := Undefined |}.

(** The default settings at twice the resolution (the 4K presets): a
    3840 x 2160 surface. *)
Definition settings_4k : ExportSettings float :=
  {| resolution := 2%float; fps := 30%float; videoBitrate := 40000000%float;
     sampleRate := 48000%float; numberOfChannels := 2%float;
     audioBitrate := 256000%float; width := 1920%float; height := 1080%float;
     backgroundColor := "#000000"; hardwareAcceleration := true;
     fileName := "export.mp4" |}.

(** Four tenths of a second of timeline with two audio clips of one
    millisecond on an audio track, on binary64: the first starts at 1/3 s,
    the second at 0.3335 s.  The decoder yields, at the output rate, a left
    channel of 0.1 and a right channel of 0.75 for the first source, and 0.2
    and 0.5 for the second; the samples are those of single precision. *)
Definition tone (left right : float) : AudioBuffer float :=
  {| buf_sampleRate := 48000%float; buf_length := 48;
     channelData := [replicate 48 left; replicate 48 right] |}.

Definition tone_clip (ident media : string) (start : float) : ExportElement float :=
  {| el_id := ident; el_name := ident;
     startTime := start; duration := (1 / 1000)%float;
     trimStart := 0%float; trimEnd := 0%float;
     opacity := None; blendMode := None;
     payload := MediaPayload {| mediaId := media; mediaType := media_audio;
                                file := Some (FileHandle 0); url := None |} |}.

Definition overlapping_clips_timeline : TimelineExportData float :=
  {| tracks := [ {| track_ref := 0; track_id := "a1"; track_name := "Audio";
                    track_type := track_audio;
                    elements := [ tone_clip "a" "m1" (1 / 3)%float;
                                  tone_clip "b" "m2" (667 / 2000)%float ];
                    muted := false |} ];
     timeline_duration := (2 / 5)%float;
     timeline_settings := Some {| project_width := 1920%float;
                                  project_height := 1080%float;
                                  project_fps := 30%float |} |}.

Definition tone_decoder : AudioEnv float :=
  {| decodeAudioData := fun m =>
       if String.eqb (mediaId m) "m1"
       then Some (tone 0x1.99999ap-4%float 0.75%float)
       else Some (tone 0x1.99999ap-3%float 0.5%float);
     startRendering := fun source length rate => None;
     bufferSupported := fun channels length rate => channels <=? 32 |}.

(** Two seconds of timeline with one audio clip on an audio track, in the
    exact reading, and a decoder that yields one second of stereo at the
    output rate for every source. *)
Definition two_second_audio_timeline : TimelineExportData Q :=
  {| tracks := [ {| track_ref := 0; track_id := "a1"; track_name := "Audio";
                    track_type := track_audio;
                    elements :=
                      [ {| el_id := "clip"; el_name := "clip";
                           startTime := (1 # 2)%Q; duration := 1%Q; trimStart := 0%Q; trimEnd := 0%Q;
                           opacity := None; blendMode := None;
                           payload := MediaPayload {| mediaId := "m1";
                                                      mediaType := media_audio;
                                                      file := Some (FileHandle 0);
                                                      url := None |} |} ];
                    muted := false |} ];
     timeline_duration := 2%Q;
     timeline_settings := Some {| project_width := 1920%Q; project_height := 1080%Q;
                                  project_fps := 30%Q |} |}.

Definition one_second_decoder : AudioEnv Q :=
  {| decodeAudioData := fun _ =>
       Some {| buf_sampleRate := 48000%Q; buf_length := 48000;
               channelData := replicate 2 (replicate (Z.to_nat 48000) (1 # 2)%Q) |};
     startRendering := fun source length rate =>
       Some (replicate (buf_numberOfChannels source) (replicate (Z.to_nat length) 0%Q));
     bufferSupported := fun channels length rate => channels <=? 32 |}.

(** ** [TimelineDataTransformer.transform] ([utils/timeline-transformer.ts])

    The editor's own timeline, as the transformer reads it.  An element's
    [type] decides how it is transformed; a type other than ['media'] and
    ['text'] (the declared ones) makes [transformElement] return [null].  As
    in [ExportElement], the styling fields of a text element are left out;
    its [opacity] is kept. *)

Section OpenCutTimeline.
Context {num : Type}.

Inductive OpenCutElementKind : Type :=
  | OpenCutMedia (ocMediaId : string)
  | OpenCutText (ocContent : string) (ocOpacity : num)
  | OpenCutOther.

Record OpenCutTimelineElement : Type := {
  oc_id : string;
  oc_name : string;
  oc_startTime : num;
  oc_duration : num;
  oc_trimStart : num;
  oc_trimEnd : num;
  oc_kind : OpenCutElementKind
}.

(** [muted] is optional. *)
Record OpenCutTimelineTrack : Type := {
  oc_track_id : string;
  oc_track_name : string;
  oc_track_type : TrackType;
  oc_elements : list OpenCutTimelineElement;
  oc_muted : option bool
}.

Record OpenCutMediaItem : Type := {
  item_id : string;
  item_name : string;
  item_type : MediaType;
  item_file : option File;
  item_url : option string
}.
End OpenCutTimeline.

Arguments OpenCutElementKind : clear implicits.
Arguments OpenCutTimelineElement : clear implicits.
Arguments OpenCutTimelineTrack : clear implicits.

Section Transform.
Context {num : Type} `{JSNumber num}.

Definition transformMediaElement (element : OpenCutTimelineElement num)
    (element_mediaId : string) (mediaItems : list OpenCutMediaItem)
  : option (ExportElement num) :=
  match List.find (fun item => String.eqb (item_id item) element_mediaId) mediaItems with
  | None => None
  | Some mediaItem =>
      Some {| el_id := oc_id element;
              el_name := oc_name element;
              startTime := oc_startTime element;
              duration := oc_duration element;
              trimStart := oc_trimStart element;
              trimEnd := oc_trimEnd element;
              opacity := None;
              blendMode := None;
              payload := MediaPayload {| mediaId := element_mediaId;
                                         mediaType := item_type mediaItem;
                                         file := item_file mediaItem;
                                         url := item_url mediaItem |} |}
  end.

Definition transformTextElement (element : OpenCutTimelineElement num)
    (element_content : string) (element_opacity : num) : ExportElement num :=
  {| el_id := oc_id element;
     el_name := oc_name element;
     startTime := oc_startTime element;
     duration := oc_duration element;
     trimStart := oc_trimStart element;
     trimEnd := oc_trimEnd element;
     opacity := Some element_opacity;
     blendMode := None;
     payload := TextPayload element_content |}.

Definition transformElement (element : OpenCutTimelineElement num)
    (mediaItems : list OpenCutMediaItem) : option (ExportElement num) :=
  match oc_kind element with
  | OpenCutMedia element_mediaId =>
      transformMediaElement element element_mediaId mediaItems
  | OpenCutText element_content element_opacity =>
      Some (transformTextElement element element_content element_opacity)
  | OpenCutOther => None
  end.

(** [transformTrack] makes a new track object; [ref] is its identity.
    [.filter(Boolean)] drops the elements that came out as [null]. *)
Definition transformTrack (ref : nat) (track : OpenCutTimelineTrack num)
    (mediaItems : list OpenCutMediaItem) : ExportTrack num :=
  {| track_ref := ref;
     track_id := oc_track_id track;
     track_name := oc_track_name track;
     track_type := oc_track_type track;
     elements := omap (fun element => transformElement element mediaItems)
                      (oc_elements track);
     muted := default false (oc_muted track) |}.

Definition calculateTotalDuration (tracks : list (ExportTrack num)) : num :=
  foldl (fun maxDuration track =>
           foldl (fun maxDuration element =>
                    let actualDuration :=
                      nsub (nsub (duration element) (trimStart element))
                           (trimEnd element) in
                    let elementEnd := nadd (startTime element) actualDuration in
                    Math_max maxDuration elementEnd)
                 maxDuration (elements track))
        (num_of_Z 0) tracks.

(** [tracks.map] makes one new object per track: the track at position [i]
    is given the identity [i]. *)
Definition transform (tracks : list (OpenCutTimelineTrack num))
    (mediaItems : list OpenCutMediaItem) (projectSettings : ProjectSettings num)
  : TimelineExportData num :=
  let exportTracks := imap (fun i track => transformTrack i track mediaItems) tracks in
  let duration := calculateTotalDuration exportTracks in
  {| tracks := exportTracks;
     timeline_duration := duration;
     timeline_settings := Some projectSettings |}.
End Transform.

(** The element survives the transformation: a text element, or a media
    element whose [mediaId] names one of the media items. *)
Definition resolvable {num} (mediaItems : list OpenCutMediaItem)
    (element : OpenCutTimelineElement num) : bool :=
  match oc_kind element with
  | OpenCutMedia element_mediaId =>
      existsb (fun item => String.eqb (item_id item) element_mediaId) mediaItems
  | OpenCutText _ _ => true
  | OpenCutOther => false
  end.

(** Where an element ends on the timeline, as the transformer computes it. *)
Definition elementEnd {num} `{JSNumber num} (element : ExportElement num) : num :=
  nadd (startTime element)
       (nsub (nsub (duration element) (trimStart element)) (trimEnd element)).

(** ** Remainders

    [a % b] on numbers: the remainder of the division truncated towards
    zero, with the sign of [a].  On binary64 it is exact; it is computed on
    the mantissas scaled to the smaller exponent.  The exact reading has no
    NaN: there [a % 0] is [a] (the source divides by constants only). *)

Class JSRemainder (num : Type) : Type := {
  nrem : num -> num -> num
}.

(** [Math.trunc] *)
Definition Qtrunc (x : Q) : Z := if Qltb x 0 then Qceiling x else Qfloor x.

Definition Q_rem (a b : Q) : Q := (a - b * inject_Z (Qtrunc (a / b)))%Q.

#[export] Instance ExactRemainder : JSRemainder Q := {
  nrem := Q_rem
}.

Definition float_rem (a b : float) : float :=
  match Prim2SF a, Prim2SF b with
  | S754_nan, _ | _, S754_nan => PrimFloat.nan
  | S754_infinity _, _ | _, S754_zero _ => PrimFloat.nan
  | S754_zero _, _ => a
  | S754_finite _ _ _, S754_infinity _ => a
  | S754_finite sa ma ea, S754_finite _ mb eb =>
      let e := Z.min ea eb in
      let r := (Z.pos ma * 2 ^ (ea - e)) mod (Z.pos mb * 2 ^ (eb - e)) in
      let v := Z.ldexp (float_of_Z r) e in
      if sa then PrimFloat.opp v else v
  end.

#[export] Instance Binary64Remainder : JSRemainder float := {
  nrem := float_rem
}.

(** ** Time formatting ([utils/time-utils.ts])

    [`${n}`] of a whole number below 1e21 is its decimal notation
    ([pretty]). *)

Section TimeUtils.
Context {num : Type} `{JSNumber num} `{JSRemainder num}.

Definition formatTime (timeInSeconds : num) : string :=
  if nfalsy timeInSeconds || nltb timeInSeconds (num_of_Z 0) then "0s"
  else
    let hours := Math_floor (ndiv timeInSeconds (num_of_Z 3600)) in
    let minutes :=
      Math_floor (ndiv (nrem timeInSeconds (num_of_Z 3600)) (num_of_Z 60)) in
    let seconds := Math_floor (nrem timeInSeconds (num_of_Z 60)) in
    let parts : list string := [] in
    let parts := if 0 <? hours then parts ++ [pretty hours +:+ "h"] else parts in
    let parts := if 0 <? minutes then parts ++ [pretty minutes +:+ "m"] else parts in
    let parts :=
      if (0 <? seconds) || (length parts =? 0)%nat
      then parts ++ [pretty seconds +:+ "s"] else parts in
    String.concat " " parts.
End TimeUtils.

(** ** [VideoExporter] ([api/video-exporter.ts]) *)

Inductive Complexity : Type := low | medium | high.

Section VideoExporter.
Context {num : Type} `{JSNumber num} `{JSRemainder num}.

(** [OpenCutExportOptions]: every field is optional; of a callback only
    its presence is kept. *)
Record OpenCutExportOptions : Type := {
  options_fileName : option string;
  options_resolution : option num;
  options_fps : option num;
  options_videoBitrate : option num;
  options_audioBitrate : option num;
  options_hardwareAcceleration : option bool;
  options_onProgress : bool;
  options_onComplete : bool;
  options_onError : bool
}.

(** [generateExportSettings].  Reading [timelineData.settings.width] of a
    timeline without settings throws ([None]).  The test for audio elements
    only writes to the log.  The base settings hold all three fields that the
    spread of [validateSettings] writes, so what it returns is complete. *)
Definition generateExportSettings (timelineData : TimelineExportData num)
    (options : OpenCutExportOptions) : option (ExportSettings num) :=
  match timeline_settings timelineData with
  | None => None
  | Some timelineData_settings =>
      let optimalSampleRate := num_of_Z 48000 in
      let baseSettings :=
        {| opt_fileName :=
             Present (match options_fileName options with
                      | Some given => str_or given "export.mp4"
                      | None => "export.mp4"
                      end);
           opt_resolution := Some (field_or (options_resolution options) (num_of_Z 1));
           opt_fps :=
             Some (field_or (options_fps options) (project_fps timelineData_settings));
           opt_videoBitrate :=
             Some (nmul (field_or (options_videoBitrate options) (num_of_Z 10))
                        (num_of_Z 1000000));
           opt_audioBitrate :=
             Some (nmul (field_or (options_audioBitrate options) (num_of_Z 128))
                        (num_of_Z 1000));
           opt_hardwareAcceleration :=
             Present (match options_hardwareAcceleration options with
                      | Some false => false
                      | _ => true
                      end);
           opt_width := Some (project_width timelineData_settings);
           opt_height := Some (project_height timelineData_settings);
           opt_backgroundColor := Present "#000000";
           opt_sampleRate := Some optimalSampleRate;
           opt_numberOfChannels := Some (num_of_Z 2) |} in
      as_ExportSettings (validateSettings baseSettings)
  end.

Record ExportEstimate : Type := {
  estimatedSeconds : num;
  formattedTime : string;
  estimate_totalFrames : Z;
  complexity : Complexity
}.

(** [estimateExportTime]: the [try] branch.  Its [catch] is reached only
    when the transformation throws, which it does on ill-typed input
    alone. *)
Definition estimateExportTime (timelineTracks : list (OpenCutTimelineTrack num))
    (mediaItems : list OpenCutMediaItem) (projectSettings : ProjectSettings num)
    (options : OpenCutExportOptions) : ExportEstimate :=
  let timelineData := transform timelineTracks mediaItems projectSettings in
  let duration := timeline_duration timelineData in
  let fps := field_or (options_fps options) (project_fps projectSettings) in
  let totalFrames := Math_ceil (nmul duration fps) in
  let trackCount := length (tracks timelineData) in
  let elementCount :=
    foldl (fun sum track => (sum + length (elements track))%nat) 0%nat
          (tracks timelineData) in
  let resolution := field_or (options_resolution options) (num_of_Z 1) in
  let complexity : Complexity :=
    if (20 <? elementCount)%nat || (10 <? trackCount)%nat
       || ngeb resolution (num_of_Z 2)
    then high
    else if (10 <? elementCount)%nat || (5 <? trackCount)%nat
            || ngtb resolution (num_of_Z 1)
    then medium
    else low in
  let baseRenderTime :=
    match complexity with
    | high => ndiv (num_of_Z 1) (num_of_Z 2)
    | medium => ndiv (num_of_Z 1) (num_of_Z 5)
    | low => ndiv (num_of_Z 1) (num_of_Z 10)
    end in
  let renderTime := nmul (num_of_Z totalFrames) baseRenderTime in
  let encodingOverhead := nmul duration (ndiv (num_of_Z 1) (num_of_Z 10)) in
  let estimatedSeconds := nadd renderTime encodingOverhead in
  {| estimatedSeconds := estimatedSeconds;
     formattedTime := formatTime estimatedSeconds;
     estimate_totalFrames := totalFrames;
     complexity := complexity |}.

(** What the caller's callbacks are called with. *)
Inductive Callback : Type :=
  | onProgress (progress : ExportProgress num)
  | onComplete (filePath : string)
  | onError (message : string).

Definition called (present : bool) (calls : list Callback) : list Callback :=
  if present then calls else [].

(** [exportTimeline].  The engine dispatches its progress events to
    [options.onProgress]; its [export()] dispatches ['complete'] before it
    returns and ['error'] before it rethrows, and the listeners registered by
    [engine.onComplete] and [engine.onError] hand them to the caller's
    callbacks.  The [catch] of [exportTimeline] calls [options.onError]
    itself and rethrows; it also catches what the engine's constructor
    throws, before any listener is registered. *)
Definition exportTimeline (env : ExportEnv)
    (timelineTracks : list (OpenCutTimelineTrack num))
    (mediaItems : list OpenCutMediaItem) (projectSettings : ProjectSettings num)
    (options : OpenCutExportOptions) : Outcome string * list Callback :=
  let timelineData := transform timelineTracks mediaItems projectSettings in
  let validationErrors := validateTimelineData timelineData in
  if (0 <? length validationErrors)%nat
  then
    let message :=
      "Timeline validation failed: " +:+ String.concat ", " validationErrors in
    (Thrown message, called (options_onError options) [onError message])
  else
    match generateExportSettings timelineData options with
    | None =>
        let message := "Cannot read properties of undefined" in
        (Thrown message, called (options_onError options) [onError message])
    | Some exportSettings =>
        match constructorError env with
        | Some message =>
            (Thrown message, called (options_onError options) [onError message])
        | None =>
            match run_export env timelineData exportSettings with
            | (Returned result, engine) =>
                (Returned result,
                 called (options_onProgress options) (map onProgress (events engine))
                 ++ called (options_onComplete options) [onComplete result])
            | (Thrown message, engine) =>
                (Thrown message,
                 called (options_onProgress options) (map onProgress (events engine))
                 ++ called (options_onError options) [onError message]
                 ++ called (options_onError options) [onError message])
            end
        end
    end.
End VideoExporter.

Arguments OpenCutExportOptions : clear implicits.
Arguments ExportEstimate : clear implicits.
Arguments Callback : clear implicits.

(** ** Audio utilities ([utils/audio-utils.ts])

    A typed array is the list of its elements.  [result.set(data, offset)]
    throws a [RangeError] ([None]) when [data] does not fit behind [offset];
    a typed array of a negative length cannot be made. *)

Section AudioUtils.
Context {num : Type} `{JSNumber num}.

Definition typedArray_set (result data : list num) (offset : nat) : option (list num) :=
  if (offset + length data <=? length result)%nat
  then Some (take offset result ++ data ++ drop (offset + length data) result)
  else None.

Definition bufferToF32Planar (input : AudioBuffer num) : option (list num) :=
  let size := buf_length input * Z.of_nat (buf_numberOfChannels input) in
  if size <? 0 then None
  else
    let result := replicate (Z.to_nat size) (num_of_Z 0) in
    fst <$> foldl (fun state data =>
                     '(result, offset) ← state;
                     result ← typedArray_set result data offset;
                     Some (result, (offset + length data)%nat))
                  (Some (result, 0%nat)) (channelData input).

(** [Math.trunc], and the conversion of a store into an [Int16Array]:
    truncation, then reduction modulo 2^16 into [-32768, 32767]. *)
Definition num_trunc (x : num) : Z :=
  if nltb x (num_of_Z 0) then Math_ceil x else Math_floor x.

Definition ToInt16 (z : Z) : Z := (z + 32768) mod 65536 - 32768.

(** What the inner loop body of [bufferToI16Interleaved] stores for the
    sample [data[i]] of a channel.  A sample that is not there is
    [undefined]: the product is NaN, which no comparison changes and which is
    stored as 0. *)
Definition int16Sample (data_i : option num) : Z :=
  match data_i with
  | Some s =>
      let sample := nmul s (num_of_Z 32767) in
      let sample := if ngtb sample (num_of_Z 32767) then num_of_Z 32767 else sample in
      let sample := if nltb sample (num_of_Z (-32767)) then num_of_Z (-32767) else sample in
      ToInt16 (num_trunc sample)
  | None => 0
  end.

(** An integer-indexed store into a typed array: nothing happens outside the
    bounds. *)
Definition typedArray_store (interleaved : list Z) (index : Z) (value : Z) : list Z :=
  if index <? 0 then interleaved else <[Z.to_nat index := value]> interleaved.

Definition bufferToI16Interleaved (audioBuffer : AudioBuffer num) : option (list Z) :=
  let numberOfChannels := Z.of_nat (buf_numberOfChannels audioBuffer) in
  let length := buf_length audioBuffer in
  if length * numberOfChannels <? 0 then None
  else
    let interleaved := replicate (Z.to_nat (length * numberOfChannels)) 0 in
    Some
      (foldl (fun interleaved i =>
                foldl (fun interleaved channel =>
                         let data_i :=
                           channelData audioBuffer !! Z.to_nat channel
                             ≫= (fun data => data !! Z.to_nat i) in
                         typedArray_store interleaved (i * numberOfChannels + channel)
                                          (int16Sample data_i))
                      interleaved (seqZ 0 numberOfChannels))
             interleaved (seqZ 0 length)).
End AudioUtils.

(** ** The render pipeline ([pipeline/pipeline.ts])

    A frame is the [RenderFrame] object with the state of its canvas and
    context, which a processor changes in place.  A processor is its [id],
    [name], optional [type] and its [process] method, which resolves with
    the processed frame or throws, leaving the frame it was given in the
    state it has brought it to by then; [proc_ref] is the identity of the
    object and [proc_dispose] says whether it has a [dispose] method.  The
    pipeline is its array of processors; the calls of [dispose] it has made
    are kept in [disposed]. *)

Module RenderPipeline.
Section Pipeline.
Context {Frame num : Type}.

Inductive ProcessResult : Type :=
  | Resolved (processed : Frame)
  | Rejected (abandoned : Frame).

Record PipelineProcessor : Type := {
  proc_ref : nat;
  proc_id : string;
  proc_name : string;
  proc_type : option string;
  proc_process : Frame -> ExportSettings num -> num -> ProcessResult;
  proc_dispose : bool
}.

Record t : Type := {
  processors : list PipelineProcessor;
  settings : ExportSettings num;
  disposed : list nat
}.

Definition create (settings : ExportSettings num) : t :=
  {| processors := []; settings := settings; disposed := [] |}.

(** [processor.dispose?.()] *)
Definition dispose_call (processor : PipelineProcessor) : list nat :=
  if proc_dispose processor then [proc_ref processor] else [].

Definition addProcessor (processor : PipelineProcessor) (p : t) : t :=
  {| processors := processors p ++ [processor];
     settings := settings p; disposed := disposed p |}.

(** [findIndex(p => p.id === id)], with the processor at that index. *)
Definition findIndex (ident : string) (l : list PipelineProcessor)
  : option (nat * PipelineProcessor) :=
  list_find (fun q => proc_id q = ident) l.

Definition removeProcessor (ident : string) (p : t) : t :=
  match findIndex ident (processors p) with
  | Some (index, processor) =>
      {| processors := delete index (processors p);
         settings := settings p;
         disposed := disposed p ++ dispose_call processor |}
  | None => p
  end.

Definition getProcessor (ident : string) (p : t) : option PipelineProcessor :=
  List.find (fun q => String.eqb (proc_id q) ident) (processors p).

(** [processFrame]: after a processor that throws, [currentFrame] is the
    frame it was, as the processor has left it. *)
Definition processFrame (frame : Frame) (timestamp : num) (p : t) : Frame :=
  foldl (fun currentFrame processor =>
           match proc_process processor currentFrame (settings p) timestamp with
           | Resolved processed => processed
           | Rejected abandoned => abandoned
           end)
        frame (processors p).

Definition dispose (p : t) : t :=
  {| processors := [];
     settings := settings p;
     disposed := disposed p ++ flat_map dispose_call (processors p) |}.

Definition hasProcessor (ident : string) (p : t) : bool :=
  existsb (fun q => String.eqb (proc_id q) ident) (processors p).

Definition getProcessorsByType (type : string) (p : t) : list PipelineProcessor :=
  List.filter (fun q => match proc_type q with
                        | Some given => String.eqb given type
                        | None => false
                        end)
              (processors p).

(** [splice(currentIndex, 1)] takes the processor out, [splice(newIndex, 0,
    processor)] puts it in at [newIndex]. *)
Definition reorderProcessor (ident : string) (newIndex : Z) (p : t) : t :=
  match findIndex ident (processors p) with
  | None => p
  | Some (currentIndex, processor) =>
      if (newIndex <? 0) || (Z.of_nat (length (processors p)) <=? newIndex) then p
      else
        let rest := delete currentIndex (processors p) in
        {| processors :=
             take (Z.to_nat newIndex) rest ++ processor :: drop (Z.to_nat newIndex) rest;
           settings := settings p;
           disposed := disposed p |}
  end.
End Pipeline.

Arguments ProcessResult : clear implicits.
Arguments PipelineProcessor : clear implicits.
Arguments t : clear implicits.
Arguments Resolved {Frame} processed.
Arguments Rejected {Frame} abandoned.
End RenderPipeline.

(** ** Effects ([pipeline/effects/base-effect.ts])

    The parameters of an effect are a JavaScript object used as a map from
    names to values.  A value may be [undefined] or [null], which [??]
    replaces by the default.  Names that [Object.prototype] defines are left
    out of the model. *)

Module BaseEffect.
Section EffectParameters.
Context {num : Type}.

Inductive ParamValue : Type :=
  | ParamUndefined
  | ParamNull
  | ParamNumber (x : num)
  | ParamString (s : string)
  | ParamBoolean (b : bool).

Definition nullish (v : ParamValue) : bool :=
  match v with
  | ParamUndefined | ParamNull => true
  | _ => false
  end.

(** [{ ...this.parameters, ...newParams }] *)
Definition updateParameters (newParams parameters : gmap string ParamValue)
  : gmap string ParamValue :=
  newParams ∪ parameters.

(** [this.parameters[key] ?? defaultValue] *)
Definition getParameter (key : string) (defaultValue : ParamValue)
    (parameters : gmap string ParamValue) : ParamValue :=
  match parameters !! key with
  | Some v => if nullish v then defaultValue else v
  | None => defaultValue
  end.

Definition setParameter (key : string) (value : ParamValue)
    (parameters : gmap string ParamValue) : gmap string ParamValue :=
  <[key := value]> parameters.
End EffectParameters.

Arguments ParamValue : clear implicits.
End BaseEffect.

(** ** Transitions ([pipeline/transitions/base-transition.ts])

    [process] of a transition draws on the frame; what it decides is kept:
    whether the frame is left as it is, and otherwise with which alpha,
    offset or clipping rectangle it is drawn again. *)

Module BaseTransition.
Section Progress.
Context {num : Type} `{JSNumber num}.

Definition updateProgress (progress : num) : num :=
  Math_max (num_of_Z 0) (Math_min (num_of_Z 1) progress).
End Progress.
End BaseTransition.

Module FadeTransition.
Inductive FadeType : Type := fade_in | fade_out | fade_cross.

Section Fade.
Context {num : Type} `{JSNumber num}.

(** The frame is returned untouched, or it is cleared and, when [redrawn],
    drawn again with [globalAlpha = alpha]. *)
Inductive Outcome : Type :=
  | Untouched
  | Faded (alpha : num) (redrawn : bool).

Definition process (fadeType : FadeType) (progress : num) : Outcome :=
  let alpha :=
    match fadeType with
    | fade_in => progress
    | fade_out => nsub (num_of_Z 1) progress
    | fade_cross =>
        if nltb progress (ndiv (num_of_Z 1) (num_of_Z 2))
        then nsub (num_of_Z 1) (nmul progress (num_of_Z 2))
        else nmul (nsub progress (ndiv (num_of_Z 1) (num_of_Z 2))) (num_of_Z 2)
    end in
  if negb (neqb alpha (num_of_Z 1))
  then Faded alpha (match fadeType with fade_out => true | _ => false end
                    || ngtb alpha (num_of_Z 0))
  else Untouched.
End Fade.

Arguments Outcome : clear implicits.
End FadeTransition.

Module SlideTransition.
Inductive Direction : Type := slide_left | slide_right | slide_up | slide_down.

Section Slide.
Context {num : Type} `{JSNumber num}.

(** [None]: the frame is returned untouched; otherwise the offset at which
    the frame is drawn again on the cleared canvas. *)
Definition process (direction : Direction) (progress width height : num)
  : option (num * num) :=
  if neqb progress (num_of_Z 0) then None
  else
    Some match direction with
         | slide_left => (nmul (nmul (num_of_Z (-1)) width) progress, num_of_Z 0)
         | slide_right => (nmul width progress, num_of_Z 0)
         | slide_up => (num_of_Z 0, nmul (nmul (num_of_Z (-1)) height) progress)
         | slide_down => (num_of_Z 0, nmul height progress)
         end.
End Slide.
End SlideTransition.

Module WipeTransition.
Inductive Direction : Type := horizontal | vertical.

Section Wipe.
Context {num : Type} `{JSNumber num}.

(** [None]: the frame is returned untouched; otherwise the rectangle
    [(0, 0, w, h)] the frame is clipped to when it is drawn again. *)
Definition process (direction : Direction) (progress width height : num)
  : option (num * num) :=
  if neqb progress (num_of_Z 0) then None
  else
    Some match direction with
         | horizontal =>
             let wipeWidth := nmul width (nsub (num_of_Z 1) progress) in
             (wipeWidth, height)
         | vertical =>
             let wipeHeight := nmul height (nsub (num_of_Z 1) progress) in
             (width, wipeHeight)
         end.
End Wipe.
End WipeTransition.

(** ** The debug logger ([utils/debug-logger.ts])

    The logger is its entries and its listeners; a listener is the identity
    of a callback, and [notified] keeps the calls made to listeners, each with
    the copy of the entries it was given.  The wall-clock time of an entry
    and the printed arguments are given to [log]. *)

Module DebugLogger.
Record t : Type := {
  logs : list string;
  listeners : list nat;
  notified : list (nat * list string)
}.

Definition maxLogs : nat := 100.

Definition create : t := {| logs := []; listeners := []; notified := [] |}.

Definition notifyListeners (d : t) : t :=
  {| logs := logs d;
     listeners := listeners d;
     notified := notified d ++ map (fun listener => (listener, logs d)) (listeners d) |}.

(** The part of an entry made of the arguments. *)
Definition printed (args : list string) : string :=
  if (0 <? length args)%nat then " " +:+ String.concat " " args else "".

(** [this.logs.push(logEntry)], the cut to the last [maxLogs] entries, and
    the notification. *)
Definition push (logEntry : string) (d : t) : t :=
  let logs := logs d ++ [logEntry] in
  let logs :=
    if (maxLogs <? length logs)%nat then drop (length logs - maxLogs) logs else logs in
  notifyListeners {| logs := logs; listeners := listeners d; notified := notified d |}.

Definition log (timestamp message : string) (args : list string) (d : t) : t :=
  push ("[" +:+ timestamp +:+ "] " +:+ message +:+ printed args) d.

Definition error (timestamp message : string) (args : list string) (d : t) : t :=
  push ("[" +:+ timestamp +:+ "] ERROR: " +:+ message +:+ printed args) d.

Definition warn (timestamp message : string) (args : list string) (d : t) : t :=
  push ("[" +:+ timestamp +:+ "] WARN: " +:+ message +:+ printed args) d.

Definition getLogs (d : t) : list string := logs d.

Definition clear (d : t) : t :=
  notifyListeners {| logs := []; listeners := listeners d; notified := notified d |}.

Definition addListener (callback : nat) (d : t) : t :=
  {| logs := logs d; listeners := listeners d ++ [callback]; notified := notified d |}.

(** The function [addListener] returns. *)
Definition removeListener (callback : nat) (d : t) : t :=
  {| logs := logs d;
     listeners := List.filter (fun l => negb (l =? callback)%nat) (listeners d);
     notified := notified d |}.
End DebugLogger.

(** ** [OverlayElementRenderer]: patterns ([renderers/overlay-renderer.ts])

    What an overlay element adds to the base element, and the pattern
    functions as the rectangles they hand to [fillRect], in the order of the
    calls and in the coordinates of the element (the renderer has translated
    and rotated the context before). *)

Section OverlayPatterns.
Context {num : Type} `{JSNumber num}.

Record OverlayFields : Type := {
  overlay_x : num;
  overlay_y : num;
  overlay_width : num;
  overlay_height : num;
  overlay_rotation : num;
  overlay_source : option string
}.

Definition renderCheckerboardPattern (element : OverlayFields) : list (DrawnRect num) :=
  let squareSize := 20 in
  let startX := ndiv (nmul (num_of_Z (-1)) (overlay_width element)) (num_of_Z 2) in
  let startY := ndiv (nmul (num_of_Z (-1)) (overlay_height element)) (num_of_Z 2) in
  let cols := Math_ceil (ndiv (overlay_width element) (num_of_Z squareSize)) in
  let rows := Math_ceil (ndiv (overlay_height element) (num_of_Z squareSize)) in
  foldl (fun filled col =>
           foldl (fun filled row =>
                    if Z.rem (col + row) 2 =? 0
                    then filled
                         ++ [ {| rect_x := nadd startX (num_of_Z (col * squareSize));
                                 rect_y := nadd startY (num_of_Z (row * squareSize));
                                 rect_w := num_of_Z squareSize;
                                 rect_h := num_of_Z squareSize |} ]
                    else filled)
                 filled (seqZ 0 rows))
        [] (seqZ 0 cols).
End OverlayPatterns.

Arguments OverlayFields : clear implicits.

(** ** What the transformation keeps

    [exported] is what [element] is turned into: the identity and timing
    are copied; a media element takes its type, file and URL from the first
    media item that carries its [mediaId]; a text element keeps its content
    and opacity. *)
Definition exported_from {num} (mediaItems : list OpenCutMediaItem)
    (element : OpenCutTimelineElement num) (exported : ExportElement num) : Prop :=
  el_id exported = oc_id element
  /\ el_name exported = oc_name element
  /\ startTime exported = oc_startTime element
  /\ duration exported = oc_duration element
  /\ trimStart exported = oc_trimStart element
  /\ trimEnd exported = oc_trimEnd element
  /\ match oc_kind element with
     | OpenCutMedia element_mediaId =>
         exists before mediaItem after,
           mediaItems = before ++ mediaItem :: after
           /\ Forall (fun item => item_id item <> element_mediaId) before
           /\ item_id mediaItem = element_mediaId
           /\ payload exported
              = MediaPayload {| mediaId := element_mediaId;
                                mediaType := item_type mediaItem;
                                file := item_file mediaItem;
                                url := item_url mediaItem |}
     | OpenCutText element_content element_opacity =>
         payload exported = TextPayload element_content
         /\ opacity exported = Some element_opacity
     | OpenCutOther => False
     end.

(** The frame count [export()] computes. *)
Definition totalFramesOf {num} `{JSNumber num} (timelineData : TimelineExportData num)
    (settings : ExportSettings num) : Z :=
  Math_ceil (nmul (timeline_duration timelineData) (fps settings)).

(** The messages the callbacks' [onError] was called with. *)
Definition errors_reported {num} (calls : list (Callback num)) : list string :=
  omap (fun call => match call with onError message => Some message | _ => None end)
       calls.

(** A project with one media element whose media item is gone. *)
Definition orphan_project : list (OpenCutTimelineTrack Q) :=
  [ {| oc_track_id := "t1"; oc_track_name := "Main"; oc_track_type := track_media;
       oc_elements := [ {| oc_id := "clip"; oc_name := "clip";
                           oc_startTime := 0%Q; oc_duration := 2%Q;
                           oc_trimStart := 0%Q; oc_trimEnd := 0%Q;
                           oc_kind := OpenCutMedia "gone" |} ];
       oc_muted := None |} ].

(** A project with a video clip trimmed to two seconds and a title over its
    second half, and its media item. *)
Definition small_project : list (OpenCutTimelineTrack Q) :=
  [ {| oc_track_id := "t0"; oc_track_name := "Titles"; oc_track_type := track_text;
       oc_elements := [ {| oc_id := "title"; oc_name := "title";
                           oc_startTime := 1%Q; oc_duration := 1%Q;
                           oc_trimStart := 0%Q; oc_trimEnd := 0%Q;
                           oc_kind := OpenCutText "HELLO" 1%Q |} ];
       oc_muted := None |};
    {| oc_track_id := "t1"; oc_track_name := "Main"; oc_track_type := track_media;
       oc_elements := [ {| oc_id := "clip"; oc_name := "clip";
                           oc_startTime := 0%Q; oc_duration := 3%Q;
                           oc_trimStart := (1 # 2)%Q; oc_trimEnd := (1 # 2)%Q;
                           oc_kind := OpenCutMedia "m1" |} ];
       oc_muted := Some false |} ].

Definition small_project_media : list OpenCutMediaItem :=
  [ {| item_id := "m1"; item_name := "clip.mp4"; item_type := media_video;
       item_file := None; item_url := Some "blob:clip" |} ].

Definition hd_project : ProjectSettings Q :=
  {| project_width := 1920%Q; project_height := 1080%Q; project_fps := 30%Q |}.

Definition no_options : OpenCutExportOptions Q :=
  {| options_fileName := None; options_resolution := None; options_fps := None;
     options_videoBitrate := None; options_audioBitrate := None;
     options_hardwareAcceleration := None;
     options_onProgress := true; options_onComplete := true;
     options_onError := true |}.

(** The parts [formatTime] prints for [h] hours, [m] minutes and [s]
    seconds: a part that is zero is left out, except the seconds when they
    would leave nothing. *)
Definition time_parts (h m s : Z) : list string :=
  (if 0 <? h then [pretty h +:+ "h"] else [])
  ++ (if 0 <? m then [pretty m +:+ "m"] else [])
  ++ (if (0 <? s) || ((h <=? 0) && (m <=? 0)) then [pretty s +:+ "s"] else []).

(** The sample [i] of the channel [c] of a buffer, when it is there. *)
Definition sampleAt {num} (audioBuffer : AudioBuffer num) (c i : Z) : option num :=
  channelData audioBuffer !! Z.to_nat c ≫= (fun data => data !! Z.to_nat i).

(** A stereo buffer of two sample frames; one sample lies outside [-1, 1]. *)
Definition two_frame_stereo : AudioBuffer Q :=
  {| buf_sampleRate := 48000%Q; buf_length := 2;
     channelData := [ [ (1 # 2)%Q; (-1)%Q ]; [ (3 # 2)%Q; (-1 # 4)%Q ] ] |}.

(** A timeline whose only clip is a video on an overlay track. *)
Definition video_on_overlay_track : TimelineExportData Q :=
  {| tracks := [ {| track_ref := 0; track_id := "o1"; track_name := "Overlay";
                    track_type := track_overlay;
                    elements := [video_element];
                    muted := false |} ];
     timeline_duration := 2%Q;
     timeline_settings := Some {| project_width := 1920%Q; project_height := 1080%Q;
                                  project_fps := 30%Q |} |}.

(** Two processors with the same id, on frames that are numbers: the first
    adds one, the second adds 100 and throws. *)
Definition increment_processor : RenderPipeline.PipelineProcessor Z Q :=
  {| RenderPipeline.proc_ref := 0; RenderPipeline.proc_id := "fx";
     RenderPipeline.proc_name := "Increment";
     RenderPipeline.proc_type := Some "effect";
     RenderPipeline.proc_process := fun frame _ _ => RenderPipeline.Resolved (frame + 1);
     RenderPipeline.proc_dispose := true |}.

Definition throwing_processor : RenderPipeline.PipelineProcessor Z Q :=
  {| RenderPipeline.proc_ref := 1; RenderPipeline.proc_id := "fx";
     RenderPipeline.proc_name := "Broken";
     RenderPipeline.proc_type := Some "effect";
     RenderPipeline.proc_process :=
       fun frame _ _ => RenderPipeline.Rejected (frame + 100);
     RenderPipeline.proc_dispose := false |}.

Definition doubling_processor : RenderPipeline.PipelineProcessor Z Q :=
  {| RenderPipeline.proc_ref := 2; RenderPipeline.proc_id := "double";
     RenderPipeline.proc_name := "Double";
     RenderPipeline.proc_type := Some "transition";
     RenderPipeline.proc_process := fun frame _ _ => RenderPipeline.Resolved (frame * 2);
     RenderPipeline.proc_dispose := true |}.

Definition three_processor_pipeline : RenderPipeline.t Z Q :=
  RenderPipeline.addProcessor doubling_processor
    (RenderPipeline.addProcessor throwing_processor
       (RenderPipeline.addProcessor increment_processor
          (RenderPipeline.create getDefaultSettings))).

(** The pipeline [p] with other processors. *)
Definition pipeline_of {Frame num} (p : RenderPipeline.t Frame num)
    (l : list (RenderPipeline.PipelineProcessor Frame num)) : RenderPipeline.t Frame num :=
  {| RenderPipeline.processors := l;
     RenderPipeline.settings := RenderPipeline.settings p;
     RenderPipeline.disposed := RenderPipeline.disposed p |}.

(** ** The calls made to a logger

    [log], [error], [warn] and [clear], as a caller issues them one after
    the other, and the entries the log should hold afterwards: those written
    since the last [clear]. *)
Inductive LoggerCall : Type :=
  | CallLog (timestamp message : string) (args : list string)
  | CallError (timestamp message : string) (args : list string)
  | CallWarn (timestamp message : string) (args : list string)
  | CallClear.

Definition logger_call (d : DebugLogger.t) (call : LoggerCall) : DebugLogger.t :=
  match call with
  | CallLog timestamp message args => DebugLogger.log timestamp message args d
  | CallError timestamp message args => DebugLogger.error timestamp message args d
  | CallWarn timestamp message args => DebugLogger.warn timestamp message args d
  | CallClear => DebugLogger.clear d
  end.

Definition written_since_clear (written : list string) (call : LoggerCall)
  : list string :=
  match call with
  | CallLog timestamp message args =>
      written ++ ["[" +:+ timestamp +:+ "] " +:+ message +:+ DebugLogger.printed args]
  | CallError timestamp message args =>
      written ++ ["[" +:+ timestamp +:+ "] ERROR: " +:+ message
                  +:+ DebugLogger.printed args]
  | CallWarn timestamp message args =>
      written ++ ["[" +:+ timestamp +:+ "] WARN: " +:+ message
                  +:+ DebugLogger.printed args]
  | CallClear => []
  end.

(** The last [n] elements of a list. *)
Definition last_n {A} (n : nat) (l : list A) : list A := drop (length l - n) l.

(** The alpha a fade is meant to have at a progress: the progress for a fade
    in, one less the progress for a fade out, and the distance of twice the
    progress from 1 for a cross fade. *)
Definition fade_alpha (fadeType : FadeTransition.FadeType) (progress : Q) : Q :=
  match fadeType with
  | FadeTransition.fade_in => progress
  | FadeTransition.fade_out => 1 - progress
  | FadeTransition.fade_cross => Qabs (1 - 2 * progress)
  end.

(** The square of the checkerboard in the column [col] and the row [row]. *)
Definition checkerboard_square (element : OverlayFields Q) (col row : Z) : DrawnRect Q :=
  {| rect_x := (-1 * overlay_width element / 2 + inject_Z (col * 20))%Q;
     rect_y := (-1 * overlay_height element / 2 + inject_Z (row * 20))%Q;
     rect_w := 20%Q;
     rect_h := 20%Q |}.

(** An overlay of 50 by 30 pixels. *)
Definition overlay_50_by_30 : OverlayFields Q :=
  {| overlay_x := 0%Q; overlay_y := 0%Q; overlay_width := 50%Q; overlay_height := 30%Q;
     overlay_rotation := 0%Q; overlay_source := Some "checkerboard" |}.

(** * Properties *)

(** ** The exact reading: comparisons as propositions *)

Lemma Qltb_lt (a b : Q) : Qltb a b = true <-> (a < b)%Q.
Proof.
  unfold Qltb. rewrite negb_true_iff. split.
  - intros Hb. apply Qnot_le_lt. intros Hle.
    apply Qle_bool_iff in Hle. congruence.
  - intros Hlt. destruct (Qle_bool b a) eqn:E; [|reflexivity].
    apply Qle_bool_iff in E. exfalso. exact (Qlt_not_le _ _ Hlt E).
Qed.

Lemma Qltb_ge (a b : Q) : Qltb a b = false <-> (b <= a)%Q.
Proof.
  unfold Qltb. rewrite negb_false_iff. apply Qle_bool_iff.
Qed.

Lemma Qleb_le (a b : Q) : Qle_bool a b = true <-> (a <= b)%Q.
Proof. apply Qle_bool_iff. Qed.

(** ** The laws of the two readings *)

(** *** Exact rationals *)

#[export] Instance ExactNumberLaws : JSNumberLaws Q.
Proof.
  split; cbn [nltb nleb neqb nadd num_of_Z Math_fround ExactNumber].
  - intros x. apply Qltb_ge, Qle_refl.
  - intros a b c Hab Hbc. apply Qltb_lt.
    apply Qltb_lt in Hab. apply Qleb_le in Hbc. eapply Qlt_le_trans; eassumption.
  - intros a b _. apply Qleb_le, Qle_refl.
  - intros a b _. split; apply Qeq_bool_iff; reflexivity.
  - intros a b _ _ Hab. apply Qleb_le. apply Qltb_ge in Hab. exact Hab.
  - repeat split; reflexivity.
  - intros o s _ _ _. apply Qeq_bool_iff. reflexivity.
Qed.

(** *** Binary64: the comparison of the standard

    The kernel's comparisons are those of [SFcompare] on the numbers as
    sign, mantissa and exponent. *)

Lemma SFcompare_refl (s : spec_float) : s <> S754_nan -> SFcompare s s = Some Eq.
Proof.
  destruct s as [[]|[]| |[] m e]; intros Hn; try reflexivity; try congruence;
    cbn [SFcompare]; rewrite Z.compare_refl;
    change (Pos.compare_cont Eq m m) with (Pos.compare m m);
    rewrite Pos.compare_refl; reflexivity.
Qed.

Lemma SFcompare_defined (a b : spec_float) :
  a <> S754_nan -> b <> S754_nan -> exists c, SFcompare a b = Some c.
Proof.
  destruct a as [?|?| |? ? ?], b as [?|?| |? ? ?]; intros Ha Hb;
    try congruence; cbn [SFcompare]; eexists; reflexivity.
Qed.

Lemma SFcompare_not_nan (a b : spec_float) (c : comparison) :
  SFcompare a b = Some c -> a <> S754_nan /\ b <> S754_nan.
Proof.
  destruct a as [?|?| |? ? ?], b as [?|?| |? ? ?]; cbn [SFcompare];
    intros Hc; split; congruence.
Qed.

Lemma SFcompare_antisym (a b : spec_float) :
  SFcompare b a = option_map CompOpp (SFcompare a b).
Proof.
  destruct a as [[]|[]| |[] ma ea], b as [[]|[]| |[] mb eb]; try reflexivity;
    cbn [SFcompare option_map]; f_equal;
    rewrite (Z.compare_antisym ea eb);
    change (Pos.compare_cont Eq mb ma) with (Pos.compare mb ma);
    change (Pos.compare_cont Eq ma mb) with (Pos.compare ma mb);
    rewrite (Pos.compare_antisym ma mb);
    destruct (ea ?= eb); cbn [CompOpp]; try reflexivity;
    destruct (ma ?= mb)%positive; reflexivity.
Qed.

Lemma SFltb_SFleb_trans (a b c : spec_float) :
  SFltb a b = true -> SFleb b c = true -> SFltb a c = true.
Proof.
  unfold SFltb, SFleb.
  destruct a as [[]|[]| |[] ma ea], b as [[]|[]| |[] mb eb], c as [[]|[]| |[] mc ec];
    cbn [SFcompare]; try discriminate; try reflexivity;
    change (Pos.compare_cont Eq ma mb) with (Pos.compare ma mb);
    change (Pos.compare_cont Eq mb mc) with (Pos.compare mb mc);
    change (Pos.compare_cont Eq ma mc) with (Pos.compare ma mc);
    destruct (Z.compare_spec ea eb), (Z.compare_spec eb ec), (Z.compare_spec ea ec);
    try discriminate; try reflexivity; try lia;
    destruct (Pos.compare_spec ma mb), (Pos.compare_spec mb mc), (Pos.compare_spec ma mc);
    cbn [CompOpp]; try discriminate; try reflexivity; lia.
Qed.

(** A number is NaN exactly when it differs from itself. *)
Lemma float_eqb_refl (x : float) : PrimFloat.eqb x x = true <-> Prim2SF x <> S754_nan.
Proof.
  rewrite FloatAxioms.eqb_spec. unfold SFeqb. split.
  - intros Hx Hn. rewrite Hn in Hx. discriminate.
  - intros Hn. rewrite SFcompare_refl by exact Hn. reflexivity.
Qed.

Lemma float_leb_not_nan (a b : float) :
  PrimFloat.leb a b = true -> Prim2SF a <> S754_nan /\ Prim2SF b <> S754_nan.
Proof.
  rewrite FloatAxioms.leb_spec. unfold SFleb.
  destruct (SFcompare (Prim2SF a) (Prim2SF b)) as [c|] eqn:E; [|discriminate].
  intros _. exact (SFcompare_not_nan _ _ _ E).
Qed.

(** *** Binary64: rounding never makes a NaN

    The rounding of the standard ends in a case distinction on the sign of
    the shifted mantissa, whose negative case is NaN; the mantissa it is
    given is never negative. *)

Lemma shr_1_nonneg (mrs : shr_record) : 0 <= shr_m mrs -> 0 <= shr_m (shr_1 mrs).
Proof.
  destruct mrs as [m r s]. cbn [shr_m]. intros Hm.
  destruct m as [|p|p]; [cbn; lia| |lia].
  destruct p; cbn; lia.
Qed.

Lemma iter_pos_invariant {A} (f : A -> A) (Inv : A -> Prop) :
  (forall x, Inv x -> Inv (f x)) ->
  forall (n : positive) (x : A), Inv x -> Inv (SpecFloat.iter_pos f n x).
Proof.
  intros Hf. induction n as [n IH|n IH|]; intros x Hx; cbn [SpecFloat.iter_pos].
  - apply IH, IH, Hf, Hx.
  - apply IH, IH, Hx.
  - apply Hf, Hx.
Qed.

Lemma shr_nonneg (mrs : shr_record) (e n : Z) :
  0 <= shr_m mrs -> 0 <= shr_m (fst (shr mrs e n)).
Proof.
  intros Hm. unfold shr. destruct n as [|p|p]; cbn [fst]; try exact Hm.
  apply (iter_pos_invariant shr_1 (fun mrs => 0 <= shr_m mrs));
    [apply shr_1_nonneg|exact Hm].
Qed.

Lemma shr_fexp_nonneg (prec emax m e : Z) (l : location) :
  0 <= m -> 0 <= shr_m (fst (shr_fexp prec emax m e l)).
Proof.
  intros Hm. unfold shr_fexp. apply shr_nonneg.
  destruct l as [|[]]; exact Hm.
Qed.

Lemma round_nearest_even_nonneg (m : Z) (l : location) :
  0 <= m -> 0 <= round_nearest_even m l.
Proof.
  intros Hm. destruct l as [|[]]; cbn [round_nearest_even]; try lia.
  destruct (Z.even m); lia.
Qed.

Lemma binary_round_aux_not_nan (prec emax : Z) (sx : bool) (mx ex : Z) (lx : location) :
  0 <= mx -> binary_round_aux prec emax sx mx ex lx <> S754_nan.
Proof.
  intros Hm. unfold binary_round_aux.
  pose proof (shr_fexp_nonneg prec emax mx ex lx Hm) as H1.
  destruct (shr_fexp prec emax mx ex lx) as [mrs' e']. cbn [fst] in H1.
  pose proof (shr_fexp_nonneg prec emax
                (round_nearest_even (shr_m mrs') (loc_of_shr_record mrs')) e' loc_Exact
                (round_nearest_even_nonneg _ _ H1)) as H2.
  destruct (shr_fexp prec emax _ e' loc_Exact) as [mrs'' e'']. cbn [fst] in H2.
  destruct (shr_m mrs'') as [|p|p]; [discriminate| |lia].
  destruct (e'' <=? emax - prec); discriminate.
Qed.

Lemma binary_round_not_nan (prec emax : Z) (sx : bool) (mx : positive) (ex : Z) :
  binary_round prec emax sx mx ex <> S754_nan.
Proof.
  unfold binary_round. destruct (shl_align _ _ _) as [mz ez].
  apply binary_round_aux_not_nan. lia.
Qed.

Lemma binary_normalize_not_nan (prec emax m e : Z) (szero : bool) :
  binary_normalize prec emax m e szero <> S754_nan.
Proof.
  destruct m; cbn [binary_normalize]; [discriminate| |]; apply binary_round_not_nan.
Qed.

Lemma SFldexp_not_nan (prec emax : Z) (f : spec_float) (e : Z) :
  f <> S754_nan -> SFldexp prec emax f e <> S754_nan.
Proof.
  destruct f; cbn [SFldexp]; try (intros; assumption).
  intros _. apply binary_round_not_nan.
Qed.

Lemma SFopp_not_nan (f : spec_float) : f <> S754_nan -> SFopp f <> S754_nan.
Proof. destruct f; cbn; congruence. Qed.

Lemma SF2Prim_not_nan (y : spec_float) :
  y <> S754_nan -> Prim2SF (SF2Prim y) <> S754_nan.
Proof.
  intros Hy. destruct y as [[]|[]| |s m e]; try (vm_compute; discriminate); [congruence|].
  unfold SF2Prim.
  assert (Hf : Prim2SF (Z.ldexp (of_uint63 (Uint63.of_Z (Z.pos m))) e) <> S754_nan).
  { unfold Z.ldexp. rewrite FloatAxioms.ldshiftexp_spec. apply SFldexp_not_nan.
    rewrite FloatAxioms.of_uint63_spec. apply binary_normalize_not_nan. }
  destruct s; [|exact Hf].
  rewrite FloatAxioms.opp_spec. apply SFopp_not_nan, Hf.
Qed.

Lemma float_fround_not_nan (x : float) :
  Prim2SF x <> S754_nan -> Prim2SF (float_fround x) <> S754_nan.
Proof.
  intros Hx. unfold float_fround.
  destruct (Prim2SF x) as [s|s| |s m e] eqn:E; try (rewrite E; discriminate);
    [congruence|].
  apply SF2Prim_not_nan, binary_round_not_nan.
Qed.

(** The sum of a finite number and a number that is not NaN is not NaN. *)
Lemma SFadd_not_nan (prec emax : Z) (a b : spec_float) :
  (forall s, a <> S754_infinity s) -> a <> S754_nan -> b <> S754_nan ->
  SFadd prec emax a b <> S754_nan.
Proof.
  intros Hinf Ha Hb.
  destruct a as [sa|sa| |sa ma ea]; [| exfalso; exact (Hinf sa eq_refl) | congruence |].
  - destruct b as [sb|sb| |sb mb eb]; cbn [SFadd]; try discriminate; [|congruence].
    destruct sa, sb; discriminate.
  - destruct b as [sb|sb| |sb mb eb]; cbn [SFadd]; try discriminate; [congruence|].
    apply binary_normalize_not_nan.
Qed.

(** What lies between two finite numbers is finite. *)
Lemma SFleb_between_finite (x : spec_float) (sl sh : bool) (ml mh : positive) (el eh : Z) :
  SFleb (S754_finite sl ml el) x = true -> SFleb x (S754_finite sh mh eh) = true ->
  x <> S754_nan /\ forall s, x <> S754_infinity s.
Proof.
  unfold SFleb.
  destruct x as [s|[]| |s m e]; cbn [SFcompare]; intros H1 H2; split; try discriminate;
    try (intros []; discriminate); try (destruct sl; discriminate);
    try (destruct sh; discriminate).
Qed.

#[export] Instance Binary64Laws : JSNumberLaws float.
Proof.
  split; cbn [nltb nleb neqb nadd Math_fround Binary64].
  - intros x. rewrite FloatAxioms.ltb_spec. unfold SFltb.
    destruct (Prim2SF x) as [[]|[]| |[] m e] eqn:E; try reflexivity;
      rewrite SFcompare_refl by discriminate; reflexivity.
  - intros a b c. rewrite !FloatAxioms.ltb_spec, FloatAxioms.leb_spec. apply SFltb_SFleb_trans.
  - intros a b. rewrite FloatAxioms.ltb_spec, FloatAxioms.leb_spec. unfold SFltb, SFleb.
    destruct (SFcompare (Prim2SF a) (Prim2SF b)) as [c|] eqn:E; [|discriminate].
    intros _. apply SFcompare_not_nan in E.
    rewrite SFcompare_refl by tauto. reflexivity.
  - intros a b Hab. apply float_leb_not_nan in Hab.
    split; apply float_eqb_refl; tauto.
  - intros a b Ha Hb. apply float_eqb_refl in Ha. apply float_eqb_refl in Hb.
    rewrite FloatAxioms.ltb_spec, FloatAxioms.leb_spec. unfold SFltb, SFleb.
    rewrite (SFcompare_antisym (Prim2SF a) (Prim2SF b)).
    destruct (SFcompare_defined _ _ Ha Hb) as [c ->].
    destruct c; cbn; congruence.
  - vm_compute. repeat split; reflexivity.
  - intros o s Hlo Hhi Hs. apply float_eqb_refl in Hs. apply float_eqb_refl.
    apply float_fround_not_nan. rewrite FloatAxioms.add_spec.
    rewrite FloatAxioms.leb_spec in Hlo, Hhi.
    assert (Hm1 : Prim2SF (num_of_Z (num:=float) (-1))
                  = S754_finite true 4503599627370496 (-52))
      by (vm_compute; reflexivity).
    assert (Hp1 : Prim2SF (num_of_Z (num:=float) 1)
                  = S754_finite false 4503599627370496 (-52))
      by (vm_compute; reflexivity).
    rewrite Hm1 in Hlo. rewrite Hp1 in Hhi.
    destruct (SFleb_between_finite _ _ _ _ _ _ _ Hlo Hhi) as [Hnan Hinf].
    apply SFadd_not_nan; assumption.
Qed.

(** ** Frame renderer: the active set *)

Section ActiveSet.
Context {num : Type} `{JSNumber num}.

Lemma pushActiveOfTrack_filter (timestamp : num) (track : ExportTrack num)
    (acc : list (ExportElement num * ExportTrack num)) :
  pushActiveOfTrack timestamp track acc
  = acc ++ map (fun e => (e, track))
               (List.filter (fun e => isElementActive e timestamp) (elements track)).
Proof.
  unfold pushActiveOfTrack. generalize (elements track) as l. intros l.
  revert acc. induction l as [|e l IH]; intros acc; simpl.
  - symmetry. apply app_nil_r.
  - rewrite IH. unfold isElementActive at 2.
    destruct (ngeb timestamp (startTime e) && _); simpl.
    + rewrite <- app_assoc. reflexivity.
    + reflexivity.
Qed.

(** The two nested loops collect, track by track, the elements that
    [isElementActive] accepts. *)
Lemma getActiveElementsAtTime_flat_map (timelineData : TimelineExportData num)
    (timestamp : num) :
  getActiveElementsAtTime timelineData timestamp
  = flat_map (fun track =>
                map (fun e => (e, track))
                    (List.filter (fun e => isElementActive e timestamp) (elements track)))
             (tracks timelineData).
Proof.
  unfold getActiveElementsAtTime.
  rewrite <- (app_nil_l (flat_map _ _)).
  generalize (@nil (ExportElement num * ExportTrack num)) as acc.
  induction (tracks timelineData) as [|track l IH]; intros acc; simpl.
  - symmetry. apply app_nil_r.
  - rewrite IH, pushActiveOfTrack_filter, <- app_assoc. reflexivity.
Qed.

Lemma getActiveElementsAtTime_In (timelineData : TimelineExportData num)
    (timestamp : num) (e : ExportElement num) (tr : ExportTrack num) :
  In (e, tr) (getActiveElementsAtTime timelineData timestamp)
  <-> In tr (tracks timelineData) /\ In e (elements tr)
      /\ isElementActive e timestamp = true.
Proof.
  rewrite getActiveElementsAtTime_flat_map, in_flat_map. split.
  - intros (track & Htrack & Hin). apply in_map_iff in Hin.
    destruct Hin as (e' & Heq & Hin). inversion Heq; subst.
    apply filter_In in Hin. tauto.
  - intros (Htr & He & Hact). exists tr. split; [exact Htr|].
    apply in_map_iff. exists e. split; [reflexivity|].
    apply filter_In. tauto.
Qed.
End ActiveSet.

Lemma isElementActive_test {num : Type} `{JSNumber num} (e : ExportElement num) (t : num) :
  isElementActive e t = true
  <-> nleb (startTime e) t = true /\ nltb t (elementEndTime e) = true.
Proof.
  unfold isElementActive, ngeb, elementEndTime. apply andb_true_iff.
Qed.

(** C3.  An element is in the active set of a timestamp exactly when the
    timestamp lies in the half-open interval
    [startTime, startTime + duration - trimStart - trimEnd), by the
    program's own sum and comparisons; the renderers' own test
    [isElementActive] is the same condition; the start of a non-empty
    interval is active and the end of the interval never is.  This holds of
    the doubles as of the rationals: the end is the number the sum gives. *)
Theorem active_set_is_half_open_interval {num : Type} `{JSNumberLaws num}
    (timelineData : TimelineExportData num) (t : num)
    (e : ExportElement num) (tr : ExportTrack num) :
  (In (e, tr) (getActiveElementsAtTime timelineData t)
   <-> In tr (tracks timelineData) /\ In e (elements tr)
       /\ nleb (startTime e) t = true /\ nltb t (elementEndTime e) = true)
  /\ (isElementActive e t = true
      <-> nleb (startTime e) t = true /\ nltb t (elementEndTime e) = true)
  /\ (isElementActive e (startTime e) = true
      <-> nltb (startTime e) (elementEndTime e) = true)
  /\ isElementActive e (elementEndTime e) = false.
Proof.
  split; [|split; [|split]].
  - rewrite getActiveElementsAtTime_In, isElementActive_test. reflexivity.
  - apply isElementActive_test.
  - rewrite isElementActive_test. split.
    + intros [_ Hlt]. exact Hlt.
    + intros Hlt. split; [|exact Hlt]. exact (nltb_nleb_refl _ _ Hlt).
  - apply not_true_is_false. rewrite isElementActive_test.
    intros [_ Hlt]. rewrite nltb_irrefl in Hlt. discriminate.
Qed.

(** C3 on binary64: a clip that starts at 1/30 s and lasts 3/30 s is active
    at its start and is not active at 4/30 s, the timestamp of frame 4 at
    30 fps, which is the end the program computes. *)
Lemma short_clip_is_active_at_its_start_and_not_at_frame_4 :
  isElementActive short_clip (1 / 30)%float = true
  /\ elementEndTime short_clip = (4 / 30)%float
  /\ isElementActive short_clip (4 / 30)%float = false.
Proof.
  destruct (active_set_is_half_open_interval short_clip_timeline (1 / 30)%float
              short_clip short_clip_track)
    as (_ & _ & Hstart & Hend).
  split; [apply Hstart; vm_compute; reflexivity|].
  split; [vm_compute; reflexivity|].
  replace (4 / 30)%float with (elementEndTime short_clip) by (vm_compute; reflexivity).
  exact Hend.
Defined.

(** ** Frame renderer: the render order *)

Section ArraySortFacts.
Context {A : Type} (cmp : A -> A -> Z).

Hypothesis cmp_total : forall a b, cmp_le cmp a b \/ cmp_le cmp b a.
Hypothesis cmp_trans : forall a b c, cmp_le cmp a b -> cmp_le cmp b c -> cmp_le cmp a c.

Lemma sort_insert_perm (x : A) (l : list A) : Permutation (sort_insert cmp x l) (x :: l).
Proof.
  induction l as [|y l IH]; simpl.
  - reflexivity.
  - destruct (cmp x y <=? 0).
    + reflexivity.
    + rewrite IH. apply perm_swap.
Qed.

Lemma Array_sort_perm (l : list A) : Permutation (Array_sort cmp l) l.
Proof.
  induction l as [|x l IH]; simpl.
  - reflexivity.
  - rewrite sort_insert_perm. constructor. exact IH.
Qed.

Lemma sort_insert_sorted (x : A) (l : list A) :
  StronglySorted (cmp_le cmp) l -> StronglySorted (cmp_le cmp) (sort_insert cmp x l).
Proof.
  induction 1 as [|y l Hs IH Hall]; simpl.
  - repeat constructor.
  - destruct (cmp x y <=? 0) eqn:E.
    + apply Z.leb_le in E. constructor.
      * constructor; assumption.
      * constructor; [exact E|].
        eapply Forall_impl; [exact Hall|].
        intros z Hz. exact (cmp_trans x y z E Hz).
    + apply Z.leb_gt in E. constructor; [exact IH|].
      rewrite sort_insert_perm. constructor; [|exact Hall].
      destruct (cmp_total x y) as [Hxy|Hyx]; [unfold cmp_le in Hxy; lia | exact Hyx].
Qed.

Lemma Array_sort_sorted (l : list A) : StronglySorted (cmp_le cmp) (Array_sort cmp l).
Proof.
  induction l as [|x l IH]; simpl.
  - constructor.
  - apply sort_insert_sorted. exact IH.
Qed.

(** Stability, class by class: a class [P] whose members in the list never
    compare above one another goes through the sort in its original order. *)
Lemma sort_insert_filter (P : A -> bool) (x : A) (l : list A) :
  (forall b, In b l -> P x = true -> P b = true -> cmp_le cmp x b) ->
  List.filter P (sort_insert cmp x l) = List.filter P (x :: l).
Proof.
  intros Hclass. induction l as [|y l IH]; simpl.
  - reflexivity.
  - destruct (cmp x y <=? 0) eqn:E.
    + reflexivity.
    + apply Z.leb_gt in E. simpl. rewrite IH.
      * simpl. pose proof (Hclass y (or_introl eq_refl)) as Hy.
        destruct (P x), (P y); try reflexivity.
        specialize (Hy eq_refl eq_refl). unfold cmp_le in Hy. lia.
      * intros b Hb. apply Hclass. right. exact Hb.
Qed.

Lemma Array_sort_filter (P : A -> bool) (l : list A) :
  (forall a b, In a l -> In b l -> P a = true -> P b = true -> cmp_le cmp a b) ->
  List.filter P (Array_sort cmp l) = List.filter P l.
Proof.
  induction l as [|x l IH]; intros Hclass; simpl.
  - reflexivity.
  - rewrite sort_insert_filter.
    + simpl. rewrite IH; [reflexivity|].
      intros a b Ha Hb. apply Hclass; right; assumption.
    + intros b Hb. apply Hclass; [left; reflexivity|right].
      apply list_elem_of_In. rewrite <- (Array_sort_perm l).
      apply list_elem_of_In. exact Hb.
Qed.
End ArraySortFacts.

Lemma StronglySorted_lookup {A} (R : A -> A -> Prop) (l : list A) (i j : nat) (a b : A) :
  StronglySorted R l -> (i < j)%nat -> l !! i = Some a -> l !! j = Some b -> R a b.
Proof.
  intros Hs. revert i j. induction Hs as [|x l Hs IH Hall]; intros i j Hij Ha Hb.
  - discriminate.
  - destruct j as [|j]; [lia|]. destruct i as [|i]; simpl in *.
    + inversion Ha; subst. rewrite Forall_forall in Hall. apply Hall.
      eapply list_elem_of_lookup_2. exact Hb.
    + eapply IH; [|exact Ha|exact Hb]. lia.
Qed.

Section RenderOrder.
Context {num : Type} `{JSNumber num}.
Implicit Types (a b c : ExportElement num * ExportTrack num).

Lemma renderOrderCompare_le timelineData a b :
  cmp_le (renderOrderCompare timelineData) a b <-> render_le timelineData a b.
Proof.
  unfold cmp_le, render_le, renderOrderCompare, onTextTrack, trackIndex.
  destruct (is_text_track (track_type (snd a))), (is_text_track (track_type (snd b)));
    simpl; split; intros Hc;
    try (right; split; [reflexivity|lia]);
    try lia;
    try (left; split; reflexivity);
    try (destruct Hc as [[? ?]|[? ?]]; solve [discriminate | lia]).
Qed.

Lemma renderOrderCompare_total timelineData a b :
  cmp_le (renderOrderCompare timelineData) a b
  \/ cmp_le (renderOrderCompare timelineData) b a.
Proof.
  unfold cmp_le, renderOrderCompare.
  destruct (is_text_track (track_type (snd a))), (is_text_track (track_type (snd b)));
    simpl; lia.
Qed.

Lemma renderOrderCompare_trans timelineData a b c :
  cmp_le (renderOrderCompare timelineData) a b ->
  cmp_le (renderOrderCompare timelineData) b c ->
  cmp_le (renderOrderCompare timelineData) a c.
Proof.
  unfold cmp_le, renderOrderCompare.
  destruct (is_text_track (track_type (snd a))), (is_text_track (track_type (snd b))),
    (is_text_track (track_type (snd c))); simpl; lia.
Qed.

Lemma render_tie_class timelineData p a b :
  render_tie timelineData p a = true -> render_tie timelineData p b = true ->
  cmp_le (renderOrderCompare timelineData) a b.
Proof.
  unfold render_tie, cmp_le, renderOrderCompare. rewrite !Z.eqb_eq.
  destruct (is_text_track (track_type (snd a))), (is_text_track (track_type (snd b))),
    (is_text_track (track_type (snd p))); simpl; lia.
Qed.

Lemma indexOf_from_ref (i : Z) (l : list (ExportTrack num)) (t t' : ExportTrack num) :
  track_ref t = track_ref t' -> indexOf_from i l t = indexOf_from i l t'.
Proof.
  intros Href. revert i. induction l as [|x l IH]; intros i; simpl.
  - reflexivity.
  - rewrite Href. destruct (Nat.eqb _ _); [reflexivity|apply IH].
Qed.
End RenderOrder.

(** C5.  Sorting the active set gives the one order fixed by (track-kind
    priority, track index, original position): the result is a permutation of
    the active set; of two entries the earlier one never has the larger key,
    so no element of a text track is drawn before an element of another
    track, and within one kind the lower track index is drawn first; entries
    that tie keep their original relative order, and so do the entries of one
    track object. *)
Theorem render_order_is_stable_sort_by_kind_then_track
    {num : Type} `{JSNumber num}
    (timelineData : TimelineExportData num)
    (active : list (ExportElement num * ExportTrack num)) :
  Permutation (sortElementsByRenderOrder timelineData active) active
  /\ (forall i j a b,
        (i < j)%nat ->
        sortElementsByRenderOrder timelineData active !! i = Some a ->
        sortElementsByRenderOrder timelineData active !! j = Some b ->
        render_le timelineData a b
        /\ (onTextTrack a = true -> onTextTrack b = true)
        /\ (onTextTrack a = onTextTrack b ->
            trackIndex timelineData a <= trackIndex timelineData b))
  /\ (forall p,
        List.filter (render_tie timelineData p)
                    (sortElementsByRenderOrder timelineData active)
        = List.filter (render_tie timelineData p) active)
  /\ (forall r : nat,
        (forall a b, In a active -> In b active ->
                     track_ref (snd a) = r -> track_ref (snd b) = r ->
                     track_type (snd a) = track_type (snd b)) ->
        List.filter (fun a => Nat.eqb (track_ref (snd a)) r)
                    (sortElementsByRenderOrder timelineData active)
        = List.filter (fun a => Nat.eqb (track_ref (snd a)) r) active).
Proof.
  unfold sortElementsByRenderOrder. split; [|split; [|split]].
  - apply Array_sort_perm.
  - intros i j a b Hij Ha Hb.
    assert (Hle : render_le timelineData a b).
    { apply renderOrderCompare_le.
      eapply StronglySorted_lookup; [|exact Hij|exact Ha|exact Hb].
      apply Array_sort_sorted.
      - apply renderOrderCompare_total.
      - apply renderOrderCompare_trans. }
    split; [exact Hle|]. destruct Hle as [[Hna Htb]|[Heq Hidx]]; split.
    + intros _. exact Htb.
    + intros Heq. congruence.
    + intros Hta. congruence.
    + intros _. exact Hidx.
  - intros p. apply Array_sort_filter.
    intros a b _ _. apply render_tie_class.
  - intros r Hobj. apply Array_sort_filter.
    intros a b Ha Hb Hra Hrb.
    apply Nat.eqb_eq in Hra. apply Nat.eqb_eq in Hrb.
    unfold cmp_le, renderOrderCompare.
    rewrite (Hobj a b Ha Hb Hra Hrb).
    unfold indexOf.
    rewrite (indexOf_from_ref 0 (tracks timelineData) (snd a) (snd b)) by congruence.
    destruct (is_text_track (track_type (snd b))); simpl; lia.
Qed.

(** C5 at an instance: in [titled_timeline] the title's track comes first,
    and the title, on a text track, is drawn after the video. *)
Lemma title_is_drawn_after_the_video :
  sortElementsByRenderOrder titled_timeline
    [(title_element, title_track); (video_element, video_track)]
  = [(video_element, video_track); (title_element, title_track)]
  /\ render_le titled_timeline (video_element, video_track) (title_element, title_track).
Proof.
  split; [reflexivity|].
  destruct (render_order_is_stable_sort_by_kind_then_track titled_timeline
              [(title_element, title_track); (video_element, video_track)])
    as (_ & Hsorted & _).
  refine (proj1 (Hsorted 0%nat 1%nat _ _ _ _ _)).
  - repeat constructor.
  - reflexivity.
  - reflexivity.
Defined.

(** ** Timeline validator *)

Section Validator.
Context {num : Type} `{JSNumber num}.

Lemma validateElement_app (track : ExportTrack num) (errors : list string)
    (element : ExportElement num) :
  validateElement track errors element = errors ++ validateElement track [] element.
Proof.
  unfold validateElement.
  destruct (str_falsy (el_id element) || _ || _); destruct (payload element) as [m|c|?| |?];
    repeat match goal with
           | |- context [if ?b then _ else _] => destruct b
           end;
    rewrite ?app_nil_l, ?app_nil_r, <- ?app_assoc; reflexivity.
Qed.

Lemma validateElement_nil_iff (track : ExportTrack num) (element : ExportElement num) :
  validateElement track [] element = [] <-> element_offends element = false.
Proof.
  unfold validateElement, element_offends.
  destruct (str_falsy (el_id element) || _ || _); destruct (payload element) as [m|c|?| |?];
    simpl;
    repeat match goal with
           | |- context [if ?b then _ else _] => destruct b
           end;
    simpl; split; intros Hx; try reflexivity; try discriminate.
Qed.

Lemma foldl_validateElement (track : ExportTrack num) (l : list (ExportElement num))
    (errors : list string) :
  foldl (validateElement track) errors l
  = errors ++ flat_map (validateElement track []) l.
Proof.
  revert errors. induction l as [|e l IH]; intros errors; simpl.
  - symmetry. apply app_nil_r.
  - rewrite IH, validateElement_app, <- app_assoc. reflexivity.
Qed.

Lemma flat_map_nil_iff {A B} (f : A -> list B) (l : list A) :
  flat_map f l = [] <-> forall x, In x l -> f x = [].
Proof.
  induction l as [|x l IH]; simpl.
  - split; [intros _ y []|reflexivity].
  - split.
    + intros Happ. apply app_eq_nil in Happ. destruct Happ as [Hx Hl].
      intros y [<-|Hy]; [exact Hx|]. apply IH; assumption.
    + intros Hall. rewrite (Hall x (or_introl eq_refl)). simpl.
      apply IH. intros y Hy. apply Hall. right. exact Hy.
Qed.

Lemma validateTrack_app (errors : list string) (track : ExportTrack num) :
  validateTrack errors track = errors ++ validateTrack [] track.
Proof.
  unfold validateTrack. rewrite !foldl_validateElement.
  destruct (str_falsy (track_id track) || str_falsy (track_name track));
    rewrite ?app_nil_l, <- ?app_assoc; reflexivity.
Qed.

Lemma validateTrack_nil_iff (track : ExportTrack num) :
  validateTrack [] track = [] <-> track_offends track = false.
Proof.
  unfold validateTrack, track_offends. rewrite foldl_validateElement.
  destruct (str_falsy (track_id track) || str_falsy (track_name track)); simpl.
  - split; discriminate.
  - rewrite flat_map_nil_iff. split.
    + intros Hall. apply not_true_is_false. intros Hex.
      apply existsb_exists in Hex. destruct Hex as (e & He & Hoff).
      apply Hall, validateElement_nil_iff in He. congruence.
    + intros Hex e He. apply validateElement_nil_iff.
      apply not_true_is_false. intros Hoff.
      assert (existsb element_offends (elements track) = true)
        by (apply existsb_exists; eauto).
      congruence.
Qed.

Lemma foldl_validateTrack (l : list (ExportTrack num)) (errors : list string) :
  foldl validateTrack errors l = errors ++ flat_map (validateTrack []) l.
Proof.
  revert errors. induction l as [|t l IH]; intros errors; simpl.
  - symmetry. apply app_nil_r.
  - rewrite IH, validateTrack_app, <- app_assoc. reflexivity.
Qed.

Lemma totalElements_zero_iff (l : list (ExportTrack num)) (n : nat) :
  (foldl (fun sum track => (sum + length (elements track))%nat) n l =? 0)%nat
  = (n =? 0)%nat && forallb (fun track => (length (elements track) =? 0)%nat) l.
Proof.
  revert n. induction l as [|t l IH]; intros n; simpl.
  - rewrite andb_true_r. reflexivity.
  - rewrite IH. destruct n, (length (elements t)); simpl; reflexivity.
Qed.

(** The validator reports something exactly for the offences it tests. *)
Lemma validateTimelineData_nil_iff (data : TimelineExportData num) :
  validateTimelineData data = [] <-> timeline_offends data = false.
Proof.
  unfold validateTimelineData, timeline_offends, settings_offend.
  rewrite foldl_validateTrack, totalElements_zero_iff. simpl.
  destruct (length (tracks data) =? 0)%nat; simpl; [split; [|discriminate]|].
  { intros Happ. apply app_eq_nil in Happ. destruct Happ as [Happ _].
    repeat match type of Happ with
           | context [if ?b then _ else _] => destruct b; simpl in Happ
           end; discriminate. }
  destruct (nleb (timeline_duration data) (num_of_Z 0)); simpl; [split; [|discriminate]|].
  { intros Happ. apply app_eq_nil in Happ. destruct Happ as [Happ _].
    repeat match type of Happ with
           | context [if ?b then _ else _] => destruct b; simpl in Happ
           end; discriminate. }
  destruct (forallb _ (tracks data)); simpl; [split; [|discriminate]|].
  { intros Happ. apply app_eq_nil in Happ. destruct Happ as [Happ _].
    repeat match type of Happ with
           | context [if ?b then _ else _] => destruct b; simpl in Happ
           end; discriminate. }
  destruct (match timeline_settings data with None => true | Some _ => _ end);
    simpl; [split; discriminate|].
  rewrite flat_map_nil_iff. split.
  - intros Hall. apply not_true_is_false. intros Hex.
    apply existsb_exists in Hex. destruct Hex as (t & Ht & Hoff).
    apply Hall, validateTrack_nil_iff in Ht. congruence.
  - intros Hex t Ht. apply validateTrack_nil_iff.
    apply not_true_is_false. intros Hoff.
    assert (existsb track_offends (tracks data) = true)
      by (apply existsb_exists; eauto).
    congruence.
Qed.
End Validator.

Lemma existsb_of_In {A} (f : A -> bool) (l : list A) (x : A) :
  In x l -> f x = true -> existsb f l = true.
Proof. intros Hin Hf. apply existsb_exists. exists x. split; assumption. Qed.

(** C4, as the code has it.  The validator is a function of its input and
    nothing else; it returns at least one error exactly when the timeline has
    one of the offences it tests: no tracks, a total duration <= 0, no element
    at all, missing project settings or a zero width or height, a track
    without id or name, an element without id, with a negative [startTime] or
    a [duration] <= 0, a media element without [mediaId] or with neither file
    nor URL, a text element without content.  Trims, the canvas range and the
    sample rate are not among them. *)
Theorem validator_reports_exactly_the_offences_it_tests
    {num : Type} `{JSNumber num} (data : TimelineExportData num) :
  (validateTimelineData data <> [] <-> timeline_offends data = true)
  /\ (tracks data = [] -> validateTimelineData data <> [])
  /\ (nleb (timeline_duration data) (num_of_Z 0) = true -> validateTimelineData data <> [])
  /\ (forall track element,
        In track (tracks data) -> In element (elements track) ->
        (nltb (startTime element) (num_of_Z 0) = true
         \/ nleb (duration element) (num_of_Z 0) = true
         \/ (exists m, payload element = MediaPayload m
                       /\ (mediaId m = ""
                           \/ (file m = None /\ (url m = None \/ url m = Some ""))))) ->
        validateTimelineData data <> []).
Proof.
  assert (Hiff : validateTimelineData data <> [] <-> timeline_offends data = true).
  { rewrite validateTimelineData_nil_iff. destruct (timeline_offends data); split; congruence. }
  split; [exact Hiff|]. split; [|split].
  - intros Hnil. apply Hiff. unfold timeline_offends. rewrite Hnil. reflexivity.
  - intros Hdur. apply Hiff. unfold timeline_offends. rewrite Hdur.
    rewrite orb_true_r. reflexivity.
  - intros track element Htrack Helement Hbad. apply Hiff.
    unfold timeline_offends.
    rewrite (existsb_of_In track_offends (tracks data) track Htrack);
      [rewrite !orb_true_r; reflexivity|].
    unfold track_offends.
    rewrite (existsb_of_In element_offends (elements track) element Helement);
      [rewrite !orb_true_r; reflexivity|].
    unfold element_offends.
    destruct Hbad as [Hs|[Hd|(m & Hp & Hm)]].
    + rewrite Hs, ?orb_true_r. reflexivity.
    + rewrite Hd, ?orb_true_r. reflexivity.
    + rewrite Hp. destruct Hm as [Hid|[Hfile Hurl]].
      * rewrite Hid. simpl. rewrite ?orb_true_r. reflexivity.
      * rewrite Hfile. destruct Hurl as [-> | ->]; simpl; rewrite ?orb_true_r; reflexivity.
Qed.

(** C4 as stated fails: a timeline whose canvas is 32 x 32, with a clip
    trimmed by more than its duration and a clip with a negative trim, passes
    the validator without an error. *)
Lemma validator_accepts_overtrimmed_clips_on_a_32px_canvas :
  validateTimelineData small_canvas_timeline = []
  /\ nleb (duration overtrimmed_clip)
          (nadd (trimStart overtrimmed_clip) (trimEnd overtrimmed_clip)) = true
  /\ nltb (trimStart negative_trim_clip) (num_of_Z 0) = true
  /\ timeline_settings small_canvas_timeline
     = Some {| project_width := 32%float; project_height := 32%float;
               project_fps := 30%float |}
  /\ nltb 32%float (num_of_Z 64) = true.
Proof. vm_compute. repeat split; reflexivity. Qed.

(** C4 at an instance: a timeline without tracks is reported. *)
Lemma empty_timeline_is_reported :
  tracks empty_timeline = [] /\ validateTimelineData empty_timeline <> [].
Proof.
  split; [reflexivity|].
  apply (proj1 (proj2 (validator_reports_exactly_the_offences_it_tests empty_timeline))).
  reflexivity.
Defined.

(** ** Settings validation *)

Lemma Qeq_bool_false_neq (a b : Q) : Qeq_bool a b = false <-> ~ (a == b)%Q.
Proof.
  split.
  - intros Hb Heq. apply Qeq_bool_iff in Heq. congruence.
  - intros Hne. destruct (Qeq_bool a b) eqn:E; [|reflexivity].
    apply Qeq_bool_iff in E. contradiction.
Qed.

(** [Math.max(lo, Math.min(hi, v))] in the exact reading. *)
Lemma clamp_cases (lo hi v : Q) :
  (lo < hi)%Q ->
  ((lo <= Math_max lo (Math_min hi v) /\ Math_max lo (Math_min hi v) <= hi)%Q)
  /\ ((lo < v)%Q -> (v < hi)%Q -> Math_max lo (Math_min hi v) = v)
  /\ ((lo <= v /\ v <= hi)%Q -> (Math_max lo (Math_min hi v) == v)%Q)
  /\ ((hi < v)%Q -> Math_max lo (Math_min hi v) = hi)
  /\ ((v < lo)%Q -> Math_max lo (Math_min hi v) = lo).
Proof.
  intros Hlohi. cbn [Math_max Math_min ExactNumber].
  destruct (Qltb v hi) eqn:E1.
  - apply Qltb_lt in E1. destruct (Qltb lo v) eqn:E2.
    + apply Qltb_lt in E2. repeat split; intros; try reflexivity; lra.
    + apply Qltb_ge in E2. repeat split; intros; try reflexivity; lra.
  - apply Qltb_ge in E1. destruct (Qltb lo hi) eqn:E2.
    + repeat split; intros; try reflexivity; lra.
    + apply Qltb_ge in E2. lra.
Qed.

Lemma validateSettings_clamps (lo hi d : Q) (input : option Q) :
  (0 < lo)%Q -> (lo < d)%Q -> (d < hi)%Q ->
  clamped_field lo hi d input (Math_max lo (Math_min hi (field_or input d))).
Proof.
  intros Hlo Hd1 Hd2.
  assert (Hlohi : (lo < hi)%Q) by lra.
  unfold clamped_field. split; [|split].
  - apply clamp_cases. exact Hlohi.
  - intros ->. apply clamp_cases; assumption.
  - intros x ->. unfold field_or, num_or. cbn [nfalsy ExactNumber].
    destruct (Qeq_bool x 0) eqn:E.
    + apply Qeq_bool_iff in E. repeat split; intros.
      * apply clamp_cases; assumption.
      * lra.
      * lra.
      * contradiction.
    + apply Qeq_bool_false_neq in E. repeat split; intros.
      * contradiction.
      * apply clamp_cases; assumption.
      * apply clamp_cases; assumption.
      * apply clamp_cases; assumption.
Qed.

Lemma includes_supported (x : Q) :
  includes supportedSampleRates x = true <-> supported_rate x.
Proof.
  unfold includes, supportedSampleRates, supported_rate. simpl.
  rewrite !orb_true_iff. cbn [neqb num_of_Z ExactNumber].
  rewrite !Qeq_bool_iff.
  split.
  - intros [Hx|[Hx|[Hx|[Hx|[Hx|Hx]]]]]; try discriminate;
      symmetry in Hx; tauto.
  - intros [Hx|[Hx|[Hx|[Hx|Hx]]]]; symmetry in Hx; tauto.
Qed.

Lemma validateSettings_sampleRate (input : option Q) :
  let chosen := field_or input (inject_Z 48000) in
  let output := if includes supportedSampleRates chosen then chosen else inject_Z 48000 in
  supported_rate output
  /\ (input = None -> output = inject_Z 48000)
  /\ (forall x, input = Some x ->
        (supported_rate x -> output = x)
        /\ (~ supported_rate x -> output = inject_Z 48000)).
Proof.
  assert (Hdef : supported_rate (inject_Z 48000)).
  { unfold supported_rate. right; right; right; right. reflexivity. }
  assert (Hinc : includes supportedSampleRates (inject_Z 48000) = true)
    by (apply includes_supported; exact Hdef).
  cbv zeta. unfold field_or. destruct input as [x|].
  - unfold num_or. cbn [nfalsy ExactNumber].
    destruct (Qeq_bool x 0) eqn:E0.
    + apply Qeq_bool_iff in E0. rewrite Hinc.
      split; [exact Hdef|]. split; [discriminate|].
      intros y [= <-]. split; [|reflexivity].
      intros Hs. exfalso. unfold supported_rate in Hs. rewrite E0 in Hs.
      destruct Hs as [Hs|[Hs|[Hs|[Hs|Hs]]]]; discriminate Hs.
    + destruct (includes supportedSampleRates x) eqn:E.
      * apply includes_supported in E.
        split; [exact E|]. split; [discriminate|].
        intros y [= <-]. split; [reflexivity|]. intros Hn. contradiction.
      * split; [exact Hdef|]. split; [discriminate|].
        intros y [= <-]. split; [|reflexivity].
        intros Hs. apply includes_supported in Hs. congruence.
  - rewrite Hinc. split; [exact Hdef|]. split; [reflexivity|]. discriminate.
Qed.

Lemma spread_cases {A} (d : A) (input : OptionalProperty A) :
  spread_field d input (spread d input).
Proof.
  unfold spread_field. destruct input; cbn [spread]; repeat split; congruence.
Qed.




(** ** Export engine: the frame loop *)

Section FrameLoop.
Context {num : Type} `{JSNumber num}.

Lemma after_frames_nil env settings N (s : EngineState num) :
  after_frames env settings N [] s = s.
Proof.
  destruct s. unfold after_frames, chunk_count. simpl.
  rewrite !app_nil_r, Z.add_0_r. reflexivity.
Qed.

Lemma after_frames_cons env settings N k ks (s : EngineState num) :
  after_frames env settings N ks (after_frames env settings N [k] s)
  = after_frames env settings N (k :: ks) s.
Proof.
  unfold after_frames, chunk_count. simpl.
  rewrite !app_nil_r, <- !app_assoc. f_equal.
  destruct (chunkAdded env k); simpl; lia.
Qed.

Lemma processFrame_unbroken env settings N k (s : EngineState num) :
  abortedAt env k = false -> frameEncodes env k = true ->
  processFrame env settings N k s
  = (Returned tt, after_frames env settings N [k] s).
Proof.
  intros Hab Henc.
  unfold processFrame, require, mbind, Eff_bind, mret, Eff_ret, encode,
    emitRenderProgress, emitProgress, after_frames, progress_of_frame,
    render_progress, frame_of, chunk_count.
  rewrite Hab, Henc. simpl.
  destruct ((Z.rem k 10 =? 0) || (k =? N)); simpl;
    destruct (chunkAdded env k); simpl;
    rewrite ?app_nil_r, ?Z.add_0_r; reflexivity.
Qed.

(** A frame that is aborted or refused throws and leaves the state alone. *)
Lemma processFrame_broken env settings N k (s : EngineState num) :
  abortedAt env k = true \/ frameEncodes env k = false ->
  exists message, processFrame env settings N k s = (Thrown message, s).
Proof.
  intros Hbad.
  unfold processFrame, require, mbind, Eff_bind, mret, Eff_ret, throw.
  destruct (abortedAt env k); simpl; [eexists; reflexivity|].
  destruct Hbad as [Hbad|Hbad]; [discriminate|]. rewrite Hbad. simpl.
  eexists; reflexivity.
Qed.

(** The loop with exactly the fuel it needs, all frames going through. *)
Lemma frameLoop_unbroken env settings N (fuel : nat) (frame : Z) (s : EngineState num) :
  frame + Z.of_nat fuel = N + 1 ->
  (forall k, frame <= k <= N -> abortedAt env k = false /\ frameEncodes env k = true) ->
  frameLoop fuel env settings N frame s
  = (Returned tt, after_frames env settings N (seqZ frame (Z.of_nat fuel)) s).
Proof.
  revert frame s. induction fuel as [|fuel IH]; intros frame s Hfuel Hok.
  - simpl. rewrite seqZ_nil by lia. rewrite after_frames_nil. reflexivity.
  - cbn [frameLoop].
    assert (Hle : (frame <=? N) = true) by (apply Z.leb_le; lia).
    rewrite Hle. unfold mbind, Eff_bind.
    destruct (Hok frame ltac:(lia)) as [Hab Henc].
    rewrite processFrame_unbroken by assumption.
    rewrite IH.
    + rewrite after_frames_cons. rewrite (seqZ_cons frame) by lia.
      repeat f_equal; lia.
    + lia.
    + intros k Hk. apply Hok. lia.
Qed.

(** More fuel than the loop needs changes nothing: the loop ends by its
    own test. *)
Lemma frameLoop_fuel env settings N (fuel extra : nat) (frame : Z) (s : EngineState num) :
  N + 1 <= frame + Z.of_nat fuel ->
  frameLoop (fuel + extra) env settings N frame s = frameLoop fuel env settings N frame s.
Proof.
  revert frame s. induction fuel as [|fuel IH]; intros frame s Hfuel.
  - destruct extra as [|extra]; [reflexivity|]. cbn [Nat.add frameLoop].
    assert (Hgt : (frame <=? N) = false) by (apply Z.leb_gt; lia).
    rewrite Hgt. reflexivity.
  - cbn [Nat.add frameLoop]. destruct (frame <=? N); [|reflexivity].
    unfold mbind, Eff_bind.
    destruct (processFrame env settings N frame s) as [[[]|message] s'];
      [|reflexivity].
    apply IH. lia.
Qed.

(** Whatever happens, the loop only appends the progress events of a
    first stretch of frames, and leaves the error log alone. *)
Lemma frameLoop_events env settings N (fuel : nat) (frame : Z) (s : EngineState num) :
  exists m : nat,
    (m <= fuel)%nat
    /\ (Z.of_nat m <= Z.max 0 (N + 1 - frame))
    /\ events (snd (frameLoop fuel env settings N frame s))
       = events s ++ flat_map (progress_of_frame N) (seqZ frame (Z.of_nat m))
    /\ errorLog (snd (frameLoop fuel env settings N frame s)) = errorLog s.
Proof.
  revert frame s. induction fuel as [|fuel IH]; intros frame s.
  - exists 0%nat. simpl. rewrite app_nil_r. repeat split; lia.
  - cbn [frameLoop]. destruct (frame <=? N) eqn:Hle.
    + apply Z.leb_le in Hle. unfold mbind, Eff_bind.
      destruct (abortedAt env frame) eqn:Hab;
        [|destruct (frameEncodes env frame) eqn:Henc].
      * destruct (processFrame_broken env settings N frame s (or_introl Hab))
          as [message ->].
        exists 0%nat. simpl. rewrite app_nil_r. repeat split; lia.
      * rewrite processFrame_unbroken by assumption.
        destruct (IH (frame + 1) (after_frames env settings N [frame] s))
          as (m & Hm & Hb & Hev & Hlog).
        exists (S m). split; [lia|]. split; [lia|]. split.
        -- rewrite Hev. cbn [after_frames events flat_map].
           rewrite app_nil_r, <- app_assoc.
           rewrite (seqZ_cons frame (Z.of_nat (S m))) by lia.
           cbn [flat_map]. repeat f_equal; lia.
        -- rewrite Hlog. reflexivity.
      * destruct (processFrame_broken env settings N frame s (or_intror Henc))
          as [message ->].
        exists 0%nat. simpl. rewrite app_nil_r. repeat split; lia.
    + exists 0%nat. simpl. rewrite app_nil_r. repeat split; lia.
Qed.
End FrameLoop.

(** ** Export engine: [processVideo] *)

Section ProcessVideo.
Context {num : Type} `{JSNumber num}.

Lemma chunk_count_le env (ks : list Z) : chunk_count env ks <= Z.of_nat (length ks).
Proof.
  unfold chunk_count. apply inj_le. induction ks as [|k ks IH]; simpl.
  - lia.
  - destruct (chunkAdded env k); simpl; lia.
Qed.

(** A run of [processVideo] in which no frame is aborted or refused and the
    flush resolves: every frame is submitted, in order; the chunks are
    counted; the mismatch is logged when the count is short; the function
    returns. *)
Lemma processVideo_unbroken env (settings : ExportSettings num) N (s : EngineState num) :
  encoderConfigured env = true ->
  0 <= N + 1 -> loop_unbroken env N -> flushed env = true ->
  processVideo env settings N s
  = (Returned tt,
     {| events := events (after_frames env settings N (seqZ 0 (N + 1)) s);
        submitted := submitted (after_frames env settings N (seqZ 0 (N + 1)) s);
        encodedChunks := encodedChunks (after_frames env settings N (seqZ 0 (N + 1)) s);
        errorLog :=
          if encodedChunks (after_frames env settings N (seqZ 0 (N + 1)) s) <? N + 1
          then errorLog s ++ [frameMismatch] else errorLog s |}).
Proof.
  intros Hconf HN Hok Hflush. unfold processVideo, try_catch, mbind, Eff_bind.
  unfold require at 1. rewrite Hconf. unfold mret at 1, Eff_ret at 1.
  rewrite (frameLoop_unbroken env settings N (Z.to_nat (N + 1)) 0 s).
  - rewrite Z2Nat.id by lia. unfold require. rewrite Hflush.
    unfold mret, Eff_ret, get_encodedChunks, logError.
    set (s' := after_frames env settings N (seqZ 0 (N + 1)) s).
    destruct (encodedChunks s' <? N + 1); simpl; reflexivity.
  - rewrite Z2Nat.id by lia. lia.
  - intros k Hk. apply Hok. lia.
Qed.

(** [processVideo] dispatches no event of its own: it appends the progress
    events of a first stretch of frames. *)
Lemma processVideo_events env (settings : ExportSettings num) N (s : EngineState num) :
  exists m : nat,
    Z.of_nat m <= Z.max 0 (N + 1)
    /\ events (snd (processVideo env settings N s))
       = events s ++ flat_map (progress_of_frame N) (seqZ 0 (Z.of_nat m)).
Proof.
  unfold processVideo, try_catch, mbind, Eff_bind, require.
  destruct (encoderConfigured env); cbn [mret Eff_ret throw];
    [|exists 0%nat; cbn; rewrite app_nil_r; split; [lia|reflexivity]].
  destruct (frameLoop_events env settings N (Z.to_nat (N + 1)) 0 s)
    as (m & _ & Hb & Hloop & _).
  exists m. split; [lia|]. rewrite <- Hloop.
  destruct (frameLoop (Z.to_nat (N + 1)) env settings N 0 s) as [[[]|message] s'];
    simpl; [|reflexivity].
  destruct (flushed env); simpl; [|reflexivity].
  destruct (encodedChunks s' <? N + 1); reflexivity.
Qed.
End ProcessVideo.

(** After a [processVideo] that returns, the export dispatches the
    finalizing event: it goes on to finalize, whatever the chunk count. *)
Lemma export_finalizes_after_processVideo {num : Type} `{JSNumber num}
    (env : ExportEnv) (timelineData : TimelineExportData num)
    (settings : ExportSettings num) :
  webCodecsSupported env = true -> generatedConfig env <> None ->
  streamCreated env = true -> outputStarted env = true ->
  audioProcessed env = true ->
  encoderConfigured env = true ->
  0 <= Math_ceil (nmul (timeline_duration timelineData) (fps settings)) ->
  loop_unbroken env (Math_ceil (nmul (timeline_duration timelineData) (fps settings))) ->
  flushed env = true ->
  In (finalizing_event (Math_ceil (nmul (timeline_duration timelineData) (fps settings))))
     (events (snd (run_export env timelineData settings))).
Proof.
  intros Hweb Hconfig Hstream Hstart Haudio Hconf HN Hok Hflush.
  set (N := Math_ceil (nmul (timeline_duration timelineData) (fps settings))) in *.
  unfold run_export, export, try_catch, mbind, Eff_bind, emitProgress, require,
    mret, Eff_ret, throw, logError.
  fold N. rewrite Hweb, Hstream, Hstart, Haudio.
  destruct (generatedConfig env) as [configAudio|]; [|congruence].
  rewrite processVideo_unbroken by (assumption || lia).
  assert (Hin : forall (l l' : list (ExportProgress num)),
                  In (finalizing_event N) ((l ++ [finalizing_event N]) ++ l')).
  { intros l l'. apply in_or_app. left. apply in_or_app. right. left. reflexivity. }
  destruct (configAudio && hasAudioTracks timelineData);
    destruct (finalized env), (bufferObtained env), (bufferSaved env);
    cbn [fst snd events]; first [apply Hin | apply in_or_app; right; left; reflexivity].
Qed.

(** C9.  When the frame loop has run through and the flush has resolved,
    [processVideo] has counted the chunks the encoder's output callback
    accepted -- one per frame at most -- and the error log holds the frame
    mismatch exactly when that count is not [N + 1]; in either case
    [processVideo] returns, and an export whose other steps succeed
    dispatches its finalizing event. *)
Theorem chunk_count_mismatch_is_logged_and_finalization_proceeds
    {num : Type} `{JSNumber num}
    (env : ExportEnv) (settings : ExportSettings num) (N : Z) :
  0 <= N -> encoderConfigured env = true -> loop_unbroken env N ->
  flushed env = true ->
  fst (processVideo env settings N initial_state) = Returned tt
  /\ length (submitted (snd (processVideo env settings N initial_state)))
     = Z.to_nat (N + 1)
  /\ encodedChunks (snd (processVideo env settings N initial_state))
     = chunk_count env (seqZ 0 (N + 1))
  /\ (In frameMismatch (errorLog (snd (processVideo env settings N initial_state)))
      <-> encodedChunks (snd (processVideo env settings N initial_state)) <> N + 1)
  /\ (forall timelineData : TimelineExportData num,
        Math_ceil (nmul (timeline_duration timelineData) (fps settings)) = N ->
        webCodecsSupported env = true -> generatedConfig env <> None ->
        streamCreated env = true -> outputStarted env = true ->
        audioProcessed env = true ->
        In (finalizing_event N) (events (snd (run_export env timelineData settings)))).
Proof.
  intros HN Hconf Hok Hflush.
  split; [|split; [|split; [|split]]].
  5:{ intros timelineData <- Hweb Hconfig Hstream Hstart Haudio.
      apply export_finalizes_after_processVideo; assumption. }
  all: rewrite (processVideo_unbroken env settings N initial_state) by (assumption || lia).
  all: cbn [fst snd after_frames initial_state events submitted encodedChunks errorLog].
  all: pose proof (chunk_count_le env (seqZ 0 (N + 1))) as Hle.
  all: rewrite length_seqZ in Hle.
  - reflexivity.
  - rewrite app_nil_l, length_map, length_seqZ. reflexivity.
  - lia.
  - rewrite Z.add_0_l. destruct (chunk_count env (seqZ 0 (N + 1)) <? N + 1) eqn:E.
    + apply Z.ltb_lt in E. split; [lia|]. intros _. left. reflexivity.
    + apply Z.ltb_ge in E. split; [intros []|]. lia.
Qed.

(** The hypotheses of C9 hold of a one-second export at 30 fps in which
    every step succeeds, and the theorem applies to it. *)
Lemma a_complete_run_logs_no_mismatch :
  0 <= 30
  /\ flushed untroubled_env = true
  /\ fst (processVideo untroubled_env (getDefaultSettings (num:=float)) 30 initial_state)
     = Returned tt.
Proof.
  split; [discriminate|]. split; [reflexivity|].
  refine (proj1 (chunk_count_mismatch_is_logged_and_finalization_proceeds
                   untroubled_env (getDefaultSettings (num:=float)) 30 _ _ _ _)).
  - discriminate.
  - reflexivity.
  - intros k Hk. split; reflexivity.
  - reflexivity.
Defined.


(** ** Export engine: the progress events of a run *)

Section RunExport.
Context {num : Type} `{JSNumber num}.

(** Every run dispatches: the initializing event; the progress events of a
    first stretch of frames; then either the error event alone, or the
    finalizing event followed by the complete event (the run returns) or by
    the error event. *)
Lemma run_export_events (env : ExportEnv) (timelineData : TimelineExportData num)
    (settings : ExportSettings num) :
  exists (m : nat) (tail : list (ExportProgress num)),
    Z.of_nat m
    <= Z.max 0 (Math_ceil (nmul (timeline_duration timelineData) (fps settings)) + 1)
    /\ events (snd (run_export env timelineData settings))
       = initializing_event
           :: flat_map (progress_of_frame
                          (Math_ceil (nmul (timeline_duration timelineData) (fps settings))))
                       (seqZ 0 (Z.of_nat m))
           ++ tail
    /\ ((exists message,
           tail = [error_event message]
           /\ fst (run_export env timelineData settings) = Thrown message)
        \/ (tail = [finalizing_event
                      (Math_ceil (nmul (timeline_duration timelineData) (fps settings)));
                    complete_event
                      (Math_ceil (nmul (timeline_duration timelineData) (fps settings)))]
            /\ fst (run_export env timelineData settings)
               = Returned (saveBuffer (StreamTarget_create env) (fileName settings)))
        \/ (exists message,
              tail = [finalizing_event
                        (Math_ceil (nmul (timeline_duration timelineData) (fps settings)));
                      error_event message]
              /\ fst (run_export env timelineData settings) = Thrown message)).
Proof.
  set (N := Math_ceil (nmul (timeline_duration timelineData) (fps settings))).
  unfold run_export, export, try_catch, mbind, Eff_bind, emitProgress, require,
    mret, Eff_ret, throw, logError.
  fold N. cbn [initial_state events submitted encodedChunks errorLog app].
  fold (@initializing_event num _).
  set (s0 := {| events := [initializing_event]; submitted := [];
                encodedChunks := 0; errorLog := [] |}).
  destruct (webCodecsSupported env);
    [|exists 0%nat; eexists; cbn; split; [lia|split; [reflexivity|]];
      left; eexists; split; reflexivity].
  destruct (generatedConfig env) as [configAudio|];
    [|exists 0%nat; eexists; cbn; split; [lia|split; [reflexivity|]];
      left; eexists; split; reflexivity].
  destruct (streamCreated env);
    [|exists 0%nat; eexists; cbn; split; [lia|split; [reflexivity|]];
      left; eexists; split; reflexivity].
  destruct (outputStarted env);
    [|exists 0%nat; eexists; cbn; split; [lia|split; [reflexivity|]];
      left; eexists; split; reflexivity].
  destruct (processVideo_events env settings N s0) as (m & Hb & Hev).
  cbn [s0 events app] in Hev.
  destruct (processVideo env settings N s0) as [[[]|message] s1]; cbn [snd] in Hev.
  2:{ exists m. eexists. cbn. rewrite Hev. split; [lia|].
      split; [cbn; rewrite <- ?app_assoc; reflexivity|].
      left. eexists. split; reflexivity. }
  destruct (configAudio && hasAudioTracks timelineData);
    [destruct (audioProcessed env)|];
    try (exists m; eexists; cbn; rewrite Hev; split; [lia|];
         split; [cbn; rewrite <- ?app_assoc; reflexivity|];
         left; eexists; split; reflexivity).
  all: destruct (finalized env);
    [|exists m; eexists; cbn; rewrite Hev; split; [lia|];
      split; [cbn; rewrite <- ?app_assoc; reflexivity|];
      right; right; eexists; split; reflexivity].
  all: destruct (bufferObtained env);
    [|exists m; eexists; cbn; rewrite Hev; split; [lia|];
      split; [cbn; rewrite <- ?app_assoc; reflexivity|];
      right; right; eexists; split; reflexivity].
  all: destruct (bufferSaved env);
    [|exists m; eexists; cbn; rewrite Hev; split; [lia|];
      split; [cbn; rewrite <- ?app_assoc; reflexivity|];
      right; right; eexists; split; reflexivity].
  all: exists m; eexists; cbn; rewrite Hev; split; [lia|];
    split; [cbn; rewrite <- ?app_assoc; reflexivity|];
    right; left; split; reflexivity.
Qed.
End RunExport.

(** ** Progress events: stages *)

Lemma adjacent_of_StronglySorted {A} (R : A -> A -> Prop) (l : list A) (i : nat) (a b : A) :
  StronglySorted R l -> l !! i = Some a -> l !! S i = Some b -> R a b.
Proof.
  intros Hs Ha Hb. eapply (StronglySorted_lookup R l i (S i)); eauto.
Qed.

Section Stages.
Context {num : Type} `{JSNumber num}.

Lemma progress_of_frame_stage N k (e : ExportProgress num) :
  In e (progress_of_frame N k) -> stage e = processing.
Proof.
  unfold progress_of_frame. destruct (_ || _); simpl; [|tauto].
  intros [<-|[]]. reflexivity.
Qed.

Lemma processing_then_tail_sorted (procs tail : list (ExportProgress num)) :
  Forall (fun e => stage e = processing) procs ->
  Forall (fun e => 1 < stage_rank (stage e)) tail ->
  StronglySorted stage_rel tail ->
  StronglySorted stage_rel (procs ++ tail).
Proof.
  intros Hprocs Htail Hsorted. induction Hprocs as [|e procs He Hprocs IH]; simpl.
  - exact Hsorted.
  - constructor; [exact IH|]. apply Forall_app. split.
    + eapply Forall_impl; [exact Hprocs|]. intros e' He'.
      left. split; assumption.
    + eapply Forall_impl; [exact Htail|]. intros e' He'. cbv beta in He'.
      right. rewrite He. simpl. exact He'.
Qed.

Lemma flat_map_progress_stage N (ks : list Z) :
  Forall (fun e : ExportProgress num => stage e = processing)
         (flat_map (progress_of_frame N) ks).
Proof.
  apply Forall_forall. intros e He. apply list_elem_of_In in He.
  apply in_flat_map in He. destruct He as (k & _ & He).
  eapply progress_of_frame_stage. exact He.
Qed.

(** The stages of every run go forward only. *)
Lemma run_export_stages_forward (env : ExportEnv)
    (timelineData : TimelineExportData num) (settings : ExportSettings num) :
  stages_only_forward (events (snd (run_export env timelineData settings))).
Proof.
  destruct (run_export_events env timelineData settings)
    as (m & tail & _ & -> & Htail).
  intros i a b Ha Hb.
  eapply (adjacent_of_StronglySorted stage_rel); [|exact Ha|exact Hb].
  assert (Hrest : Forall (fun e : ExportProgress num => 1 < stage_rank (stage e)) tail
                  /\ StronglySorted stage_rel tail).
  { destruct Htail as [(message & -> & _)|[[-> _]|(message & -> & _)]].
    - split; [repeat constructor|]. repeat constructor.
    - split; [repeat constructor|].
      constructor; [repeat constructor|].
      constructor; [|constructor]. right. simpl. lia.
    - split; [repeat constructor|].
      constructor; [repeat constructor|].
      constructor; [|constructor]. right. simpl. lia. }
  destruct Hrest as [Hranks Hsorted].
  constructor.
  - apply processing_then_tail_sorted; [apply flat_map_progress_stage|assumption..].
  - apply Forall_app. split.
    + eapply Forall_impl; [apply flat_map_progress_stage|].
      intros e He. right. rewrite He. simpl. lia.
    + eapply Forall_impl; [exact Hranks|].
      intros e He. cbv beta in He. right. change (0 < stage_rank (stage e)). lia.
Qed.
End Stages.

(** ** Progress events: percentages, in the exact reading *)

Lemma percentage_of_frame (N k : Z) :
  percentage (render_progress (num:=Q) N k) = (inject_Z k / inject_Z N * 100)%Q.
Proof. reflexivity. Qed.

Lemma inject_Z_pos (N : Z) : 0 < N -> (0 < inject_Z N)%Q.
Proof. intros HN. unfold Qlt. simpl. lia. Qed.

Lemma percentage_mono (N k1 k2 : Z) :
  0 < N -> k1 <= k2 ->
  (inject_Z k1 / inject_Z N * 100 <= inject_Z k2 / inject_Z N * 100)%Q.
Proof.
  intros HN Hk.
  assert (HNq : (0 < inject_Z N)%Q) by (apply inject_Z_pos; exact HN).
  apply Qmult_le_compat_r; [|discriminate].
  unfold Qdiv. apply Qmult_le_compat_r.
  - rewrite <- Zle_Qle. exact Hk.
  - apply Qlt_le_weak, Qinv_lt_0_compat. exact HNq.
Qed.

Lemma percentage_bounds (N k : Z) :
  0 < N -> 0 <= k <= N ->
  (0 <= inject_Z k / inject_Z N * 100 /\ inject_Z k / inject_Z N * 100 <= 100)%Q.
Proof.
  intros HN [Hk0 HkN].
  assert (HNq : (0 < inject_Z N)%Q) by (apply inject_Z_pos; exact HN).
  assert (H0 : (inject_Z 0 / inject_Z N * 100 == 0)%Q).
  { unfold Qdiv. change (inject_Z 0) with 0%Q. ring. }
  assert (H1 : (inject_Z N / inject_Z N * 100 == 100)%Q).
  { field. intros Hz. rewrite Hz in HNq. exact (Qlt_irrefl _ HNq). }
  split.
  - eapply Qle_trans; [|apply (percentage_mono N 0 k); assumption].
    rewrite H0. apply Qle_refl.
  - eapply Qle_trans; [apply (percentage_mono N k N); assumption|].
    rewrite H1. apply Qle_refl.
Qed.

(** The progress events of the frames [start .. start + m - 1] come with
    non-decreasing percentages between that of [start] and 100. *)
Lemma frame_progress_sorted (N : Z) (m : nat) (start : Z) :
  0 < N -> 0 <= start -> start + Z.of_nat m <= N + 1 ->
  StronglySorted percentage_le
    (flat_map (progress_of_frame N) (seqZ start (Z.of_nat m)))
  /\ Forall (fun e => (inject_Z start / inject_Z N * 100 <= percentage e
                       /\ percentage e <= 100)%Q)
            (flat_map (progress_of_frame N) (seqZ start (Z.of_nat m))).
Proof.
  intros HN. revert start. induction m as [|m IH]; intros start Hs Hm.
  - rewrite seqZ_nil by lia. simpl. split; constructor.
  - rewrite seqZ_cons by lia. cbn [flat_map].
    replace (Z.pred (Z.of_nat (S m))) with (Z.of_nat m) by lia.
    destruct (IH (Z.succ start) ltac:(lia) ltac:(lia)) as [IHs IHf].
    assert (IHf' : Forall (fun e => (inject_Z start / inject_Z N * 100 <= percentage e
                                     /\ percentage e <= 100)%Q)
                     (flat_map (progress_of_frame N) (seqZ (Z.succ start) (Z.of_nat m)))).
    { eapply Forall_impl; [exact IHf|]. intros e [He1 He2]. split; [|exact He2].
      eapply Qle_trans; [|exact He1]. apply percentage_mono; lia. }
    unfold progress_of_frame at 1 3. destruct (_ || _); cbn [app].
    + split.
      * constructor; [exact IHs|].
        eapply Forall_impl; [exact IHf'|]. intros e [He _].
        unfold percentage_le. rewrite percentage_of_frame. exact He.
      * constructor; [|exact IHf'].
        rewrite percentage_of_frame. split; [apply Qle_refl|].
        apply percentage_bounds; lia.
    + split; assumption.
Qed.

Lemma percentages_of_sorted (evs : list (ExportProgress Q)) :
  StronglySorted percentage_le evs -> percentages_nondecreasing evs.
Proof.
  intros Hs i a b Ha Hb.
  exact (adjacent_of_StronglySorted percentage_le evs i a b Hs Ha Hb).
Qed.

(** The events of a run before its error event, if it has one, are sorted by
    percentage. *)
Lemma run_export_percentages_sorted (env : ExportEnv)
    (timelineData : TimelineExportData Q) (settings : ExportSettings Q) :
  0 < Math_ceil (nmul (timeline_duration timelineData) (fps settings)) ->
  StronglySorted percentage_le
    (List.filter (fun e => negb (is_error_event e))
                 (events (snd (run_export env timelineData settings)))).
Proof.
  intros HN.
  destruct (run_export_events env timelineData settings)
    as (m & tail & Hm & -> & Htail).
  set (N := Math_ceil (nmul (timeline_duration timelineData) (fps settings))) in *.
  destruct (frame_progress_sorted N m 0 HN ltac:(lia) ltac:(lia)) as [Hsorted Hbounds].
  assert (Hprocs : List.filter (fun e => negb (is_error_event e))
                     (flat_map (progress_of_frame (num:=Q) N) (seqZ 0 (Z.of_nat m)))
                   = flat_map (progress_of_frame N) (seqZ 0 (Z.of_nat m))).
  { apply forallb_filter_id. apply forallb_forall. intros e He.
    apply in_flat_map in He. destruct He as (k & _ & He).
    apply progress_of_frame_stage in He. unfold is_error_event. rewrite He.
    reflexivity. }
  cbn [List.filter is_error_event stage initializing_event negb].
  rewrite List.filter_app, Hprocs.
  assert (Htail' :
    StronglySorted percentage_le (List.filter (fun e => negb (is_error_event e)) tail)
    /\ Forall (fun e => (percentage e == 100)%Q)
              (List.filter (fun e => negb (is_error_event e)) tail)).
  { destruct Htail as [(message & -> & _)|[[-> _]|(message & -> & _)]]; cbn.
    - split; constructor.
    - split.
      + constructor; [repeat constructor|]. constructor; [|constructor].
        unfold percentage_le. cbn. apply Qle_refl.
      + repeat constructor.
    - split; repeat constructor. }
  destruct Htail' as [Hts Htf].
  constructor.
  - clear Hprocs. induction Hsorted as [|e procs Hs IH Hall].
    + exact Hts.
    + cbn [app]. constructor.
      * apply IH. inversion Hbounds; assumption.
      * apply Forall_app. split; [exact Hall|].
        inversion Hbounds as [|? ? [_ He] _]; subst.
        eapply Forall_impl; [exact Htf|]. intros e' He'. cbv beta in He'.
        unfold percentage_le. rewrite He'. exact He.
  - apply Forall_app. split.
    + eapply Forall_impl; [exact Hbounds|]. intros e [He _].
      unfold percentage_le. cbn [percentage initializing_event num_of_Z ExactNumber].
      eapply Qle_trans; [|exact He].
      apply percentage_bounds; lia.
    + eapply Forall_impl; [exact Htf|]. intros e He. cbv beta in He.
      unfold percentage_le. rewrite He. discriminate.
Qed.

(** C8, as the code has it.  Over the progress events of one run the stage
    only goes forward along initializing -> processing -> finalizing ->
    (complete | error); the percentages are non-decreasing up to the error
    event -- over the whole run when it completes -- and the error event, the
    last event of a failed run, reports 0 percent. *)
Theorem progress_goes_forward_and_error_resets_percentage
    (env : ExportEnv) (timelineData : TimelineExportData Q) (settings : ExportSettings Q) :
  stages_only_forward (events (snd (run_export env timelineData settings)))
  /\ (0 < Math_ceil (nmul (timeline_duration timelineData) (fps settings)) ->
      percentages_nondecreasing
        (List.filter (fun e => negb (is_error_event e))
                     (events (snd (run_export env timelineData settings))))
      /\ (forall result,
            fst (run_export env timelineData settings) = Returned result ->
            percentages_nondecreasing (events (snd (run_export env timelineData settings)))))
  /\ (forall e, In e (events (snd (run_export env timelineData settings))) ->
                stage e = error -> percentage e = 0%Q).
Proof.
  split; [apply run_export_stages_forward|]. split.
  - intros HN.
    pose proof (run_export_percentages_sorted env timelineData settings HN) as Hsorted.
    split; [apply percentages_of_sorted; exact Hsorted|].
    intros result Hres. apply percentages_of_sorted.
    destruct (run_export_events env timelineData settings)
      as (m & tail & _ & Hev & Htail).
    rewrite Hev in Hsorted |- *.
    destruct Htail as [(message & _ & Hthrown)|[[-> _]|(message & _ & Hthrown)]];
      [congruence| |congruence].
    rewrite forallb_filter_id in Hsorted; [exact Hsorted|].
    cbn [forallb]. rewrite forallb_app. cbn.
    rewrite andb_true_r. apply forallb_forall. intros e He.
    apply in_flat_map in He. destruct He as (k & _ & He).
    apply progress_of_frame_stage in He. unfold is_error_event. rewrite He.
    reflexivity.
  - intros e He Hstage.
    destruct (run_export_events env timelineData settings)
      as (m & tail & _ & Hev & Htail).
    rewrite Hev in He. destruct He as [<-|He]; [discriminate|].
    apply in_app_or in He. destruct He as [He|He].
    + apply in_flat_map in He. destruct He as (k & _ & He).
      apply progress_of_frame_stage in He. congruence.
    + destruct Htail as [(message & -> & _)|[[-> _]|(message & -> & _)]];
        cbn in He; intuition (subst; try discriminate; reflexivity).
Qed.

(** C8 as stated fails: the export of a valid one-second timeline at 30 fps
    that the user aborts when frame 11 is about to be rendered has reported a
    positive percentage (frame 10 of 30) when its error event reports 0
    percent. *)
Lemma aborted_run_reports_a_lower_percentage :
  validateTimelineData (one_clip_timeline (num:=float) 1) = []
  /\ exists a b : ExportProgress float,
      events (snd (run_export (aborting_env 11) (one_clip_timeline 1) getDefaultSettings))
        !! 2%nat = Some a
      /\ events (snd (run_export (aborting_env 11) (one_clip_timeline 1)
                                 getDefaultSettings))
           !! 3%nat = Some b
      /\ currentFrame a = 10 /\ stage a = processing /\ stage b = error
      /\ nltb (percentage b) (percentage a) = true.
Proof.
  split; [vm_compute; reflexivity|].
  eexists. eexists. vm_compute. repeat split; reflexivity.
Qed.

(** The hypothesis of C8's percentage part holds of a run, and the part
    applies to it: a one-second timeline at the default 30 fps. *)
Lemma progress_of_a_one_second_export_is_monotone :
  0 < Math_ceil (nmul (timeline_duration (one_clip_timeline 1))
                      (fps (getDefaultSettings (num:=Q))))
  /\ percentages_nondecreasing
       (events (snd (run_export untroubled_env (one_clip_timeline 1) getDefaultSettings))).
Proof.
  split; [reflexivity|].
  refine (proj2 (proj1 (proj2 (progress_goes_forward_and_error_resets_percentage
                                 untroubled_env (one_clip_timeline 1) getDefaultSettings))
                     _) _ _).
  - reflexivity.
  - vm_compute. reflexivity.
Defined.

(** ** Export engine: the submitted frames *)

(** Without an abort or an encoder failure, [processVideo] submits the
    [N + 1] frames of the indices [0 .. N], in that order, each as
    [frame_of] computes it. *)
Lemma processVideo_submits_every_frame {num : Type} `{JSNumber num}
    (env : ExportEnv) (settings : ExportSettings num) (N : Z) :
  encoderConfigured env = true ->
  0 <= N + 1 -> loop_unbroken env N -> flushed env = true ->
  submitted (snd (processVideo env settings N initial_state))
  = map (frame_of env settings) (seqZ 0 (N + 1)).
Proof.
  intros Hconf HN Hok Hflush.
  rewrite (processVideo_unbroken env settings N initial_state) by assumption.
  reflexivity.
Qed.

(** *** The exact reading of a frame *)

Lemma Qfloor_div_Z (a b : Z) : 0 < b -> Qfloor (inject_Z a / inject_Z b) = a / b.
Proof.
  intros Hb. destruct b as [|p|p]; try lia.
  rewrite <- (Qfloor_comp _ _ (Qmake_Qdiv a p)). reflexivity.
Qed.

Lemma inject_Z_nonzero (b : Z) : 0 < b -> ~ (inject_Z b == 0)%Q.
Proof.
  intros Hb Hz. pose proof (inject_Z_pos b Hb) as Hpos.
  rewrite Hz in Hpos. exact (Qlt_irrefl _ Hpos).
Qed.

Lemma Q_rem_is_zero_Z (a b : Z) :
  0 < b -> Q_rem_is_zero (inject_Z a) (inject_Z b) = (a mod b =? 0).
Proof.
  intros Hb. unfold Q_rem_is_zero.
  pose proof (inject_Z_nonzero b Hb) as Hnz.
  assert (Hb0 : Qeq_bool (inject_Z b) 0 = false) by (apply Qeq_bool_false_neq; exact Hnz).
  rewrite Hb0. cbn [negb andb]. rewrite Qfloor_div_Z by exact Hb.
  destruct (a mod b =? 0) eqn:E.
  - apply Z.eqb_eq in E. apply Qeq_bool_iff.
    rewrite (Z.div_mod a b) at 2 by lia. rewrite E, Z.add_0_r.
    rewrite inject_Z_mult. field. exact Hnz.
  - apply Z.eqb_neq in E. apply Qeq_bool_false_neq. intros Heq. apply E.
    assert (Hmul : (inject_Z (a / b) * inject_Z b == inject_Z a)%Q).
    { rewrite Heq. field. exact Hnz. }
    rewrite <- inject_Z_mult in Hmul.
    unfold Qeq, inject_Z in Hmul. cbn [Qnum Qden] in Hmul.
    rewrite !Z.mul_1_r in Hmul.
    rewrite <- Hmul. apply Z.mod_mul. lia.
Qed.

(** In the exact reading, at a whole positive frame rate [f], frame [k] is
    what C1 says: its timestamp is [floor (k * 1e6 / f)], its duration
    [floor (1e6 / f)], and its key-frame flag is set exactly when
    [k mod (3 * f) = 0]. *)
Lemma frame_of_exact (env : ExportEnv) (settings : ExportSettings Q) (f k : Z) :
  0 < f -> fps settings = inject_Z f ->
  frame_timestamp (frame_of env settings k) = k * 1000000 / f
  /\ frame_duration (frame_of env settings k) = 1000000 / f
  /\ frame_keyFrame (frame_of env settings k) = (k mod (3 * f) =? 0).
Proof.
  intros Hf Hfps.
  cbn [frame_of frame_timestamp frame_duration frame_keyFrame
       Math_floor nrem_is_zero nmul ndiv num_of_Z ExactNumber].
  rewrite Hfps. split; [|split].
  - rewrite <- (Qfloor_div_Z (k * 1000000) f) by exact Hf.
    apply Qfloor_comp. rewrite inject_Z_mult. field. apply inject_Z_nonzero. exact Hf.
  - apply Qfloor_div_Z. exact Hf.
  - rewrite <- inject_Z_mult. apply Q_rem_is_zero_Z. lia.
Qed.

(** The timestamps of the exact reading increase strictly with the frame
    index, at any whole frame rate up to a million. *)
Lemma exact_timestamps_increase (f k : Z) :
  0 < f <= 1000000 -> 0 <= k -> k * 1000000 / f < (k + 1) * 1000000 / f.
Proof.
  intros Hf Hk.
  assert (Hstep : k * 1000000 / f + 1 <= (k + 1) * 1000000 / f).
  { replace (k * 1000000 / f + 1) with ((k * 1000000 + 1 * f) / f)
      by (rewrite Z.div_add by lia; reflexivity).
    apply Z.div_le_mono; lia. }
  lia.
Qed.

(** C1, on binary64.  At the default 30 fps the export of a valid
    five-second timeline submits its 151 frames, and the frame of index 123
    carries the timestamp 4099999,
    one microsecond short of [floor (123 * 1e6 / 30) = 4100000]: the
    quotient [123 / 30] is rounded before it is scaled. *)
Theorem frame_123_at_30_fps_is_stamped_one_microsecond_early :
  validateTimelineData (one_clip_timeline (num:=float) 5) = []
  /\ length (submitted (snd (run_export (num:=float) untroubled_env (one_clip_timeline 5)
                                         getDefaultSettings))) = 151%nat
  /\ option_map frame_timestamp
       (submitted (snd (run_export (num:=float) untroubled_env (one_clip_timeline 5)
                                   getDefaultSettings)) !! 123%nat)
     = Some 4099999
  /\ 123 * 1000000 / 30 = 4100000
  /\ frame_timestamp (frame_of untroubled_env (getDefaultSettings (num:=Q)) 123)
     = 4100000.
Proof. vm_compute. repeat split; reflexivity. Qed.

(** ** Media renderer *)

(** What the media path draws for an active element whose image is loaded:
    one rectangle at the origin whose sides are the canvas sides scaled once
    more by the context's transform, which [applyElementProperties] has set
    to the resolution. *)
Lemma media_render_draws_scaled_twice {num : Type} `{JSNumber num}
    (settings : ExportSettings num) (element : ExportElement num) (t : num)
    (seek_completes : bool) :
  isElementActive element t = true ->
  drawn (media_render settings (Some HTMLImageElement) seek_completes element t new_context)
  = [ {| rect_x := nmul (num_of_Z 0) (nmul (num_of_Z 1) (resolution settings));
         rect_y := nmul (num_of_Z 0) (nmul (num_of_Z 1) (resolution settings));
         rect_w := nmul (nmul (width settings) (resolution settings))
                        (nmul (num_of_Z 1) (resolution settings));
         rect_h := nmul (nmul (height settings) (resolution settings))
                        (nmul (num_of_Z 1) (resolution settings)) |} ].
Proof.
  intros Hact. unfold media_render. rewrite Hact. cbn [negb].
  unfold applyElementProperties, restoreContext, renderImage.
  destruct (opacity element), (blendMode element); reflexivity.
Qed.

(** C6, on binary64.  On the 3840 x 2160 surface of a 1920 x 1080 project
    at resolution 2, the media renderer draws a video frame into the
    rectangle (0, 0, 7680, 4320) in device pixels: the canvas-filling size
    is computed and then scaled again by the transform. *)
Theorem media_renderer_overscales_at_resolution_2 :
  drawn (media_render settings_4k (Some (HTMLVideoElement 1%float)) true
                      untrimmed_clip 1%float new_context)
  = [ {| rect_x := 0%float; rect_y := 0%float;
         rect_w := 7680%float; rect_h := 4320%float |} ]
  /\ canvas_width settings_4k = 3840
  /\ canvas_height settings_4k = 2160.
Proof. vm_compute. repeat split; reflexivity. Qed.

(** C7, as the code has it.  [seekVideo] reuses the current frame exactly
    when the distance of the video's current time from the requested time is
    below 1/60 s, both as the program computes them, and seeks to the
    requested time otherwise; the output frame rate plays no part: [render]
    does the same under settings that differ in [fps] only.  For an output
    rate whose frame period is not below that 1/60 s a reuse therefore
    happens only within one output-frame period.  This holds of the doubles
    as of the rationals. *)
Theorem seekVideo_reuses_within_one_sixtieth_of_a_second {num : Type} `{JSNumberLaws num}
    (currentTime tau : num) :
  (seekVideo currentTime tau = ReuseCurrentFrame
   <-> nltb (Math_abs (nsub currentTime tau)) (ndiv (num_of_Z 1) (num_of_Z 60)) = true)
  /\ (seekVideo currentTime tau = SeekTo tau
      <-> nltb (Math_abs (nsub currentTime tau)) (ndiv (num_of_Z 1) (num_of_Z 60)) = false)
  /\ (forall (settings : ExportSettings num) (fps_out : num)
             (loaded : option (LoadedMedia num)) (seek_completes : bool)
             (element : ExportElement num) (timestamp : num) (c : CanvasContext num),
        media_render (with_fps settings fps_out) loaded seek_completes element timestamp c
        = media_render settings loaded seek_completes element timestamp c)
  /\ (forall fps_out : num,
        nleb (ndiv (num_of_Z 1) (num_of_Z 60)) (ndiv (num_of_Z 1) fps_out) = true ->
        seekVideo currentTime tau = ReuseCurrentFrame ->
        nltb (Math_abs (nsub currentTime tau)) (ndiv (num_of_Z 1) fps_out) = true).
Proof.
  assert (Hcases :
    nltb (Math_abs (nsub currentTime tau)) (ndiv (num_of_Z 1) (num_of_Z 60)) = true
    /\ seekVideo currentTime tau = ReuseCurrentFrame
    \/ nltb (Math_abs (nsub currentTime tau)) (ndiv (num_of_Z 1) (num_of_Z 60)) = false
       /\ seekVideo currentTime tau = SeekTo tau).
  { unfold seekVideo. cbv zeta.
    destruct (nltb (Math_abs (nsub currentTime tau)) (ndiv (num_of_Z 1) (num_of_Z 60)));
      [left|right]; split; reflexivity. }
  split; [|split; [|split]].
  - destruct Hcases as [[Hlt ->]|[Hge ->]]; split; intros Hx;
      try reflexivity; try discriminate; congruence.
  - destruct Hcases as [[Hlt ->]|[Hge ->]]; split; intros Hx;
      try reflexivity; try discriminate; congruence.
  - intros settings fps_out loaded seek_completes element timestamp c. reflexivity.
  - intros fps_out Hperiod Hreuse.
    destruct Hcases as [[Hlt _]|[_ Hseek]]; [|congruence].
    exact (nltb_nleb_trans _ _ _ Hlt Hperiod).
Qed.

(** C7 on binary64: at 30 fps, whose period is above 1/60 s, a video 10 ms
    away from the requested time is reused, within the output-frame period;
    a video exactly the double 1/60 away is sought. *)
Lemma seekVideo_reuse_at_30_fps_is_within_a_period :
  nleb (ndiv (num_of_Z 1) (num_of_Z 60)) (ndiv (num_of_Z 1) (num_of_Z 30)) = true
  /\ seekVideo 0%float (1 / 100)%float = ReuseCurrentFrame
  /\ nltb (Math_abs (nsub 0 (1 / 100)))%float (ndiv (num_of_Z 1) (num_of_Z 30)) = true
  /\ seekVideo 0%float (1 / 60)%float = SeekTo (1 / 60)%float.
Proof.
  destruct (seekVideo_reuses_within_one_sixtieth_of_a_second 0%float (1 / 100)%float)
    as (Hreuse & _ & _ & Hperiod).
  destruct (seekVideo_reuses_within_one_sixtieth_of_a_second 0%float (1 / 60)%float)
    as (_ & Hseek & _).
  split; [vm_compute; reflexivity|].
  split; [apply Hreuse; vm_compute; reflexivity|].
  split.
  - apply Hperiod; [vm_compute; reflexivity|]. apply Hreuse. vm_compute. reflexivity.
  - apply Hseek. vm_compute. reflexivity.
Defined.

(** C7 as stated fails: at an output rate of 120 fps a video whose current
    time is 10 ms away from the requested time -- more than the output-frame
    period of 8.33 ms -- is reused, not sought. *)
Lemma seekVideo_reuses_beyond_a_120_fps_period :
  seekVideo (num:=float) (num_of_Z 0) (ndiv (num_of_Z 1) (num_of_Z 100))
  = ReuseCurrentFrame
  /\ nltb (num:=float) (ndiv (num_of_Z 1) (num_of_Z 120))
          (Math_abs (nsub (num_of_Z 0) (ndiv (num_of_Z 1) (num_of_Z 100)))) = true.
Proof. vm_compute. repeat split; reflexivity. Qed.

(** ** Audio mixer: one channel *)

Section MixChannel.
Context {num : Type} `{JSNumber num}.

Lemma addClamped_length (outputData : list num) (idx : Z) (s : num) :
  length (addClamped outputData idx s) = length outputData.
Proof.
  unfold addClamped. destruct (idx <? 0); [reflexivity|].
  destruct (outputData !! Z.to_nat idx); [|reflexivity].
  apply length_insert.
Qed.

Lemma addClamped_lookup (outputData : list num) (idx : Z) (s : num) (j : nat) :
  addClamped outputData idx s !! j
  = (fun o => if idx =? Z.of_nat j then clampSample (Math_fround (nadd o s)) else o)
      <$> outputData !! j.
Proof.
  unfold addClamped. destruct (idx <? 0) eqn:Hneg.
  - apply Z.ltb_lt in Hneg.
    destruct (idx =? Z.of_nat j) eqn:E; [apply Z.eqb_eq in E; lia|].
    destruct (outputData !! j); reflexivity.
  - apply Z.ltb_ge in Hneg.
    destruct (outputData !! Z.to_nat idx) as [o|] eqn:Hidx.
    + destruct (idx =? Z.of_nat j) eqn:E.
      * apply Z.eqb_eq in E. assert (Z.to_nat idx = j) as <- by lia.
        rewrite list_lookup_insert_eq by (eapply lookup_lt_Some; exact Hidx).
        rewrite Hidx. reflexivity.
      * apply Z.eqb_neq in E.
        rewrite list_lookup_insert_ne by lia.
        destruct (outputData !! j); reflexivity.
    + destruct (idx =? Z.of_nat j) eqn:E.
      * apply Z.eqb_eq in E. assert (Z.to_nat idx = j) as <- by lia.
        rewrite Hidx. reflexivity.
      * destruct (outputData !! j); reflexivity.
Qed.

Lemma mixLoop_length (fuel : nat) (i start trimS dur : Z) (src out : list num) :
  length (mixLoop fuel i start trimS dur src out) = length out.
Proof.
  revert i out. induction fuel as [|fuel IH]; intros i out; cbn [mixLoop].
  - reflexivity.
  - destruct ((i <? dur) && (start + i <? Z.of_nat (length out))); [|reflexivity].
    rewrite IH.
    destruct ((trimS + i <? Z.of_nat (length src)) && (trimS + i >=? 0));
      [|reflexivity].
    destruct (src !! Z.to_nat (trimS + i)); [|reflexivity].
    apply addClamped_length.
Qed.

(** The loop from [i] on, with fuel for the rest of the effective length,
    leaves each output position with the sample the claim gives it. *)
Lemma mixLoop_lookup (fuel : nat) (i start trimS dur : Z) (src out : list num) (j : nat) :
  0 <= i -> dur - i <= Z.of_nat fuel ->
  mixLoop fuel i start trimS dur src out !! j
  = mixed_sample_from i start trimS dur src (Z.of_nat j) <$> out !! j.
Proof.
  revert i out. induction fuel as [|fuel IH]; intros i out Hi Hfuel; cbn [mixLoop].
  - unfold mixed_sample_from.
    destruct ((start + i <=? Z.of_nat j) && (Z.of_nat j <? start + dur)) eqn:E.
    + apply andb_true_iff in E. destruct E as [E1 E2].
      apply Z.leb_le in E1. apply Z.ltb_lt in E2. lia.
    + destruct (out !! j); reflexivity.
  - destruct ((i <? dur) && (start + i <? Z.of_nat (length out))) eqn:Hcond.
    + apply andb_true_iff in Hcond. destruct Hcond as [Hc1 Hc2].
      apply Z.ltb_lt in Hc1. apply Z.ltb_lt in Hc2.
      rewrite IH by lia.
      assert (Hstep :
        (if (trimS + i <? Z.of_nat (length src)) && (trimS + i >=? 0)
         then match src !! Z.to_nat (trimS + i) with
              | Some s => addClamped out (start + i) s
              | None => out
              end
         else out) !! j
        = (fun o => if start + i =? Z.of_nat j
                    then match zlookup src (trimS + i) with
                         | Some s => clampSample (Math_fround (nadd o s))
                         | None => o
                         end
                    else o) <$> out !! j).
      { unfold zlookup.
        destruct ((trimS + i <? Z.of_nat (length src)) && (trimS + i >=? 0)) eqn:Hg.
        - apply andb_true_iff in Hg. destruct Hg as [Hg1 Hg2].
          apply Z.geb_le in Hg2.
          assert (Hz : (trimS + i <? 0) = false) by (apply Z.ltb_ge; lia).
          rewrite Hz.
          destruct (src !! Z.to_nat (trimS + i)) as [s|].
          + apply addClamped_lookup.
          + destruct (out !! j); simpl; [|reflexivity].
            destruct (start + i =? Z.of_nat j); reflexivity.
        - assert (Hnone : (if trimS + i <? 0 then None
                           else src !! Z.to_nat (trimS + i)) = None).
          { destruct (trimS + i <? 0) eqn:Hz; [reflexivity|].
            apply Z.ltb_ge in Hz. apply lookup_ge_None.
            apply andb_false_iff in Hg. destruct Hg as [Hg|Hg].
            - apply Z.ltb_ge in Hg. lia.
            - rewrite Z.geb_leb in Hg. apply Z.leb_gt in Hg. lia. }
          rewrite Hnone.
          destruct (out !! j); simpl; [|reflexivity].
          destruct (start + i =? Z.of_nat j); reflexivity. }
      rewrite Hstep. destruct (out !! j) as [o|]; simpl; [|reflexivity].
      f_equal. unfold mixed_sample_from.
      destruct (start + i =? Z.of_nat j) eqn:Ej.
      * apply Z.eqb_eq in Ej.
        assert (E1 : (start + (i + 1) <=? Z.of_nat j) = false)
          by (apply Z.leb_gt; lia).
        assert (E2 : (start + i <=? Z.of_nat j) = true) by (apply Z.leb_le; lia).
        assert (E3 : (Z.of_nat j <? start + dur) = true) by (apply Z.ltb_lt; lia).
        rewrite E1, E2, E3. simpl.
        replace (trimS + (Z.of_nat j - start)) with (trimS + i) by lia.
        reflexivity.
      * apply Z.eqb_neq in Ej.
        assert (E1 : (start + (i + 1) <=? Z.of_nat j) = (start + i <=? Z.of_nat j)).
        { destruct (start + i <=? Z.of_nat j) eqn:E.
          - apply Z.leb_le in E. apply Z.leb_le. lia.
          - apply Z.leb_gt in E. apply Z.leb_gt. lia. }
        rewrite E1. reflexivity.
    + destruct (out !! j) as [o|] eqn:Hj; simpl; [|reflexivity].
      f_equal. unfold mixed_sample_from.
      destruct ((start + i <=? Z.of_nat j) && (Z.of_nat j <? start + dur)) eqn:E;
        [|reflexivity].
      apply andb_true_iff in E. destruct E as [E1 E2].
      apply Z.leb_le in E1. apply Z.ltb_lt in E2.
      apply lookup_lt_Some in Hj.
      apply andb_false_iff in Hcond. destruct Hcond as [Hc|Hc].
      * apply Z.ltb_ge in Hc. lia.
      * apply Z.ltb_ge in Hc. lia.
Qed.

(** [mixChannel] in closed form. *)
Lemma mixChannel_imap (start trimS dur : Z) (src out : list num) :
  mixChannel start trimS dur src out
  = imap (fun j o => mixed_sample start trimS dur src (Z.of_nat j) o) out.
Proof.
  apply list_eq. intros j. unfold mixChannel.
  rewrite mixLoop_lookup by lia. rewrite list_lookup_imap.
  destruct (out !! j); simpl; [|reflexivity].
  unfold mixed_sample_from, mixed_sample. rewrite Z.add_0_r. reflexivity.
Qed.
End MixChannel.

(** ** Audio mixer: one element *)

Section MixElement.
Context {num : Type} `{JSNumber num}.

Lemma channel_loop_beyond (start trimS dur : Z) (srcs channels : list (list num))
    (n k : nat) :
  (n <= k)%nat ->
  foldl (channel_step start trimS dur srcs) channels (seq 0 n) !! k = channels !! k.
Proof.
  induction n as [|n IH]; intros Hk; [reflexivity|].
  rewrite seq_S, foldl_app. cbn [foldl Nat.add]. unfold channel_step at 1.
  destruct (_ !! n) as [o|]; [|apply IH; lia].
  destruct (srcs !! n); [|apply IH; lia].
  rewrite list_lookup_insert_ne by lia. apply IH. lia.
Qed.

(** The channel loop: the first [n] channels are mixed, the rest stay. *)
Lemma channel_loop_lookup (start trimS dur : Z) (srcs channels : list (list num))
    (n c : nat) :
  foldl (channel_step start trimS dur srcs) channels (seq 0 n) !! c
  = if (c <? n)%nat
    then match channels !! c, srcs !! c with
         | Some outputData, Some sourceData =>
             Some (mixChannel start trimS dur sourceData outputData)
         | _, _ => channels !! c
         end
    else channels !! c.
Proof.
  induction n as [|n IH]; [reflexivity|].
  rewrite seq_S, foldl_app. cbn [foldl Nat.add].
  pose proof (channel_loop_beyond start trimS dur srcs channels n n (Nat.le_refl n))
    as Hn.
  unfold channel_step at 1. rewrite Hn.
  destruct (Nat.eq_dec c n) as [->|Hne].
  - rewrite (proj2 (Nat.ltb_lt n (S n))) by lia.
    destruct (channels !! n) as [outputData|] eqn:Hout; [|exact Hn].
    destruct (srcs !! n) as [sourceData|]; [|exact Hn].
    apply list_lookup_insert_eq. apply lookup_lt_is_Some. rewrite Hn. eauto.
  - assert (Hsame : (c <? S n)%nat = (c <? n)%nat).
    { destruct (c <? n)%nat eqn:E.
      - apply Nat.ltb_lt in E. apply Nat.ltb_lt. lia.
      - apply Nat.ltb_ge in E. apply Nat.ltb_ge. lia. }
    rewrite Hsame, <- IH.
    destruct (channels !! n); [|reflexivity].
    destruct (srcs !! n); [|reflexivity].
    apply list_lookup_insert_ne. congruence.
Qed.

(** [mixInto] in closed form: channel by channel, sample by sample. *)
Lemma mixInto_channels (outputBuffer processedBuffer : AudioBuffer num)
    (element : ExportElement num) :
  channelData (mixInto outputBuffer processedBuffer element)
  = imap (mixed_channel outputBuffer processedBuffer element) (channelData outputBuffer).
Proof.
  apply list_eq. intros c.
  change (channelData (mixInto outputBuffer processedBuffer element))
    with (foldl (channel_step (offsetOf outputBuffer element)
                              (trimStartSOf outputBuffer element)
                              (effectiveLengthOf outputBuffer processedBuffer element)
                              (channelData processedBuffer))
                (channelData outputBuffer)
                (seq 0 (Nat.min (buf_numberOfChannels outputBuffer)
                                (buf_numberOfChannels processedBuffer)))).
  rewrite channel_loop_lookup, list_lookup_imap.
  unfold mixed_channel.
  destruct (c <? Nat.min (buf_numberOfChannels outputBuffer)
                         (buf_numberOfChannels processedBuffer))%nat;
    [|destruct (channelData outputBuffer !! c); reflexivity].
  destruct (channelData outputBuffer !! c) as [outputData|]; [|reflexivity].
  destruct (channelData processedBuffer !! c) as [sourceData|]; [|reflexivity].
  cbn. rewrite mixChannel_imap. reflexivity.
Qed.

Lemma mixInto_shape (outputBuffer processedBuffer : AudioBuffer num)
    (element : ExportElement num) :
  buf_sampleRate (mixInto outputBuffer processedBuffer element)
  = buf_sampleRate outputBuffer
  /\ buf_length (mixInto outputBuffer processedBuffer element) = buf_length outputBuffer
  /\ length (channelData (mixInto outputBuffer processedBuffer element))
     = length (channelData outputBuffer)
  /\ (well_formed_buffer outputBuffer ->
      well_formed_buffer (mixInto outputBuffer processedBuffer element)).
Proof.
  split; [reflexivity|]. split; [reflexivity|]. split.
  - rewrite mixInto_channels. apply length_imap.
  - unfold well_formed_buffer. rewrite mixInto_channels. cbn [buf_length mixInto].
    intros Hwf. apply Forall_forall. intros ch Hch.
    apply list_elem_of_lookup in Hch. destruct Hch as [c Hc].
    rewrite list_lookup_imap in Hc.
    destruct (channelData outputBuffer !! c) as [outputData|] eqn:Hout; [|discriminate].
    inversion Hc; subst.
    assert (Hlen : Z.of_nat (length outputData) = buf_length outputBuffer).
    { rewrite Forall_forall in Hwf. apply Hwf.
      eapply list_elem_of_lookup_2. exact Hout. }
    unfold mixed_channel. destruct (_ <? _)%nat; [|exact Hlen].
    destruct (channelData processedBuffer !! c); [|exact Hlen].
    rewrite length_imap. exact Hlen.
Qed.

Lemma mixAudioElement_shape (env : AudioEnv num) (outputBuffer : AudioBuffer num)
    (element : ExportElement num) :
  buf_sampleRate (mixAudioElement env outputBuffer element)
  = buf_sampleRate outputBuffer
  /\ buf_length (mixAudioElement env outputBuffer element) = buf_length outputBuffer
  /\ length (channelData (mixAudioElement env outputBuffer element))
     = length (channelData outputBuffer)
  /\ (well_formed_buffer outputBuffer ->
      well_formed_buffer (mixAudioElement env outputBuffer element)).
Proof.
  assert (Hsame : buf_sampleRate outputBuffer = buf_sampleRate outputBuffer
                  /\ buf_length outputBuffer = buf_length outputBuffer
                  /\ length (channelData outputBuffer) = length (channelData outputBuffer)
                  /\ (well_formed_buffer outputBuffer -> well_formed_buffer outputBuffer))
    by (repeat split; auto).
  unfold mixAudioElement.
  destruct (payload element) as [m|?|?| |?]; try exact Hsame.
  destruct (processedBufferOf env outputBuffer m);
    [apply mixInto_shape|exact Hsame].
Qed.

(** With a well-formed source and trims that are not negative, every
    position of the element's window has its source sample: the guard of
    the loop never skips one. *)
Lemma source_sample_available (outputBuffer processedBuffer : AudioBuffer num)
    (element : ExportElement num) (c : nat) (sourceData : list num) (j : Z) :
  well_formed_buffer processedBuffer ->
  0 <= trimStartSOf outputBuffer element ->
  0 <= trimEndSOf outputBuffer element ->
  channelData processedBuffer !! c = Some sourceData ->
  offsetOf outputBuffer element <= j
    < offsetOf outputBuffer element
      + effectiveLengthOf outputBuffer processedBuffer element ->
  is_Some (zlookup sourceData
             (trimStartSOf outputBuffer element + (j - offsetOf outputBuffer element))).
Proof.
  intros Hwf Hts Hte Hsrc Hj. unfold effectiveLengthOf in Hj.
  assert (Hlen : Z.of_nat (length sourceData) = buf_length processedBuffer).
  { unfold well_formed_buffer in Hwf. rewrite Forall_forall in Hwf. apply Hwf.
    eapply list_elem_of_lookup_2. exact Hsrc. }
  unfold zlookup.
  assert (Hz : (trimStartSOf outputBuffer element
                + (j - offsetOf outputBuffer element) <? 0) = false)
    by (apply Z.ltb_ge; lia).
  rewrite Hz. apply lookup_lt_is_Some. lia.
Qed.
End MixElement.

(** ** Audio mixer: the whole timeline *)

Section ProcessAudio.
Context {num : Type} `{JSNumber num}.

Lemma foldl_mix_filter (env : AudioEnv num) (l : list (ExportElement num))
    (b : AudioBuffer num) :
  foldl (fun audioBuffer element =>
           if isAudioBearing element then mixAudioElement env audioBuffer element
           else audioBuffer) b l
  = foldl (mixAudioElement env) b (List.filter isAudioBearing l).
Proof.
  revert b. induction l as [|e l IH]; intros b; simpl; [reflexivity|].
  destruct (isAudioBearing e); simpl; apply IH.
Qed.

Lemma filter_none_of_existsb {A} (f : A -> bool) (l : list A) :
  existsb f l = false -> List.filter f l = [].
Proof.
  induction l as [|x l IH]; simpl; [reflexivity|].
  destruct (f x); simpl; [discriminate|exact IH].
Qed.

(** The track filter of [processAudio] drops no audio-bearing element: the
    two loops mix the audible elements of the timeline, in order. *)
Lemma track_loop_mixes_audible (env : AudioEnv num) (l : list (ExportTrack num))
    (b : AudioBuffer num) :
  foldl (fun audioBuffer track =>
           if muted track then audioBuffer
           else foldl (fun audioBuffer element =>
                         if isAudioBearing element
                         then mixAudioElement env audioBuffer element
                         else audioBuffer)
                      audioBuffer (elements track))
        b
        (List.filter (fun track => is_audio_track (track_type track)
                                   || existsb isAudioBearing (elements track)) l)
  = foldl (mixAudioElement env) b
          (flat_map (fun track => if muted track then []
                                  else List.filter isAudioBearing (elements track)) l).
Proof.
  revert b. induction l as [|t l IH]; intros b; cbn [List.filter flat_map];
    [reflexivity|].
  rewrite foldl_app.
  destruct (is_audio_track (track_type t) || existsb isAudioBearing (elements t)) eqn:E.
  - cbn [foldl]. rewrite IH. destruct (muted t); [reflexivity|].
    rewrite foldl_mix_filter. reflexivity.
  - rewrite IH. apply orb_false_iff in E. destruct E as [_ E].
    rewrite (filter_none_of_existsb _ _ E). destruct (muted t); reflexivity.
Qed.

Lemma processAudio_mixes_audible (env : AudioEnv num) (settings : ExportSettings num)
    (timelineData : TimelineExportData num) :
  (exists track, In track (tracks timelineData)
                 /\ (is_audio_track (track_type track)
                     || existsb isAudioBearing (elements track)) = true) ->
  1 <= Math_floor (numberOfChannels settings) ->
  1 <= Math_ceil (nmul (timeline_duration timelineData) (sampleRate settings)) ->
  bufferSupported env (Math_floor (numberOfChannels settings))
    (Math_ceil (nmul (timeline_duration timelineData) (sampleRate settings)))
    (sampleRate settings) = true ->
  processAudio env settings timelineData
  = AudioEncoded (foldl (mixAudioElement env) (silence settings timelineData)
                        (audible_elements timelineData)).
Proof.
  intros (track & Hin & Haudio) HC HL Hsup. unfold processAudio.
  assert (Hne : (length (List.filter
                           (fun track => is_audio_track (track_type track)
                                         || existsb isAudioBearing (elements track))
                           (tracks timelineData)) =? 0)%nat = false).
  { apply Nat.eqb_neq. intros Hz. apply length_zero_iff_nil in Hz.
    assert (Hf : In track (List.filter
                             (fun track => is_audio_track (track_type track)
                                           || existsb isAudioBearing (elements track))
                             (tracks timelineData)))
      by (apply filter_In; split; assumption).
    rewrite Hz in Hf. exact Hf. }
  rewrite Hne. unfold new_AudioBuffer.
  assert (Hok : (Math_floor (numberOfChannels settings) <? 1)
                || (Math_ceil (nmul (timeline_duration timelineData)
                                    (sampleRate settings)) <? 1) = false).
  { apply orb_false_iff. split; apply Z.ltb_ge; assumption. }
  rewrite Hok, Hsup. cbn [negb orb]. rewrite track_loop_mixes_audible. reflexivity.
Qed.

Lemma foldl_mix_shape (env : AudioEnv num) (l : list (ExportElement num))
    (b : AudioBuffer num) :
  buf_sampleRate (foldl (mixAudioElement env) b l) = buf_sampleRate b
  /\ buf_length (foldl (mixAudioElement env) b l) = buf_length b
  /\ length (channelData (foldl (mixAudioElement env) b l)) = length (channelData b)
  /\ (well_formed_buffer b -> well_formed_buffer (foldl (mixAudioElement env) b l)).
Proof.
  revert b. induction l as [|e l IH]; intros b; cbn [foldl].
  - repeat split; auto.
  - destruct (IH (mixAudioElement env b e)) as (H1 & H2 & H3 & H4).
    destruct (mixAudioElement_shape env b e) as (E1 & E2 & E3 & E4).
    repeat split; try congruence. auto.
Qed.

Lemma silence_well_formed (settings : ExportSettings num)
    (timelineData : TimelineExportData num) :
  0 <= Math_ceil (nmul (timeline_duration timelineData) (sampleRate settings)) ->
  well_formed_buffer (silence settings timelineData).
Proof.
  intros HL. unfold well_formed_buffer, silence. cbn [channelData buf_length].
  apply Forall_forall. intros ch Hch. apply elem_of_replicate in Hch.
  destruct Hch as [-> _]. rewrite length_replicate. lia.
Qed.
End ProcessAudio.

(** *** Clipping *)

Section Clipping.
Context {num : Type} `{JSNumberLaws num}.

(** The two clamping statements leave a number that is not NaN in
    [-1, 1]. *)
Lemma clampSample_in_unit_range (v : num) :
  neqb v v = true -> in_unit_range (clampSample v).
Proof.
  intros Hv. destruct unit_constants as (Hmm & Hm0 & Hm1 & H01 & H11 & Hlt).
  assert (H1d : neqb (num_of_Z 1) (num_of_Z 1) = true)
    by (apply (nleb_defined _ _ H11)).
  assert (Hmd : neqb (num_of_Z (-1)) (num_of_Z (-1)) = true)
    by (apply (nleb_defined _ _ Hmm)).
  unfold clampSample, in_unit_range, ngtb.
  destruct (nltb (num_of_Z 1) v) eqn:E1.
  - rewrite Hlt. split; assumption.
  - destruct (nltb v (num_of_Z (-1))) eqn:E2.
    + split; assumption.
    + split; apply nleb_total; assumption.
Qed.

Lemma mixed_sample_in_unit_range (offset trimStartS eff : Z) (src : list num)
    (j : Z) (o : num) :
  Forall (fun s => neqb s s = true) src ->
  in_unit_range o -> in_unit_range (mixed_sample offset trimStartS eff src j o).
Proof.
  intros Hsrc Ho. unfold mixed_sample. destruct (_ && _); [|exact Ho].
  destruct (zlookup src _) as [s|] eqn:Hs; [|exact Ho].
  apply clampSample_in_unit_range. destruct Ho as [Hlo Hhi].
  apply fround_nadd_defined; [exact Hlo|exact Hhi|].
  unfold zlookup in Hs. destruct (_ <? 0); [discriminate|].
  rewrite Forall_forall in Hsrc. apply Hsrc.
  eapply list_elem_of_lookup_2. exact Hs.
Qed.

Lemma processedBufferOf_defined (env : AudioEnv num) (b processedBuffer : AudioBuffer num)
    (m : MediaFields) :
  sources_defined env ->
  processedBufferOf env b m = Some processedBuffer ->
  Forall (Forall (fun s => neqb s s = true)) (channelData processedBuffer).
Proof.
  intros [Hdec Hres]. unfold processedBufferOf.
  destruct (opt_missing (file m) && optstr_falsy (url m)); [discriminate|].
  destruct (decodeAudioData env m) as [sourceBuffer|] eqn:Hd; [|discriminate].
  destruct (negb (neqb (buf_sampleRate sourceBuffer) (buf_sampleRate b))).
  - destruct (startRendering env sourceBuffer _ _) as [channels|] eqn:Hr; [|discriminate].
    intros [= <-]. cbn [channelData]. eapply Hres. exact Hr.
  - intros [= <-]. eapply Hdec. exact Hd.
Qed.

Lemma mixAudioElement_in_unit_range (env : AudioEnv num) (b : AudioBuffer num)
    (element : ExportElement num) :
  sources_defined env ->
  Forall (Forall in_unit_range) (channelData b) ->
  Forall (Forall in_unit_range) (channelData (mixAudioElement env b element)).
Proof.
  intros Henv Hb. unfold mixAudioElement.
  destruct (payload element) as [m|?|?| |?]; try exact Hb.
  destruct (processedBufferOf env b m) as [processedBuffer|] eqn:Hp; [|exact Hb].
  pose proof (processedBufferOf_defined env b processedBuffer m Henv Hp) as Hdef.
  rewrite mixInto_channels. apply Forall_forall. intros ch Hch.
  apply list_elem_of_lookup in Hch. destruct Hch as [c Hc].
  rewrite list_lookup_imap in Hc.
  destruct (channelData b !! c) as [outputData|] eqn:Hout; [|discriminate].
  inversion Hc; subst.
  assert (Hdata : Forall in_unit_range outputData).
  { rewrite Forall_forall in Hb. apply Hb. eapply list_elem_of_lookup_2. exact Hout. }
  unfold mixed_channel. destruct (_ <? _)%nat; [|exact Hdata].
  destruct (channelData processedBuffer !! c) as [sourceData|] eqn:Hsrc; [|exact Hdata].
  assert (Hsd : Forall (fun s => neqb s s = true) sourceData).
  { rewrite Forall_forall in Hdef. apply Hdef. eapply list_elem_of_lookup_2. exact Hsrc. }
  apply Forall_forall. intros x Hx.
  apply list_elem_of_lookup in Hx. destruct Hx as [j Hj].
  rewrite list_lookup_imap in Hj.
  destruct (outputData !! j) as [o|] eqn:Ho; [|discriminate].
  inversion Hj; subst. apply mixed_sample_in_unit_range; [exact Hsd|].
  rewrite Forall_forall in Hdata. apply Hdata. eapply list_elem_of_lookup_2. exact Ho.
Qed.

Lemma foldl_mix_in_unit_range (env : AudioEnv num) (l : list (ExportElement num))
    (b : AudioBuffer num) :
  sources_defined env ->
  Forall (Forall in_unit_range) (channelData b) ->
  Forall (Forall in_unit_range) (channelData (foldl (mixAudioElement env) b l)).
Proof.
  intros Henv. revert b. induction l as [|e l IH]; intros b Hb; cbn [foldl]; [exact Hb|].
  apply IH. apply mixAudioElement_in_unit_range; assumption.
Qed.

Lemma silence_in_unit_range (settings : ExportSettings num)
    (timelineData : TimelineExportData num) :
  Forall (Forall in_unit_range) (channelData (silence settings timelineData)).
Proof.
  destruct unit_constants as (_ & Hm0 & _ & H01 & _).
  unfold silence. cbn [channelData].
  apply Forall_forall. intros ch Hch. apply elem_of_replicate in Hch.
  destruct Hch as [-> _].
  apply Forall_forall. intros x Hx. apply elem_of_replicate in Hx.
  destruct Hx as [-> _]. split; assumption.
Qed.

(** What [mixAudioElement] mixes: the decoded source of the element, or the
    source resampled when its rate is not the output's; an element without
    file and URL, or whose source the browser does not decode or resample,
    is left out. *)
Lemma mixAudioElement_source (env : AudioEnv num) (outputBuffer : AudioBuffer num)
    (element : ExportElement num) (m : MediaFields) :
  payload element = MediaPayload m ->
  (opt_missing (file m) && optstr_falsy (url m) = true
   \/ decodeAudioData env m = None ->
   mixAudioElement env outputBuffer element = outputBuffer)
  /\ (forall sourceBuffer,
        opt_missing (file m) && optstr_falsy (url m) = false ->
        decodeAudioData env m = Some sourceBuffer ->
        (neqb (buf_sampleRate sourceBuffer) (buf_sampleRate outputBuffer) = true ->
         mixAudioElement env outputBuffer element
         = mixInto outputBuffer sourceBuffer element)
        /\ (neqb (buf_sampleRate sourceBuffer) (buf_sampleRate outputBuffer) = false ->
            mixAudioElement env outputBuffer element
            = match startRendering env sourceBuffer
                      (Math_ceil (nmul (buf_duration sourceBuffer)
                                       (buf_sampleRate outputBuffer)))
                      (buf_sampleRate outputBuffer) with
              | Some channels =>
                  mixInto outputBuffer
                          {| buf_sampleRate := buf_sampleRate outputBuffer;
                             buf_length :=
                               Math_ceil (nmul (buf_duration sourceBuffer)
                                               (buf_sampleRate outputBuffer));
                             channelData := channels |}
                          element
              | None => outputBuffer
              end)).
Proof.
  intros Hp. unfold mixAudioElement, processedBufferOf. rewrite Hp. split.
  - intros [Hno|Hdec].
    + rewrite Hno. reflexivity.
    + rewrite Hdec. destruct (_ && _); reflexivity.
  - intros sourceBuffer Hsrc Hdec. rewrite Hsrc, Hdec. split; intros Hrate; rewrite Hrate.
    + reflexivity.
    + cbn [negb]. destruct (startRendering env sourceBuffer _ _); reflexivity.
Qed.
End Clipping.



(** The condition on the sources is a real one: a source sample that is NaN
    passes both clamping tests and stays in the buffer. *)
Remark a_NaN_source_sample_is_not_clamped :
  neqb (clampSample (Math_fround (nadd 0%float PrimFloat.nan)))
       (clampSample (Math_fround (nadd 0%float PrimFloat.nan))) = false.
Proof. vm_compute. reflexivity. Qed.

(** ** The timeline transformer *)

Lemma Qmax_le_l (a b : Q) : (a <= Math_max a b)%Q.
Proof.
  cbn [Math_max ExactNumber]. destruct (Qltb a b) eqn:E.
  - apply Qltb_lt in E. lra.
  - lra.
Qed.

Lemma Qmax_le_r (a b : Q) : (b <= Math_max a b)%Q.
Proof.
  cbn [Math_max ExactNumber]. destruct (Qltb a b) eqn:E.
  - lra.
  - apply Qltb_ge in E. lra.
Qed.

Lemma Qmax_cases (a b : Q) : Math_max a b = a \/ Math_max a b = b.
Proof. cbn [Math_max ExactNumber]. destruct (Qltb a b); auto. Qed.

Lemma foldl_max_spec {A} (f : A -> Q) (l : list A) (m0 : Q) :
  (m0 <= foldl (fun m x => Math_max m (f x)) m0 l)%Q
  /\ (forall x, In x l -> (f x <= foldl (fun m x => Math_max m (f x)) m0 l)%Q)
  /\ (foldl (fun m x => Math_max m (f x)) m0 l = m0
      \/ exists x, In x l /\ foldl (fun m x => Math_max m (f x)) m0 l = f x).
Proof.
  revert m0. induction l as [|y l IH]; intros m0; cbn [foldl].
  - split; [lra|]. split; [intros x []|]. left. reflexivity.
  - destruct (IH (Math_max m0 (f y))) as (H1 & H2 & H3).
    pose proof (Qmax_le_l m0 (f y)) as Hl. pose proof (Qmax_le_r m0 (f y)) as Hr.
    split; [lra|]. split.
    + intros x [<-|Hx]; [lra|]. apply H2. exact Hx.
    + destruct H3 as [H3|(x & Hx & H3)].
      * rewrite H3. destruct (Qmax_cases m0 (f y)) as [->| ->].
        -- left. reflexivity.
        -- right. exists y. split; [left; reflexivity|reflexivity].
      * right. exists x. split; [right; exact Hx|exact H3].
Qed.

(** The two nested loops of [calculateTotalDuration] run over the elements
    of all tracks, in order. *)
Lemma calculateTotalDuration_flat {num} `{JSNumber num} (tracks : list (ExportTrack num)) :
  calculateTotalDuration tracks
  = foldl (fun m element => Math_max m (elementEnd element)) (num_of_Z 0)
          (flat_map elements tracks).
Proof.
  unfold calculateTotalDuration. generalize (num_of_Z 0) as m0.
  induction tracks as [|track l IH]; intros m0; cbn [foldl flat_map].
  - reflexivity.
  - rewrite IH, foldl_app. reflexivity.
Qed.

(** X1.  The duration the transformer computes is never negative, is no
    less than the trimmed end [startTime + (duration - trimStart - trimEnd)]
    of any element, and is either 0 or the trimmed end of one of the
    elements. *)
Theorem total_duration_is_the_latest_trimmed_end (tracks : list (ExportTrack Q)) :
  (0 <= calculateTotalDuration tracks)%Q
  /\ (forall track element,
        In track tracks -> In element (elements track) ->
        (elementEnd element <= calculateTotalDuration tracks)%Q)
  /\ (calculateTotalDuration tracks = 0%Q
      \/ exists track element,
           In track tracks /\ In element (elements track)
           /\ calculateTotalDuration tracks = elementEnd element).
Proof.
  rewrite calculateTotalDuration_flat.
  destruct (foldl_max_spec elementEnd (flat_map elements tracks) (num_of_Z 0))
    as (H1 & H2 & H3).
  split; [exact H1|]. split.
  - intros track element Htrack Helement. apply H2.
    apply in_flat_map. exists track. split; assumption.
  - destruct H3 as [H3|(element & Hin & H3)]; [left; exact H3|].
    right. apply in_flat_map in Hin. destruct Hin as (track & Htrack & Helement).
    exists track, element. repeat split; assumption.
Qed.

Lemma find_first {A} (P : A -> bool) (l : list A) (x : A) :
  List.find P l = Some x ->
  exists before after,
    l = before ++ x :: after /\ Forall (fun y => P y = false) before /\ P x = true.
Proof.
  induction l as [|y l IH]; cbn [List.find]; [discriminate|].
  destruct (P y) eqn:E.
  - intros [= <-]. exists [], l. repeat split; [constructor|exact E].
  - intros Hfind. destruct (IH Hfind) as (before & after & -> & Hall & Hx).
    exists (y :: before), after. repeat split; [constructor; assumption|exact Hx].
Qed.

Lemma find_none_existsb {A} (P : A -> bool) (l : list A) :
  List.find P l = None <-> existsb P l = false.
Proof.
  induction l as [|y l IH]; cbn [List.find existsb]; [tauto|].
  destruct (P y); cbn [orb]; [split; discriminate|exact IH].
Qed.

Lemma transformElement_resolvable {num} `{JSNumber num}
    (mediaItems : list OpenCutMediaItem) (element : OpenCutTimelineElement num) :
  (resolvable mediaItems element = false -> transformElement element mediaItems = None)
  /\ (resolvable mediaItems element = true ->
      exists exported, transformElement element mediaItems = Some exported
                       /\ exported_from mediaItems element exported).
Proof.
  unfold resolvable, transformElement, transformMediaElement, exported_from.
  destruct (oc_kind element) as [element_mediaId|element_content element_opacity|].
  - split.
    + intros Hno. apply find_none_existsb in Hno. rewrite Hno. reflexivity.
    + intros Hyes.
      destruct (List.find _ mediaItems) as [mediaItem|] eqn:Efind.
      * destruct (find_first _ _ _ Efind) as (before & after & -> & Hall & Hx).
        eexists. split; [reflexivity|]. cbn. repeat split.
        exists before, mediaItem, after. repeat split.
        -- eapply Forall_impl; [exact Hall|]. intros item Hitem Heq.
           cbv beta in Hitem. apply String.eqb_neq in Hitem. contradiction.
        -- apply String.eqb_eq. exact Hx.
      * apply find_none_existsb in Efind. congruence.
  - split; [discriminate|]. intros _. eexists. split; [reflexivity|].
    cbn. repeat split.
  - split; [reflexivity|discriminate].
Qed.

Lemma omap_transformElement {num} `{JSNumber num}
    (mediaItems : list OpenCutMediaItem) (l : list (OpenCutTimelineElement num)) :
  Forall2 (exported_from mediaItems)
          (List.filter (resolvable mediaItems) l)
          (omap (fun element => transformElement element mediaItems) l).
Proof.
  induction l as [|element l IH]; cbn [List.filter omap list_omap]; [constructor|].
  destruct (transformElement_resolvable mediaItems element) as [Hno Hyes].
  destruct (resolvable mediaItems element).
  - destruct (Hyes eq_refl) as (exported & -> & Hfrom). constructor; assumption.
  - rewrite (Hno eq_refl). exact IH.
Qed.

(** X3.  The transformation keeps the tracks one for one, in order, with
    their id, name and type, and [muted] false when it was not given.  In a
    track it keeps exactly the resolvable elements -- the text elements and
    the media elements whose [mediaId] names a media item -- in their order,
    each with its identity and timing and with the data of the first such
    media item; every other element is dropped. *)
Theorem transform_keeps_the_resolvable_elements_in_order {num} `{JSNumber num}
    (timelineTracks : list (OpenCutTimelineTrack num))
    (mediaItems : list OpenCutMediaItem) (projectSettings : ProjectSettings num) :
  length (tracks (transform timelineTracks mediaItems projectSettings))
  = length timelineTracks
  /\ timeline_settings (transform timelineTracks mediaItems projectSettings)
     = Some projectSettings
  /\ forall (i : nat) (track : OpenCutTimelineTrack num),
       timelineTracks !! i = Some track ->
       exists exportTrack,
         tracks (transform timelineTracks mediaItems projectSettings) !! i
         = Some exportTrack
         /\ track_id exportTrack = oc_track_id track
         /\ track_name exportTrack = oc_track_name track
         /\ track_type exportTrack = oc_track_type track
         /\ muted exportTrack = default false (oc_muted track)
         /\ Forall2 (exported_from mediaItems)
                    (List.filter (resolvable mediaItems) (oc_elements track))
                    (elements exportTrack).
Proof.
  cbn [transform tracks timeline_settings]. split; [apply length_imap|].
  split; [reflexivity|]. intros i track Hi.
  exists (transformTrack i track mediaItems). split.
  - rewrite list_lookup_imap, Hi. reflexivity.
  - cbn [transformTrack track_id track_name track_type muted elements].
    repeat split. apply omap_transformElement.
Qed.

(** X3 at the small project: its second track keeps the clip. *)
Lemma small_project_keeps_its_clip :
  exists exportTrack,
    tracks (transform small_project small_project_media hd_project) !! 1%nat
    = Some exportTrack
    /\ Forall2 (exported_from small_project_media)
               [ {| oc_id := "clip"; oc_name := "clip";
                    oc_startTime := 0%Q; oc_duration := 3%Q;
                    oc_trimStart := (1 # 2)%Q; oc_trimEnd := (1 # 2)%Q;
                    oc_kind := OpenCutMedia "m1" |} ]
               (elements exportTrack).
Proof.
  destruct (proj2 (proj2 (transform_keeps_the_resolvable_elements_in_order
                            small_project small_project_media hd_project))
                  1%nat _ eq_refl)
    as (exportTrack & Hlookup & _ & _ & _ & _ & Helements).
  exists exportTrack. split; [exact Hlookup|exact Helements].
Defined.

(** ** The exporter: rejected projects *)

Lemma omap_none {A B} (f : A -> option B) (l : list A) :
  (forall x, In x l -> f x = None) -> omap f l = [].
Proof.
  induction l as [|x l IH]; intros Hall; cbn [omap list_omap]; [reflexivity|].
  rewrite (Hall x (or_introl eq_refl)). apply IH.
  intros y Hy. apply Hall. right. exact Hy.
Qed.

Lemma imap_In {A B} (f : nat -> A -> B) (l : list A) (y : B) :
  In y (imap f l) -> exists i x, In x l /\ y = f i x.
Proof.
  revert f. induction l as [|x l IH]; intros f; cbn [imap]; [intros []|].
  intros [<-|Hy].
  - exists 0%nat, x. split; [left; reflexivity|reflexivity].
  - destruct (IH _ Hy) as (i & x' & Hx' & ->).
    exists (S i), x'. split; [right; exact Hx'|reflexivity].
Qed.

(** A project of which no element survives is transformed into a timeline
    without elements. *)
Lemma transform_without_resolvable_elements {num} `{JSNumber num}
    (timelineTracks : list (OpenCutTimelineTrack num))
    (mediaItems : list OpenCutMediaItem) (projectSettings : ProjectSettings num) :
  (forall track element,
     In track timelineTracks -> In element (oc_elements track) ->
     resolvable mediaItems element = false) ->
  forall exportTrack,
    In exportTrack (tracks (transform timelineTracks mediaItems projectSettings)) ->
    elements exportTrack = [].
Proof.
  intros Hnone exportTrack Hin. cbn [transform tracks] in Hin.
  apply imap_In in Hin. destruct Hin as (i & track & Htrack & ->).
  cbn [transformTrack elements]. apply omap_none. intros element Helement.
  apply transformElement_resolvable. eapply Hnone; eassumption.
Qed.

Lemma flat_map_nil {A B} (f : A -> list B) (l : list A) :
  (forall x, In x l -> f x = []) -> flat_map f l = [].
Proof. intros Hall. apply flat_map_nil_iff. exact Hall. Qed.

(** X4.  When no element of a project survives the transformation (every
    media element names a media item that is gone, and there is no text),
    the transformed timeline has the duration 0, the validator reports both
    the missing duration and the missing elements, and [exportTimeline]
    rejects with that report, having called [onError] once and nothing
    else. *)
Theorem project_without_resolvable_elements_is_rejected
    (env : ExportEnv) (timelineTracks : list (OpenCutTimelineTrack Q))
    (mediaItems : list OpenCutMediaItem) (projectSettings : ProjectSettings Q)
    (options : OpenCutExportOptions Q) :
  (forall track element,
     In track timelineTracks -> In element (oc_elements track) ->
     resolvable mediaItems element = false) ->
  timeline_duration (transform timelineTracks mediaItems projectSettings) = 0%Q
  /\ In "Timeline duration must be greater than 0"
        (validateTimelineData (transform timelineTracks mediaItems projectSettings))
  /\ In "No elements found in timeline - add some media or text to export"
        (validateTimelineData (transform timelineTracks mediaItems projectSettings))
  /\ exportTimeline env timelineTracks mediaItems projectSettings options
     = (Thrown ("Timeline validation failed: "
                +:+ String.concat ", "
                      (validateTimelineData
                         (transform timelineTracks mediaItems projectSettings))),
        if options_onError options
        then [onError ("Timeline validation failed: "
                       +:+ String.concat ", "
                             (validateTimelineData
                                (transform timelineTracks mediaItems projectSettings)))]
        else []).
Proof.
  intros Hnone.
  pose proof (transform_without_resolvable_elements timelineTracks mediaItems
                projectSettings Hnone) as Hempty.
  assert (Hdur : timeline_duration (transform timelineTracks mediaItems projectSettings)
                 = 0%Q).
  { cbn [transform timeline_duration]. rewrite calculateTotalDuration_flat.
    rewrite flat_map_nil; [reflexivity|]. exact Hempty. }
  assert (Hcount :
    forallb (fun track => (length (elements track) =? 0)%nat)
            (tracks (transform timelineTracks mediaItems projectSettings)) = true).
  { apply forallb_forall. intros exportTrack Hin. rewrite (Hempty _ Hin). reflexivity. }
  assert (Hboth :
    In "Timeline duration must be greater than 0"
       (validateTimelineData (transform timelineTracks mediaItems projectSettings))
    /\ In "No elements found in timeline - add some media or text to export"
          (validateTimelineData (transform timelineTracks mediaItems projectSettings))).
  { unfold validateTimelineData. rewrite foldl_validateTrack, totalElements_zero_iff.
    rewrite Hdur, Hcount. cbn [Nat.eqb andb nleb num_of_Z ExactNumber].
    change (Qle_bool 0 (inject_Z 0)) with true. cbv iota.
    split; apply in_or_app; left.
    - destruct (length _ =? 0)%nat, (match timeline_settings _ with
                                     | Some s => _ | None => true end);
        cbn; tauto.
    - destruct (length _ =? 0)%nat, (match timeline_settings _ with
                                     | Some s => _ | None => true end);
        cbn; tauto. }
  split; [exact Hdur|]. split; [apply Hboth|]. split; [apply Hboth|].
  unfold exportTimeline, called.
  destruct (validateTimelineData (transform timelineTracks mediaItems projectSettings))
    as [|message errors]; [destruct (proj1 Hboth)|].
  cbn [length Nat.ltb Nat.leb]. reflexivity.
Qed.

(** The hypothesis of X4 holds of the project whose only clip names a media
    item that is gone, and the theorem applies to it. *)
Lemma orphan_project_is_rejected :
  (forall track element,
     In track orphan_project -> In element (oc_elements track) ->
     resolvable (num:=Q) [] element = false)
  /\ timeline_duration (transform orphan_project [] hd_project) = 0%Q.
Proof.
  assert (Hnone : forall track element,
     In track orphan_project -> In element (oc_elements track) ->
     resolvable (num:=Q) [] element = false).
  { intros track element [<-|[]] [<-|[]]. reflexivity. }
  split; [exact Hnone|].
  exact (proj1 (project_without_resolvable_elements_is_rejected
                  untroubled_env orphan_project [] hd_project no_options Hnone)).
Defined.

(** ** The exporter: callbacks *)

Lemma errors_reported_app {num} (a b : list (Callback num)) :
  errors_reported (a ++ b) = errors_reported a ++ errors_reported b.
Proof. unfold errors_reported. apply omap_app. Qed.

Lemma errors_reported_progress {num} (present : bool) (evs : list (ExportProgress num)) :
  errors_reported (called present (map onProgress evs)) = [].
Proof.
  unfold called. destruct present; [|reflexivity].
  induction evs as [|e evs IH]; [reflexivity|exact IH].
Qed.

(** After the validation the settings can be generated: a transformed
    timeline has its project settings. *)
Lemma generateExportSettings_of_transform {num : Type} `{JSNumber num} `{JSRemainder num}
    (timelineTracks : list (OpenCutTimelineTrack num))
    (mediaItems : list OpenCutMediaItem) (projectSettings : ProjectSettings num)
    (options : OpenCutExportOptions num) :
  exists exportSettings,
    generateExportSettings (transform timelineTracks mediaItems projectSettings) options
    = Some exportSettings.
Proof.
  unfold generateExportSettings. cbn [transform timeline_settings]. cbv zeta.
  eexists. reflexivity.
Qed.

(** What [export()] returns is what [saveBuffer] resolves with. *)
Lemma run_export_result {num : Type} `{JSNumber num}
    (env : ExportEnv) (timelineData : TimelineExportData num)
    (settings : ExportSettings num) (result : string) :
  fst (run_export env timelineData settings) = Returned result ->
  result = "File saved: " +:+ fileName settings
  \/ result = "Downloaded: " +:+ fileName settings.
Proof.
  intros Hrun.
  destruct (run_export_events env timelineData settings)
    as (m & tail & _ & _ & [(message & _ & Hout)|[[_ Hout]|(message & _ & Hout)]]);
    rewrite Hout in Hrun; try discriminate.
  injection Hrun as <-. unfold saveBuffer, StreamTarget_create.
  destruct (fileHandlePicked env); [left|right]; reflexivity.
Qed.

(** X5.  For a project that passes the validation, [exportTimeline] ends as
    the engine does, with the settings [generateExportSettings] makes.  When
    the engine's constructor throws, the caller's [onError] is called once
    and nothing else is.  When [export()] fails, [onError] is called twice
    with the same error: once by the listener of the engine's ['error'] event
    and once by the [catch] of [exportTimeline].  When [export()] returns,
    what it returns is what [saveBuffer] resolved with (['File saved: ...']
    or ['Downloaded: ...'] with the file name of the settings), [onError] is
    not called, and [onComplete], when given, is the last callback called,
    with that string. *)
Theorem onError_is_called_twice_when_the_engine_fails
    {num : Type} `{JSNumber num} `{JSRemainder num}
    (env : ExportEnv) (timelineTracks : list (OpenCutTimelineTrack num))
    (mediaItems : list OpenCutMediaItem) (projectSettings : ProjectSettings num)
    (options : OpenCutExportOptions num) :
  options_onError options = true ->
  validateTimelineData (transform timelineTracks mediaItems projectSettings) = [] ->
  exists exportSettings,
    generateExportSettings (transform timelineTracks mediaItems projectSettings) options
    = Some exportSettings
    /\ match constructorError env with
       | Some message =>
           exportTimeline env timelineTracks mediaItems projectSettings options
           = (Thrown message, [onError message])
       | None =>
           fst (exportTimeline env timelineTracks mediaItems projectSettings options)
           = fst (run_export env (transform timelineTracks mediaItems projectSettings)
                             exportSettings)
           /\ match fst (run_export env
                           (transform timelineTracks mediaItems projectSettings)
                           exportSettings) with
              | Returned result =>
                  (result = "File saved: " +:+ fileName exportSettings
                   \/ result = "Downloaded: " +:+ fileName exportSettings)
                  /\ errors_reported
                       (snd (exportTimeline env timelineTracks mediaItems
                                            projectSettings options))
                     = []
                  /\ (options_onComplete options = true ->
                      last (snd (exportTimeline env timelineTracks mediaItems
                                                projectSettings options))
                      = Some (onComplete result))
              | Thrown message =>
                  errors_reported
                    (snd (exportTimeline env timelineTracks mediaItems projectSettings
                                         options))
                  = [message; message]
              end
       end.
Proof.
  intros HonError Hvalid.
  destruct (generateExportSettings_of_transform timelineTracks mediaItems projectSettings
              options) as [exportSettings Hgen].
  exists exportSettings. split; [exact Hgen|].
  unfold exportTimeline. cbv zeta. rewrite Hvalid, Hgen. cbn [length Nat.ltb Nat.leb].
  destruct (constructorError env) as [message|].
  { rewrite HonError. reflexivity. }
  pose proof (run_export_result env (transform timelineTracks mediaItems projectSettings)
                exportSettings) as Hresult.
  destruct (run_export env (transform timelineTracks mediaItems projectSettings)
                       exportSettings) as [[result|message] engine]; cbn [fst snd] in *.
  - split; [reflexivity|]. split; [apply Hresult; reflexivity|]. split.
    + rewrite errors_reported_app, errors_reported_progress.
      unfold called. destruct (options_onComplete options); reflexivity.
    + intros ->. cbn [called]. apply last_snoc.
  - split; [reflexivity|].
    rewrite !errors_reported_app, errors_reported_progress, HonError. reflexivity.
Qed.

(** The hypotheses of X5 hold of the small project, and the theorem applies
    to it: exported in a browser in which the user aborts at frame 11, the
    error is reported twice. *)
Lemma aborted_small_project_reports_its_error_twice :
  options_onError no_options = true
  /\ validateTimelineData (transform small_project small_project_media hd_project) = []
  /\ errors_reported
       (snd (exportTimeline (aborting_env 11) small_project small_project_media
                            hd_project no_options))
     = ["User aborted rendering"; "User aborted rendering"].
Proof.
  split; [reflexivity|]. split; [vm_compute; reflexivity|].
  destruct (onError_is_called_twice_when_the_engine_fails
              (aborting_env 11) small_project small_project_media hd_project
              no_options eq_refl)
    as (exportSettings & Hsettings & Hcalls).
  - vm_compute. reflexivity.
  - vm_compute. reflexivity.
Defined.

(** ** The exporter: the settings it generates *)

Lemma num_or_nonzero (x d : Q) : ~ (x == 0)%Q -> num_or x d = x.
Proof.
  intros Hx. unfold num_or. cbn [nfalsy ExactNumber].
  apply Qeq_bool_false_neq in Hx. rewrite Hx. reflexivity.
Qed.

(** A given amount in a unit of [k] (Mbps, kbps), or [d] of them when
    nothing is given, clamped to [lo, hi]. *)
Lemma converted_field (lo hi k d d0 : Q) (given : option Q) :
  (0 < lo)%Q -> (lo < hi)%Q -> (0 < k)%Q -> (lo <= d * k)%Q -> (d * k <= hi)%Q ->
  (lo <= Math_max lo (Math_min hi (field_or (Some (field_or given d * k)%Q) d0))
   /\ Math_max lo (Math_min hi (field_or (Some (field_or given d * k)%Q) d0)) <= hi)%Q
  /\ (given = None ->
      (Math_max lo (Math_min hi (field_or (Some (field_or given d * k)%Q) d0)) == d * k)%Q)
  /\ (forall x, given = Some x -> (lo <= x * k)%Q -> (x * k <= hi)%Q ->
      (Math_max lo (Math_min hi (field_or (Some (field_or given d * k)%Q) d0)) == x * k)%Q).
Proof.
  intros Hlo Hlohi Hk Hd1 Hd2.
  split; [apply clamp_cases; exact Hlohi|]. split.
  - intros ->. cbn [field_or]. rewrite num_or_nonzero by nra.
    apply clamp_cases; [exact Hlohi|]. split; assumption.
  - intros x -> Hx1 Hx2. cbn [field_or].
    assert (Hx : ~ (x == 0)%Q) by nra.
    rewrite (num_or_nonzero x d Hx). rewrite num_or_nonzero by nra.
    apply clamp_cases; [exact Hlohi|]. split; assumption.
Qed.

(** A given number, or [d] when nothing is given, then [d0] when that is
    zero, clamped to [lo, hi]. *)
Lemma fallback_field (lo hi d d0 : Q) (given : option Q) :
  (0 < lo)%Q -> (lo < hi)%Q ->
  (lo <= Math_max lo (Math_min hi (field_or (Some (field_or given d)) d0))
   /\ Math_max lo (Math_min hi (field_or (Some (field_or given d)) d0)) <= hi)%Q
  /\ (given = None -> (lo <= d)%Q -> (d <= hi)%Q ->
      (Math_max lo (Math_min hi (field_or (Some (field_or given d)) d0)) == d)%Q)
  /\ (forall x, given = Some x -> (lo <= x)%Q -> (x <= hi)%Q ->
      (Math_max lo (Math_min hi (field_or (Some (field_or given d)) d0)) == x)%Q).
Proof.
  intros Hlo Hlohi.
  split; [apply clamp_cases; exact Hlohi|]. split.
  - intros -> Hd1 Hd2. cbn [field_or]. rewrite num_or_nonzero by lra.
    apply clamp_cases; [exact Hlohi|]. split; assumption.
  - intros x -> Hx1 Hx2. cbn [field_or].
    assert (Hx : ~ (x == 0)%Q) by lra.
    rewrite (num_or_nonzero x d Hx). rewrite num_or_nonzero by lra.
    apply clamp_cases; [exact Hlohi|]. split; assumption.
Qed.

(** X6.  [generateExportSettings] always yields settings with 48000 Hz,
    two channels, a black background and a file name that is not empty.  The
    video bitrate is read in Mbps (10 when not given) and the audio bitrate
    in kbps (128 when not given); the frame rate is the option's, else the
    project's; the canvas is the project's; each of the five (the two
    bitrates, the frame rate, the width and the height) is kept when it lies
    within the limits of [validateSettings] and lies within them in any
    case.  Hardware acceleration is on unless the option is [false]. *)
Theorem generated_settings_follow_the_options_within_the_limits
    (timelineData : TimelineExportData Q) (projectSettings : ProjectSettings Q)
    (options : OpenCutExportOptions Q) :
  timeline_settings timelineData = Some projectSettings ->
  exists settings,
    generateExportSettings timelineData options = Some settings
    /\ sampleRate settings = 48000%Q
    /\ numberOfChannels settings = 2%Q
    /\ backgroundColor settings = "#000000"
    /\ fileName settings <> ""
    /\ (options_fileName options = None -> fileName settings = "export.mp4")
    /\ (hardwareAcceleration settings = false
        <-> options_hardwareAcceleration options = Some false)
    /\ (500000 <= videoBitrate settings /\ videoBitrate settings <= 100000000)%Q
    /\ (options_videoBitrate options = None -> (videoBitrate settings == 10000000)%Q)
    /\ (forall mbps, options_videoBitrate options = Some mbps ->
          ((1 # 2) <= mbps)%Q -> (mbps <= 100)%Q ->
          (videoBitrate settings == mbps * 1000000)%Q)
    /\ (64000 <= audioBitrate settings /\ audioBitrate settings <= 320000)%Q
    /\ (options_audioBitrate options = None -> (audioBitrate settings == 128000)%Q)
    /\ (forall kbps, options_audioBitrate options = Some kbps ->
          (64 <= kbps)%Q -> (kbps <= 320)%Q ->
          (audioBitrate settings == kbps * 1000)%Q)
    /\ (1 <= fps settings /\ fps settings <= 120)%Q
    /\ (options_fps options = None ->
        (1 <= project_fps projectSettings)%Q -> (project_fps projectSettings <= 120)%Q ->
        (fps settings == project_fps projectSettings)%Q)
    /\ (forall given, options_fps options = Some given ->
          (1 <= given)%Q -> (given <= 120)%Q -> (fps settings == given)%Q)
    /\ (64 <= width settings /\ width settings <= 7680)%Q
    /\ ((64 <= project_width projectSettings)%Q ->
        (project_width projectSettings <= 7680)%Q ->
        (width settings == project_width projectSettings)%Q)
    /\ (64 <= height settings /\ height settings <= 4320)%Q
    /\ ((64 <= project_height projectSettings)%Q ->
        (project_height projectSettings <= 4320)%Q ->
        (height settings == project_height projectSettings)%Q).
Proof.
  intros Hsettings. unfold generateExportSettings. rewrite Hsettings.
  eexists. split; [reflexivity|].
  cbn [validateSettings sampleRate numberOfChannels backgroundColor fileName
       hardwareAcceleration videoBitrate audioBitrate fps width height
       validated_sampleRate validated_numberOfChannels validated_backgroundColor
       validated_fileName validated_hardwareAcceleration validated_videoBitrate
       validated_audioBitrate validated_fps validated_width validated_height
       validated_resolution spread
       opt_sampleRate opt_numberOfChannels opt_backgroundColor opt_fileName
       opt_hardwareAcceleration opt_videoBitrate opt_audioBitrate opt_fps
       opt_width opt_height default getDefaultSettings option_rect].
  split; [reflexivity|]. split; [reflexivity|]. split; [reflexivity|].
  split.
  { destruct (options_fileName options) as [[|c s]|]; cbn; discriminate. }
  split; [intros ->; reflexivity|].
  split.
  { destruct (options_hardwareAcceleration options) as [[|]|]; cbn;
      split; congruence. }
  pose proof (converted_field 500000 100000000 1000000 10 (inject_Z 4000000)
                (options_videoBitrate options)
                eq_refl eq_refl eq_refl ltac:(discriminate) ltac:(discriminate))
    as (Hv1 & Hv2 & Hv3).
  pose proof (converted_field 64000 320000 1000 128 (inject_Z 128000)
                (options_audioBitrate options)
                eq_refl eq_refl eq_refl ltac:(discriminate) ltac:(discriminate))
    as (Ha1 & Ha2 & Ha3).
  pose proof (fallback_field 1 120 (project_fps projectSettings) (inject_Z 30)
                (options_fps options) eq_refl eq_refl)
    as (Hf1 & Hf2 & Hf3).
  cbn [nmul num_of_Z ExactNumber].
  split; [exact Hv1|]. split; [exact Hv2|].
  split; [intros mbps Hm H1 H2; apply (Hv3 mbps Hm); lra|].
  split; [exact Ha1|]. split; [exact Ha2|].
  split; [intros kbps Hk H1 H2; apply (Ha3 kbps Hk); lra|].
  split; [exact Hf1|]. split; [exact Hf2|]. split; [exact Hf3|].
  split; [apply clamp_cases; reflexivity|].
  split.
  { intros H1 H2. cbn [field_or]. rewrite num_or_nonzero by lra.
    apply clamp_cases; [reflexivity|]. split; assumption. }
  split; [apply clamp_cases; reflexivity|].
  intros H1 H2. cbn [field_or]. rewrite num_or_nonzero by lra.
  apply clamp_cases; [reflexivity|]. split; assumption.
Qed.

(** The hypothesis of X6 holds of the transformed small project, and the
    theorem applies to it: without options the settings are the project's
    30 fps at 10 Mbps. *)
Lemma small_project_exports_at_10_mbps :
  timeline_settings (transform small_project small_project_media hd_project)
  = Some hd_project
  /\ exists settings,
       generateExportSettings (transform small_project small_project_media hd_project)
                              no_options
       = Some settings
       /\ (videoBitrate settings == 10000000)%Q.
Proof.
  split; [reflexivity|].
  destruct (generated_settings_follow_the_options_within_the_limits
              (transform small_project small_project_media hd_project) hd_project
              no_options eq_refl)
    as (settings & Hgen & _ & _ & _ & _ & _ & _ & _ & Hdefault & _).
  exists settings. split; [exact Hgen|]. apply Hdefault. reflexivity.
Defined.

(** ** The exporter: the estimate *)

(** X7.  When the frame rate in effect -- the option's, else the
    project's -- lies within 1 and 120, the frame count of
    [estimateExportTime] is the frame count the engine works with
    ([totalFrames] of [export()], the last frame index of the loop) under
    the settings [generateExportSettings] makes for the same options. *)
Theorem estimate_counts_the_frames_of_the_export
    (timelineTracks : list (OpenCutTimelineTrack Q))
    (mediaItems : list OpenCutMediaItem) (projectSettings : ProjectSettings Q)
    (options : OpenCutExportOptions Q) (settings : ExportSettings Q) :
  generateExportSettings (transform timelineTracks mediaItems projectSettings) options
  = Some settings ->
  (1 <= field_or (options_fps options) (project_fps projectSettings))%Q ->
  (field_or (options_fps options) (project_fps projectSettings) <= 120)%Q ->
  estimate_totalFrames
    (estimateExportTime timelineTracks mediaItems projectSettings options)
  = totalFramesOf (transform timelineTracks mediaItems projectSettings) settings.
Proof.
  intros Hgen Hlo Hhi.
  unfold generateExportSettings in Hgen. cbn [transform timeline_settings] in Hgen.
  injection Hgen as <-.
  unfold estimateExportTime, totalFramesOf.
  cbn [estimate_totalFrames validateSettings fps opt_fps Math_ceil nmul ExactNumber
       getDefaultSettings num_of_Z].
  apply Qceiling_comp. apply Qmult_comp; [reflexivity|]. symmetry.
  set (chosen := field_or (options_fps options) (project_fps projectSettings)) in *.
  cbn [field_or]. rewrite num_or_nonzero by lra.
  apply clamp_cases; [reflexivity|]. split; assumption.
Qed.

(** The hypotheses of X7 hold of the small project without options, and
    the theorem applies: 60 frame intervals. *)
Lemma estimate_of_the_small_project_counts_60_frames :
  (1 <= field_or (options_fps no_options) (project_fps hd_project))%Q
  /\ exists settings,
       generateExportSettings (transform small_project small_project_media hd_project)
                              no_options
       = Some settings
       /\ totalFramesOf (transform small_project small_project_media hd_project) settings
          = 60.
Proof.
  split; [discriminate|].
  eexists. split; [reflexivity|].
  rewrite <- (estimate_counts_the_frames_of_the_export
                small_project small_project_media hd_project no_options _ eq_refl).
  - reflexivity.
  - discriminate.
  - discriminate.
Defined.

(** ** Time formatting *)

Lemma Qfloor_unique (x : Q) (z : Z) :
  (inject_Z z <= x)%Q -> (x < inject_Z (z + 1))%Q -> Qfloor x = z.
Proof.
  intros Hle Hlt.
  assert (H1 : z <= Qfloor x).
  { rewrite <- (Qfloor_Z z). apply Qfloor_resp_le. exact Hle. }
  assert (H2 : Qfloor x < z + 1).
  { rewrite Zlt_Qlt. eapply Qle_lt_trans; [apply Qfloor_le|exact Hlt]. }
  lia.
Qed.

Lemma Qfloor_bounds (x : Q) : (inject_Z (Qfloor x) <= x /\ x < inject_Z (Qfloor x + 1))%Q.
Proof.
  split; [apply Qfloor_le|].
  pose proof (Qlt_floor x) as Hlt. exact Hlt.
Qed.

(** The floor of a quotient by a whole number is the quotient of the
    floor. *)
Lemma Qfloor_div_whole (x : Q) (k : Z) :
  0 < k -> Qfloor (x / inject_Z k) = Qfloor x / k.
Proof.
  intros Hk. destruct (Qfloor_bounds x) as [Hlo Hhi].
  assert (HkQ : (0 < inject_Z k)%Q) by (apply inject_Z_pos; exact Hk).
  pose proof (Z.div_mod (Qfloor x) k ltac:(lia)) as Hdm.
  pose proof (Z.mod_pos_bound (Qfloor x) k Hk) as Hmod.
  apply Qfloor_unique.
  - apply Qle_shift_div_l; [exact HkQ|]. rewrite <- inject_Z_mult.
    eapply Qle_trans; [|exact Hlo]. rewrite <- Zle_Qle.
    set (q := Qfloor x / k) in *. lia.
  - apply Qlt_shift_div_r; [exact HkQ|]. rewrite <- inject_Z_mult.
    eapply Qlt_le_trans; [exact Hhi|]. rewrite <- Zle_Qle.
    set (q := Qfloor x / k) in *. lia.
Qed.

(** The floor of a number less a whole number. *)
Lemma Qfloor_minus_whole (x : Q) (z : Z) : Qfloor (x - inject_Z z) = Qfloor x - z.
Proof.
  destruct (Qfloor_bounds x) as [Hlo Hhi].
  apply Qfloor_unique.
  - unfold Z.sub. rewrite inject_Z_plus, inject_Z_opp. lra.
  - replace (Qfloor x - z + 1) with ((Qfloor x + 1) - z) by lia.
    unfold Z.sub. rewrite inject_Z_plus, inject_Z_opp. lra.
Qed.

(** [x % k] of a number that is not negative, [k] whole and positive. *)
Lemma Q_rem_whole (x : Q) (k : Z) :
  (0 <= x)%Q -> 0 < k ->
  (Q_rem x (inject_Z k) == x - inject_Z (k * (Qfloor x / k)))%Q.
Proof.
  intros Hx Hk. unfold Q_rem, Qtrunc.
  assert (HkQ : (0 < inject_Z k)%Q) by (apply inject_Z_pos; exact Hk).
  assert (Hq : (0 <= x / inject_Z k)%Q).
  { apply Qle_shift_div_l; [exact HkQ|]. lra. }
  destruct (Qltb (x / inject_Z k) 0) eqn:E; [apply Qltb_lt in E; lra|].
  rewrite Qfloor_div_whole by exact Hk. rewrite inject_Z_mult. reflexivity.
Qed.

(** X8.  [formatTime] prints ['0s'] for a time that is zero or negative,
    and otherwise depends on the whole seconds [n = floor t] only: it prints
    the hours [n / 3600], the minutes [(n mod 3600) / 60] and the seconds
    [n mod 60] -- which add up to [n], the minutes and seconds below 60 --
    leaving out every part that is zero, except that a time below one second
    prints ['0s']. *)
Theorem formatTime_prints_the_parts_of_the_whole_seconds (t : Q) :
  ((t <= 0)%Q -> formatTime t = "0s")
  /\ ((0 < t)%Q ->
      formatTime t
      = String.concat " " (time_parts (Qfloor t / 3600) (Qfloor t mod 3600 / 60)
                                      (Qfloor t mod 60)))
  /\ Qfloor t / 3600 * 3600 + Qfloor t mod 3600 / 60 * 60 + Qfloor t mod 60 = Qfloor t
  /\ 0 <= Qfloor t mod 3600 / 60 < 60
  /\ 0 <= Qfloor t mod 60 < 60.
Proof.
  split; [|split; [|split; [|split]]].
  - intros Ht. unfold formatTime. cbn [nfalsy nltb num_of_Z ExactNumber].
    destruct (Qeq_bool t 0) eqn:E0; [reflexivity|].
    apply Qeq_bool_false_neq in E0.
    assert (Hlt : Qltb t (inject_Z 0) = true).
    { apply Qltb_lt. apply Qle_lteq in Ht. destruct Ht as [Ht|Ht]; [exact Ht|contradiction]. }
    rewrite Hlt. reflexivity.
  - intros Ht. unfold formatTime. cbn [nfalsy nltb num_of_Z ExactNumber].
    assert (E0 : Qeq_bool t 0 = false) by (apply Qeq_bool_false_neq; lra).
    assert (E1 : Qltb t (inject_Z 0) = false).
    { destruct (Qltb t (inject_Z 0)) eqn:E; [|reflexivity].
      apply Qltb_lt in E. change (inject_Z 0) with 0%Q in E. lra. }
    rewrite E0, E1. cbn [orb].
    cbn [Math_floor ndiv nrem ExactNumber ExactRemainder].
    assert (Hh : Qfloor (t / inject_Z 3600) = Qfloor t / 3600)
      by (apply Qfloor_div_whole; lia).
    assert (Hm : Qfloor (Q_rem t (inject_Z 3600) / inject_Z 60) = Qfloor t mod 3600 / 60).
    { rewrite Qfloor_div_whole by lia. f_equal.
      rewrite (Qfloor_comp _ _ (Q_rem_whole t 3600 ltac:(lra) ltac:(lia))).
      rewrite Qfloor_minus_whole. rewrite Z.mod_eq by lia. reflexivity. }
    assert (Hs : Qfloor (Q_rem t (inject_Z 60)) = Qfloor t mod 60).
    { rewrite (Qfloor_comp _ _ (Q_rem_whole t 60 ltac:(lra) ltac:(lia))).
      rewrite Qfloor_minus_whole. rewrite Z.mod_eq by lia. reflexivity. }
    rewrite Hh, Hm, Hs. unfold time_parts.
    set (h := Qfloor t / 3600). set (m := Qfloor t mod 3600 / 60).
    set (s := Qfloor t mod 60).
    destruct (0 <? h) eqn:Eh, (0 <? m) eqn:Em; cbn [app length Nat.eqb];
      try (apply Z.ltb_lt in Eh); try (apply Z.ltb_ge in Eh);
      try (apply Z.ltb_lt in Em); try (apply Z.ltb_ge in Em).
    + assert (Hb : (h <=? 0) = false) by (apply Z.leb_gt; lia).
      rewrite Hb. destruct (0 <? s); reflexivity.
    + assert (Hb : (h <=? 0) = false) by (apply Z.leb_gt; lia).
      rewrite Hb. destruct (0 <? s); reflexivity.
    + assert (Hb : (m <=? 0) = false) by (apply Z.leb_gt; lia).
      rewrite Hb, andb_false_r. destruct (0 <? s); reflexivity.
    + assert (Hb1 : (h <=? 0) = true) by (apply Z.leb_le; lia).
      assert (Hb2 : (m <=? 0) = true) by (apply Z.leb_le; lia).
      rewrite Hb1, Hb2. destruct (0 <? s); reflexivity.
  - pose proof (Z.div_mod (Qfloor t) 3600 ltac:(lia)).
    pose proof (Z.div_mod (Qfloor t mod 3600) 60 ltac:(lia)).
    assert (Hmm : Qfloor t mod 3600 mod 60 = Qfloor t mod 60).
    { rewrite (Z.mod_eq (Qfloor t) 3600) by lia.
      replace (Qfloor t - 3600 * (Qfloor t / 3600))
        with (Qfloor t + (- 60 * (Qfloor t / 3600)) * 60) by lia.
      apply Z.mod_add. lia. }
    lia.
  - pose proof (Z.mod_pos_bound (Qfloor t) 3600 ltac:(lia)).
    split; [apply Z.div_pos; lia|apply Z.div_lt_upper_bound; lia].
  - apply Z.mod_pos_bound. lia.
Qed.

(** X8 at an instance: an hour, two minutes and five and a half seconds. *)
Lemma formatTime_of_3725_seconds_and_a_half :
  formatTime (7451 # 2)%Q = "1h 2m 5s".
Proof.
  rewrite (proj1 (proj2 (formatTime_prints_the_parts_of_the_whole_seconds (7451 # 2)%Q)))
    by reflexivity.
  reflexivity.
Defined.

(** ** Audio utilities: the planar layout *)

Section Planar.
Context {num : Type} `{JSNumber num}.

Lemma typedArray_set_fits (pre data rest : list num) :
  typedArray_set (pre ++ replicate (length data) (num_of_Z 0) ++ rest) data (length pre)
  = Some (pre ++ data ++ rest).
Proof.
  unfold typedArray_set.
  assert (Hfit : (length pre + length data
                  <=? length (pre ++ replicate (length data) (num_of_Z 0) ++ rest))%nat
                 = true).
  { apply Nat.leb_le. rewrite !length_app, length_replicate. lia. }
  rewrite Hfit. f_equal.
  rewrite take_app_length. f_equal. f_equal.
  rewrite drop_app_add.
  rewrite drop_app_length'; [reflexivity|symmetry; apply length_replicate].
Qed.

Lemma planar_loop (rest : list (list num)) (pre : list num) :
  foldl (fun state data =>
           '(result, offset) ← state;
           result ← typedArray_set result data offset;
           Some (result, (offset + length data)%nat))
        (Some (pre ++ replicate (length (concat rest)) (num_of_Z 0), length pre)) rest
  = Some (pre ++ concat rest, length (pre ++ concat rest)).
Proof.
  revert pre. induction rest as [|data rest IH]; intros pre; cbn [foldl concat].
  - cbn. rewrite !app_nil_r. reflexivity.
  - rewrite length_app, replicate_add.
    cbn [mbind option_bind]. rewrite typedArray_set_fits. cbn [mbind option_bind].
    specialize (IH (pre ++ data)).
    rewrite <- length_app. rewrite <- !app_assoc in IH. rewrite (app_assoc pre data).
    rewrite <- app_assoc. exact IH.
Qed.

Lemma concat_length_uniform (l : list (list num)) (n : nat) :
  Forall (fun ch => length ch = n) l -> length (concat l) = (length l * n)%nat.
Proof.
  induction 1 as [|ch l Hch _ IH]; cbn [concat length]; [reflexivity|].
  rewrite length_app, IH, Hch. lia.
Qed.

Lemma concat_lookup_uniform (l : list (list num)) (n c i : nat) (data : list num) :
  Forall (fun ch => length ch = n) l ->
  l !! c = Some data -> (i < n)%nat ->
  concat l !! (c * n + i)%nat = data !! i.
Proof.
  intros Hall. revert c. induction Hall as [|ch l Hch _ IH]; intros c Hc Hi.
  - rewrite lookup_nil in Hc. discriminate.
  - cbn [concat]. destruct c as [|c].
    + cbn in Hc. injection Hc as ->. cbn [Nat.mul Nat.add].
      apply lookup_app_l. lia.
    + cbn in Hc. rewrite lookup_app_r by (rewrite Hch; lia).
      replace (S c * n + i - length ch)%nat with (c * n + i)%nat by (rewrite Hch; lia).
      apply IH; assumption.
Qed.
End Planar.

(** The planar data of a buffer whose channels all have the buffer's
    length. *)
Lemma bufferToF32Planar_well_formed {num} `{JSNumber num}
    (input : AudioBuffer num) :
  well_formed_buffer input ->
  bufferToF32Planar input = Some (concat (channelData input))
  /\ length (concat (channelData input))
     = (buf_numberOfChannels input * Z.to_nat (buf_length input))%nat
  /\ forall (c i : nat) (data : list num),
       channelData input !! c = Some data ->
       (i < Z.to_nat (buf_length input))%nat ->
       concat (channelData input) !! (c * Z.to_nat (buf_length input) + i)%nat
       = data !! i.
Proof.
  intros Hwf. unfold well_formed_buffer in Hwf.
  assert (Hall : Forall (fun ch => length ch = Z.to_nat (buf_length input))
                        (channelData input)).
  { eapply Forall_impl; [exact Hwf|]. intros ch Hch. cbv beta in Hch. lia. }
  pose proof (concat_length_uniform _ _ Hall) as Hlen.
  split; [|split; [exact Hlen|]].
  - unfold bufferToF32Planar, buf_numberOfChannels.
    destruct (channelData input) as [|ch chs] eqn:Hchs.
    + rewrite Z.mul_0_r. reflexivity.
    + assert (Hpos : 0 <= buf_length input).
      { inversion Hwf as [|? ? Hch _]; subst. lia. }
      assert (Hsize : (buf_length input * Z.of_nat (length (ch :: chs)) <? 0) = false)
        by (apply Z.ltb_ge; lia).
      rewrite Hsize.
      replace (Z.to_nat (buf_length input * Z.of_nat (length (ch :: chs))))
        with (length (concat (ch :: chs))) by (rewrite Hlen; lia).
      pose proof (planar_loop (ch :: chs) []) as Hloop.
      cbn [app length] in Hloop. rewrite Hloop. reflexivity.
  - intros c i data Hc Hi. eapply concat_lookup_uniform; eassumption.
Qed.

(** X9.  For a buffer whose channels all have the buffer's length,
    [bufferToF32Planar] returns the channels one after the other: the sample
    [i] of the channel [c] is at the position [c * length + i]. *)
Theorem planar_data_is_the_channels_one_after_the_other {num} `{JSNumber num}
    (input : AudioBuffer num) :
  well_formed_buffer input ->
  bufferToF32Planar input = Some (concat (channelData input))
  /\ length (concat (channelData input))
     = (buf_numberOfChannels input * Z.to_nat (buf_length input))%nat
  /\ forall (c i : nat) (data : list num),
       channelData input !! c = Some data ->
       (i < Z.to_nat (buf_length input))%nat ->
       concat (channelData input) !! (c * Z.to_nat (buf_length input) + i)%nat
       = data !! i.
Proof. apply bufferToF32Planar_well_formed. Qed.

(** X9 at an instance: the four samples of a two-frame stereo buffer. *)
Lemma planar_data_of_a_two_frame_stereo_buffer :
  well_formed_buffer two_frame_stereo
  /\ bufferToF32Planar two_frame_stereo
     = Some [ (1 # 2)%Q; (-1)%Q; (3 # 2)%Q; (-1 # 4)%Q ].
Proof.
  assert (Hwf : well_formed_buffer two_frame_stereo).
  { repeat constructor. }
  split; [exact Hwf|].
  exact (proj1 (planar_data_is_the_channels_one_after_the_other two_frame_stereo Hwf)).
Defined.

(** ** Audio utilities: the interleaved layout *)

Lemma typedArray_store_length (l : list Z) (index value : Z) :
  length (typedArray_store l index value) = length l.
Proof.
  unfold typedArray_store. destruct (index <? 0); [reflexivity|apply length_insert].
Qed.

Lemma typedArray_store_lookup (l : list Z) (index value : Z) (j : nat) :
  typedArray_store l index value !! j
  = if (index =? Z.of_nat j) && (j <? length l)%nat then Some value else l !! j.
Proof.
  unfold typedArray_store. destruct (index <? 0) eqn:Eneg.
  - apply Z.ltb_lt in Eneg.
    assert (Hne : (index =? Z.of_nat j) = false) by (apply Z.eqb_neq; lia).
    rewrite Hne. reflexivity.
  - apply Z.ltb_ge in Eneg. destruct (index =? Z.of_nat j) eqn:Eeq.
    + apply Z.eqb_eq in Eeq. replace (Z.to_nat index) with j by lia.
      destruct (j <? length l)%nat eqn:Elt; cbn [andb].
      * apply Nat.ltb_lt in Elt. apply list_lookup_insert_eq. exact Elt.
      * apply Nat.ltb_ge in Elt. rewrite !lookup_ge_None_2; try reflexivity.
        -- lia.
        -- rewrite length_insert. lia.
    + apply Z.eqb_neq in Eeq. cbn [andb]. apply list_lookup_insert_ne. lia.
Qed.

(** The stores of a loop over [ks], each at its own index [idx k]: what is
    at the position [j] afterwards. *)
Lemma foldl_store_length {K} (idx val : K -> Z) (ks : list K) (l : list Z) :
  length (foldl (fun l k => typedArray_store l (idx k) (val k)) l ks) = length l.
Proof.
  revert l. induction ks as [|k ks IH]; intros l; cbn [foldl]; [reflexivity|].
  rewrite IH. apply typedArray_store_length.
Qed.

Lemma foldl_store_miss {K} (idx val : K -> Z) (ks : list K) (l : list Z) (j : nat) :
  (forall k, In k ks -> idx k <> Z.of_nat j) ->
  foldl (fun l k => typedArray_store l (idx k) (val k)) l ks !! j = l !! j.
Proof.
  revert l. induction ks as [|k ks IH]; intros l Hmiss; cbn [foldl]; [reflexivity|].
  rewrite IH by (intros k' Hk'; apply Hmiss; right; exact Hk').
  rewrite typedArray_store_lookup.
  assert (Hne : (idx k =? Z.of_nat j) = false).
  { apply Z.eqb_neq. apply Hmiss. left. reflexivity. }
  rewrite Hne. reflexivity.
Qed.

Lemma foldl_store_hit {K} (idx val : K -> Z) (ks : list K) (l : list Z) (k : K) (j : nat) :
  NoDup (map idx ks) -> In k ks -> idx k = Z.of_nat j -> (j < length l)%nat ->
  foldl (fun l k => typedArray_store l (idx k) (val k)) l ks !! j = Some (val k).
Proof.
  revert l. induction ks as [|k0 ks IH]; intros l Hnodup Hin Hidx Hj; [destruct Hin|].
  cbn [foldl]. cbn [map] in Hnodup. apply NoDup_cons in Hnodup.
  destruct Hnodup as [Hfresh Hnodup]. destruct Hin as [->|Hin].
  - rewrite foldl_store_miss.
    + rewrite typedArray_store_lookup.
      assert (Heq : (idx k =? Z.of_nat j) = true) by (apply Z.eqb_eq; exact Hidx).
      assert (Hlt : (j <? length l)%nat = true) by (apply Nat.ltb_lt; exact Hj).
      rewrite Heq, Hlt. reflexivity.
    + intros k' Hk' Heq. apply Hfresh. rewrite Hidx, <- Heq.
      apply list_elem_of_In. apply in_map. exact Hk'.
  - apply IH; try assumption. rewrite typedArray_store_length. exact Hj.
Qed.

(** The nested loops of [bufferToI16Interleaved] visit the pairs of a
    sample frame [i] and a channel [c] one row after the other. *)
Definition frame_channel_pairs (length numberOfChannels : Z) : list (Z * Z) :=
  flat_map (fun i => map (fun c => (i, c)) (seqZ 0 numberOfChannels)) (seqZ 0 length).

Lemma foldl_flat_map {A B C} (f : A -> C -> A) (g : B -> list C) (l : list B) (a : A) :
  foldl f a (flat_map g l) = foldl (fun a x => foldl f a (g x)) a l.
Proof.
  revert a. induction l as [|x l IH]; intros a; cbn [flat_map foldl]; [reflexivity|].
  rewrite foldl_app. apply IH.
Qed.

Lemma foldl_pointwise {A B} (f g : A -> B -> A) (l : list B) (a : A) :
  (forall a b, f a b = g a b) -> foldl f a l = foldl g a l.
Proof.
  intros Hfg. revert a. induction l as [|b l IH]; intros a; cbn [foldl]; [reflexivity|].
  rewrite Hfg. apply IH.
Qed.

Lemma foldl_map {A B C} (f : A -> C -> A) (g : B -> C) (l : list B) (a : A) :
  foldl f a (map g l) = foldl (fun a x => f a (g x)) a l.
Proof.
  revert a. induction l as [|x l IH]; intros a; cbn [map foldl]; [reflexivity|apply IH].
Qed.

Lemma frame_channel_pairs_In (length numberOfChannels i c : Z) :
  In (i, c) (frame_channel_pairs length numberOfChannels)
  <-> 0 <= i < length /\ 0 <= c < numberOfChannels.
Proof.
  unfold frame_channel_pairs. rewrite in_flat_map. split.
  - intros (i' & Hi' & Hin). apply in_map_iff in Hin.
    destruct Hin as (c' & [= <- <-] & Hc').
    apply list_elem_of_In, elem_of_seqZ in Hi'.
    apply list_elem_of_In, elem_of_seqZ in Hc'. lia.
  - intros [Hi Hc]. exists i. split.
    + apply list_elem_of_In, elem_of_seqZ. lia.
    + apply in_map_iff. exists c. split; [reflexivity|].
      apply list_elem_of_In, elem_of_seqZ. lia.
Qed.

Lemma frame_channel_pairs_NoDup (length numberOfChannels : Z) :
  NoDup (map (fun p => fst p * numberOfChannels + snd p)
             (frame_channel_pairs length numberOfChannels)).
Proof.
  apply NoDup_fmap_2_strong.
  - intros [i c] [i' c'] Hp Hp' Heq. cbn [fst snd] in Heq.
    apply list_elem_of_In, frame_channel_pairs_In in Hp.
    apply list_elem_of_In, frame_channel_pairs_In in Hp'.
    assert (i = i') by nia. subst i'. f_equal. lia.
  - unfold frame_channel_pairs.
    assert (Hrows : forall is' : list Z, NoDup is' ->
              NoDup (flat_map (fun i => map (fun c => (i, c)) (seqZ 0 numberOfChannels))
                              is')).
    { induction 1 as [|i is' Hfresh Hnd IH]; cbn [flat_map]; [constructor|].
      apply NoDup_app. split; [|split; [|exact IH]].
      - apply NoDup_fmap_2; [intros c c' [= ->]; reflexivity|apply NoDup_seqZ].
      - intros [i0 c0] Hrow Hrest.
        apply list_elem_of_In, in_map_iff in Hrow. destruct Hrow as (c & [= <- <-] & _).
        apply list_elem_of_In, in_flat_map in Hrest.
        destruct Hrest as (i' & Hi' & Hrow').
        apply in_map_iff in Hrow'. destruct Hrow' as (c' & [= <- _] & _).
        apply Hfresh. apply list_elem_of_In. exact Hi'. }
    apply Hrows. apply NoDup_seqZ.
Qed.

Lemma ToInt16_small (z : Z) : -32768 <= z <= 32767 -> ToInt16 z = z.
Proof. intros Hz. unfold ToInt16. rewrite Z.mod_small by lia. lia. Qed.

Lemma Qtrunc_bounds (x : Q) (lo hi : Z) :
  lo <= 0 <= hi -> (inject_Z lo <= x)%Q -> (x <= inject_Z hi)%Q -> lo <= Qtrunc x <= hi.
Proof.
  intros Hlohi Hlo Hhi. unfold Qtrunc. destruct (Qltb x 0) eqn:E.
  - apply Qltb_lt in E.
    assert (H1 : lo <= Qceiling x).
    { rewrite <- (Qceiling_Z lo). apply Qceiling_resp_le. exact Hlo. }
    assert (H2 : Qceiling x <= 0).
    { rewrite <- (Qceiling_Z 0). apply Qceiling_resp_le. apply Qlt_le_weak. exact E. }
    lia.
  - apply Qltb_ge in E.
    assert (H1 : 0 <= Qfloor x).
    { rewrite <- (Qfloor_Z 0). apply Qfloor_resp_le. exact E. }
    assert (H2 : Qfloor x <= hi).
    { rewrite <- (Qfloor_Z hi). apply Qfloor_resp_le. exact Hhi. }
    lia.
Qed.

(** What is stored for a sample, in the exact reading: the sample scaled by
    32767 and truncated towards zero when it lies in [-1, 1], and 32767 or
    -32767 beyond. *)
Lemma int16Sample_exact (s : Q) :
  ((-1 <= s)%Q -> (s <= 1)%Q -> int16Sample (Some s) = Qtrunc (s * 32767))
  /\ ((1 < s)%Q -> int16Sample (Some s) = 32767)
  /\ ((s < -1)%Q -> int16Sample (Some s) = -32767)
  /\ -32767 <= int16Sample (Some s) <= 32767.
Proof.
  unfold int16Sample, ngtb, num_trunc.
  cbn [nmul nltb num_of_Z Math_ceil Math_floor ExactNumber].
  change (inject_Z 32767) with 32767%Q. change (inject_Z (-32767)) with (-32767)%Q.
  change (inject_Z 0) with 0%Q.
  destruct (Qltb 32767 (s * 32767)) eqn:Ehi.
  - apply Qltb_lt in Ehi.
    change (Qltb 32767 (-32767)) with false. cbv iota.
    change (Qltb 32767 0) with false. cbv iota.
    change (Qfloor 32767) with 32767. rewrite ToInt16_small by lia.
    repeat split; intros; try reflexivity; try lia; lra.
  - apply Qltb_ge in Ehi. destruct (Qltb (s * 32767) (-32767)) eqn:Elo.
    + apply Qltb_lt in Elo.
      change (Qltb (-32767) 0) with true. cbv iota.
      change (Qceiling (-32767)) with (-32767). rewrite ToInt16_small by lia.
      repeat split; intros; try reflexivity; try lia; lra.
    + apply Qltb_ge in Elo.
      fold (Qtrunc (s * 32767)).
      pose proof (Qtrunc_bounds (s * 32767) (-32767) 32767 ltac:(lia) Elo Ehi) as Hb.
      rewrite ToInt16_small by lia.
      repeat split; intros; try reflexivity; try lia; lra.
Qed.

Lemma int16Sample_range (data_i : option Q) : -32767 <= int16Sample data_i <= 32767.
Proof.
  destruct data_i as [s|]; [apply int16Sample_exact|cbn; lia].
Qed.

(** X10.  [bufferToI16Interleaved] returns one value per sample frame and
    channel, the channels of a sample frame next to each other: the value at
    [i * numberOfChannels + c] is made of the sample [i] of the channel [c].
    In the exact reading that value is the sample scaled by 32767 and
    truncated towards zero for a sample in [-1, 1], and 32767 or -32767 for a
    sample beyond: no value is below -32767 or above 32767. *)
Theorem interleaved_pcm_is_scaled_truncated_and_clamped (audioBuffer : AudioBuffer Q) :
  0 <= buf_length audioBuffer ->
  exists interleaved,
    bufferToI16Interleaved audioBuffer = Some interleaved
    /\ length interleaved
       = Z.to_nat (buf_length audioBuffer * Z.of_nat (buf_numberOfChannels audioBuffer))
    /\ (forall i c,
          0 <= i < buf_length audioBuffer ->
          0 <= c < Z.of_nat (buf_numberOfChannels audioBuffer) ->
          interleaved !! Z.to_nat (i * Z.of_nat (buf_numberOfChannels audioBuffer) + c)
          = Some (int16Sample (sampleAt audioBuffer c i)))
    /\ (forall s, (-1 <= s)%Q -> (s <= 1)%Q -> int16Sample (Some s) = Qtrunc (s * 32767))
    /\ (forall s, (1 < s)%Q -> int16Sample (Some s) = 32767)
    /\ (forall s, (s < -1)%Q -> int16Sample (Some s) = -32767)
    /\ Forall (fun v => -32767 <= v <= 32767) interleaved.
Proof.
  intros Hlen. unfold bufferToI16Interleaved.
  set (n := Z.of_nat (buf_numberOfChannels audioBuffer)).
  assert (Hn : 0 <= n) by (unfold n; lia).
  assert (Hsize : (buf_length audioBuffer * n <? 0) = false) by (apply Z.ltb_ge; nia).
  rewrite Hsize. eexists. split; [reflexivity|].
  set (zeros := replicate (Z.to_nat (buf_length audioBuffer * n)) 0).
  assert (Hloop :
    foldl (fun interleaved i =>
             foldl (fun interleaved channel =>
                      typedArray_store interleaved (i * n + channel)
                        (int16Sample
                           (channelData audioBuffer !! Z.to_nat channel
                              ≫= (fun data => data !! Z.to_nat i))))
                   interleaved (seqZ 0 n))
          zeros (seqZ 0 (buf_length audioBuffer))
    = foldl (fun l p => typedArray_store l (fst p * n + snd p)
                          (int16Sample (sampleAt audioBuffer (snd p) (fst p))))
            zeros (frame_channel_pairs (buf_length audioBuffer) n)).
  { unfold frame_channel_pairs. rewrite foldl_flat_map.
    apply foldl_pointwise. intros l i. rewrite foldl_map. reflexivity. }
  rewrite Hloop. clear Hloop.
  assert (Hlength :
    length (foldl (fun l p => typedArray_store l (fst p * n + snd p)
                                (int16Sample (sampleAt audioBuffer (snd p) (fst p))))
                  zeros (frame_channel_pairs (buf_length audioBuffer) n))
    = Z.to_nat (buf_length audioBuffer * n)).
  { rewrite foldl_store_length. apply length_replicate. }
  assert (Hcell : forall i c,
    0 <= i < buf_length audioBuffer -> 0 <= c < n ->
    foldl (fun l p => typedArray_store l (fst p * n + snd p)
                        (int16Sample (sampleAt audioBuffer (snd p) (fst p))))
          zeros (frame_channel_pairs (buf_length audioBuffer) n)
      !! Z.to_nat (i * n + c)
    = Some (int16Sample (sampleAt audioBuffer c i))).
  { intros i c Hi Hc.
    apply (foldl_store_hit (fun p => fst p * n + snd p)
             (fun p => int16Sample (sampleAt audioBuffer (snd p) (fst p)))
             _ _ (i, c)).
    - apply frame_channel_pairs_NoDup.
    - apply frame_channel_pairs_In. lia.
    - cbn [fst snd]. nia.
    - unfold zeros. rewrite length_replicate. nia. }
  split; [exact Hlength|]. split; [exact Hcell|].
  split; [intros s; apply int16Sample_exact|].
  split; [intros s; apply int16Sample_exact|].
  split; [intros s; apply int16Sample_exact|].
  apply Forall_lookup. intros j v Hj.
  assert (Hjlt : (j < Z.to_nat (buf_length audioBuffer * n))%nat).
  { rewrite <- Hlength. eapply lookup_lt_Some. exact Hj. }
  assert (Hnpos : 0 < n) by nia.
  pose proof (Z.div_mod (Z.of_nat j) n ltac:(lia)) as Hdm.
  pose proof (Z.mod_pos_bound (Z.of_nat j) n Hnpos) as Hmod.
  assert (Hdiv : 0 <= Z.of_nat j / n < buf_length audioBuffer).
  { split; [apply Z.div_pos; lia|]. apply Z.div_lt_upper_bound; [lia|]. nia. }
  specialize (Hcell (Z.of_nat j / n) (Z.of_nat j mod n) Hdiv Hmod).
  replace (Z.to_nat (Z.of_nat j / n * n + Z.of_nat j mod n)) with j in Hcell by lia.
  rewrite Hcell in Hj. injection Hj as <-. apply int16Sample_range.
Qed.

(** The hypothesis of X10 holds of the two-frame stereo buffer, and the
    theorem applies to it: 1/2 becomes 16383, 3/2 is clamped to 32767, -1
    becomes -32767, -1/4 becomes -8191. *)
Lemma interleaved_pcm_of_a_two_frame_stereo_buffer :
  0 <= buf_length two_frame_stereo
  /\ bufferToI16Interleaved two_frame_stereo = Some [16383; 32767; -32767; -8191].
Proof.
  split; [discriminate|].
  destruct (interleaved_pcm_is_scaled_truncated_and_clamped two_frame_stereo
              ltac:(discriminate))
    as (interleaved & Hrun & _).
  rewrite Hrun. f_equal.
  assert (Hsame : Some interleaved = Some [16383; 32767; -32767; -8191]).
  { rewrite <- Hrun. vm_compute. reflexivity. }
  injection Hsame as ->. reflexivity.
Defined.

(** ** Audio: what is handed to the encoder *)

Lemma foldl_preserves {A B} (P : A -> Prop) (f : A -> B -> A) (l : list B) (a : A) :
  (forall a b, P a -> P (f a b)) -> P a -> P (foldl f a l).
Proof.
  intros Hstep. revert a. induction l as [|b l IH]; intros a Ha; cbn [foldl];
    [exact Ha|]. apply IH, Hstep, Ha.
Qed.

(** X22.  The buffer [processAudio] hands to [encodeAudioBuffer] has
    channels of the buffer's length each, so the data [bufferToF32Planar]
    makes of it for the encoder is complete: the channels one after the
    other, [numberOfChannels * length] samples. *)
Theorem encoded_audio_data_is_the_mix_channel_by_channel {num} `{JSNumber num}
    (env : AudioEnv num) (settings : ExportSettings num)
    (timelineData : TimelineExportData num) (audioBuffer : AudioBuffer num) :
  processAudio env settings timelineData = AudioEncoded audioBuffer ->
  well_formed_buffer audioBuffer
  /\ bufferToF32Planar audioBuffer = Some (concat (channelData audioBuffer))
  /\ length (concat (channelData audioBuffer))
     = (buf_numberOfChannels audioBuffer * Z.to_nat (buf_length audioBuffer))%nat.
Proof.
  intros Hrun.
  assert (Hwf : well_formed_buffer audioBuffer).
  { unfold processAudio in Hrun.
    destruct (length _ =? 0)%nat; [discriminate|].
    destruct (new_AudioBuffer env _ _ _) as [fresh|] eqn:Enew; [|discriminate].
    injection Hrun as <-.
    apply (foldl_preserves well_formed_buffer).
    - intros b track Hb. destruct (muted track); [exact Hb|].
      apply (foldl_preserves well_formed_buffer); [|exact Hb].
      intros b' element Hb'. destruct (isAudioBearing element); [|exact Hb'].
      apply mixAudioElement_shape. exact Hb'.
    - unfold new_AudioBuffer in Enew.
      destruct (_ || _) eqn:Ebad; [discriminate|]. injection Enew as <-.
      apply orb_false_iff in Ebad. destruct Ebad as [Ebad _].
      apply orb_false_iff in Ebad. destruct Ebad as [_ Elen].
      apply Z.ltb_ge in Elen.
      unfold well_formed_buffer. cbn [channelData buf_length].
      apply Forall_forall. intros ch Hch. apply elem_of_replicate in Hch.
      destruct Hch as [-> _]. rewrite length_replicate. lia. }
  split; [exact Hwf|].
  destruct (bufferToF32Planar_well_formed audioBuffer Hwf) as (Hplanar & Hlen & _).
  split; assumption.
Qed.

(** The hypothesis of X22 holds of the two-second audio timeline, and the
    theorem applies to it. *)
Lemma two_second_mix_is_encoded_channel_by_channel :
  processAudio one_second_decoder getDefaultSettings two_second_audio_timeline
  = AudioEncoded (mix_of_timeline one_second_decoder getDefaultSettings
                                  two_second_audio_timeline)
  /\ well_formed_buffer (mix_of_timeline one_second_decoder getDefaultSettings
                                         two_second_audio_timeline).
Proof.
  assert (Hrun : processAudio one_second_decoder getDefaultSettings
                              two_second_audio_timeline
                 = AudioEncoded (mix_of_timeline one_second_decoder getDefaultSettings
                                                 two_second_audio_timeline)).
  { apply processAudio_mixes_audible.
    - eexists. split; [left; reflexivity|reflexivity].
    - vm_compute. discriminate.
    - vm_compute. discriminate.
    - reflexivity. }
  split; [exact Hrun|].
  exact (proj1 (encoded_audio_data_is_the_mix_channel_by_channel
                  one_second_decoder getDefaultSettings two_second_audio_timeline
                  _ Hrun)).
Defined.

(** ** Overlay patterns: the checkerboard *)

Lemma foldl_snoc_flat_map {A B} (f : B -> list A) (l : list B) (acc : list A) :
  foldl (fun acc x => acc ++ f x) acc l = acc ++ flat_map f l.
Proof.
  revert acc. induction l as [|x l IH]; intros acc; cbn [foldl flat_map].
  - symmetry. apply app_nil_r.
  - rewrite IH, app_assoc. reflexivity.
Qed.

Lemma flat_map_if_length {A B} (P : A -> bool) (f : A -> B) (l : list A) :
  length (flat_map (fun x => if P x then [f x] else []) l) = length (List.filter P l).
Proof.
  induction l as [|x l IH]; cbn [flat_map List.filter]; [reflexivity|].
  destruct (P x); cbn [app length]; rewrite IH; reflexivity.
Qed.

Lemma seqZ_snoc (n : nat) :
  seqZ 0 (Z.of_nat (S n)) = seqZ 0 (Z.of_nat n) ++ [Z.of_nat n].
Proof.
  rewrite Nat2Z.inj_succ. unfold Z.succ.
  rewrite (seqZ_app 0 (Z.of_nat n) 1) by lia. f_equal.
Qed.

(** The rows of a column whose square is filled: every other one. *)
Lemma filled_rows_of_a_column (col : Z) (rows : nat) :
  0 <= col ->
  Z.of_nat (length (List.filter (fun row => Z.rem (col + row) 2 =? 0)
                                (seqZ 0 (Z.of_nat rows))))
  = (Z.of_nat rows + 1 - col mod 2) / 2.
Proof.
  intros Hcol. induction rows as [|rows IH].
  - rewrite (seqZ_nil 0 (Z.of_nat 0)) by lia. cbn [List.filter length Z.of_nat].
    pose proof (Z.mod_pos_bound col 2 ltac:(lia)) as Hmod.
    symmetry. apply Z.div_small. lia.
  - rewrite seqZ_snoc.
    rewrite List.filter_app, length_app, Nat2Z.inj_add, IH.
    rewrite Nat2Z.inj_succ. unfold Z.succ.
    cbn [List.filter].
    rewrite Z.rem_mod_nonneg by lia.
    pose proof (Z.mod_pos_bound col 2 ltac:(lia)) as Hmod.
    destruct ((col + Z.of_nat rows) mod 2 =? 0) eqn:E; cbn [length Z.of_nat].
    + apply Z.eqb_eq in E. Z.to_euclidean_division_equations. lia.
    + apply Z.eqb_neq in E. Z.to_euclidean_division_equations. lia.
Qed.

(** The filled squares of the first columns: half of the squares, rounded
    up. *)
Lemma filled_squares_of_the_columns (cols rows : nat) :
  Z.of_nat (length (flat_map (fun col =>
                                List.filter (fun row => Z.rem (col + row) 2 =? 0)
                                            (seqZ 0 (Z.of_nat rows)))
                             (seqZ 0 (Z.of_nat cols))))
  = (Z.of_nat cols * Z.of_nat rows + 1) / 2.
Proof.
  induction cols as [|cols IH].
  - rewrite (seqZ_nil 0 (Z.of_nat 0)) by lia. reflexivity.
  - rewrite seqZ_snoc.
    rewrite flat_map_app, length_app, Nat2Z.inj_add, IH.
    cbn [flat_map]. rewrite app_nil_r.
    rewrite filled_rows_of_a_column by lia.
    rewrite Nat2Z.inj_succ. unfold Z.succ.
    set (c := Z.of_nat cols). set (r := Z.of_nat rows).
    pose proof (Z.div_mod c 2 ltac:(lia)) as Hc.
    pose proof (Z.mod_pos_bound c 2 ltac:(lia)) as Hmod.
    assert (Hcase : c mod 2 = 0 \/ c mod 2 = 1) by lia.
    assert (Hprod : c * r = 2 * (c / 2 * r) + c mod 2 * r) by nia.
    replace ((c + 1) * r) with (c * r + r) by ring.
    rewrite Hprod. set (q := c / 2 * r).
    destruct Hcase as [-> | ->]; Z.to_euclidean_division_equations; lia.
Qed.

Lemma flat_map_pointwise {A B} (f g : A -> list B) (l : list A) :
  (forall x, f x = g x) -> flat_map f l = flat_map g l.
Proof.
  intros Hfg. induction l as [|x l IH]; cbn [flat_map]; [reflexivity|].
  rewrite Hfg, IH. reflexivity.
Qed.

(** The two loops of the checkerboard, column by column and row by row. *)
Lemma renderCheckerboardPattern_flat (element : OverlayFields Q) :
  renderCheckerboardPattern element
  = flat_map (fun col =>
                flat_map (fun row =>
                            if Z.rem (col + row) 2 =? 0
                            then [checkerboard_square element col row] else [])
                         (seqZ 0 (Qceiling (overlay_height element / 20))))
             (seqZ 0 (Qceiling (overlay_width element / 20))).
Proof.
  unfold renderCheckerboardPattern. cbv zeta.
  cbn [Math_ceil ndiv nmul nadd num_of_Z ExactNumber].
  rewrite <- (app_nil_l (flat_map _ _)).
  rewrite <- foldl_snoc_flat_map. apply foldl_pointwise. intros filled col.
  rewrite <- foldl_snoc_flat_map. apply foldl_pointwise. intros filled' row.
  destruct (Z.rem (col + row) 2 =? 0); [reflexivity|].
  symmetry. apply app_nil_r.
Qed.

(** X23.  The checkerboard pattern of an overlay of [cols] by [rows]
    squares of 20 pixels ([cols] and [rows] the sides of the element divided
    by 20, rounded up) fills exactly the squares whose column and row add up
    to an even number, each once: half of the squares, rounded up, the top
    left one first.  Every filled square starts inside the element; the last
    column and row reach beyond its right and bottom edge when the side is
    not a multiple of 20. *)
Theorem checkerboard_fills_every_other_square (element : OverlayFields Q) :
  Z.of_nat (length (renderCheckerboardPattern element))
  = (Z.max 0 (Qceiling (overlay_width element / 20))
     * Z.max 0 (Qceiling (overlay_height element / 20)) + 1) / 2
  /\ (forall rect,
        In rect (renderCheckerboardPattern element)
        <-> exists col row,
              0 <= col < Qceiling (overlay_width element / 20)
              /\ 0 <= row < Qceiling (overlay_height element / 20)
              /\ (col + row) mod 2 = 0
              /\ rect = checkerboard_square element col row)
  /\ (forall rect,
        In rect (renderCheckerboardPattern element) ->
        (- (overlay_width element / 2) <= rect_x rect
         /\ rect_x rect < overlay_width element / 2
         /\ - (overlay_height element / 2) <= rect_y rect
         /\ rect_y rect < overlay_height element / 2)%Q).
Proof.
  rewrite renderCheckerboardPattern_flat.
  set (cols := Qceiling (overlay_width element / 20)).
  set (rows := Qceiling (overlay_height element / 20)).
  assert (Hmember : forall rect,
    In rect (flat_map (fun col =>
                         flat_map (fun row =>
                                     if Z.rem (col + row) 2 =? 0
                                     then [checkerboard_square element col row] else [])
                                  (seqZ 0 rows))
                      (seqZ 0 cols))
    <-> exists col row,
          0 <= col < cols /\ 0 <= row < rows /\ (col + row) mod 2 = 0
          /\ rect = checkerboard_square element col row).
  { intros rect. rewrite in_flat_map. split.
    - intros (col & Hcol & Hin). apply in_flat_map in Hin.
      destruct Hin as (row & Hrow & Hin).
      apply list_elem_of_In, elem_of_seqZ in Hcol.
      apply list_elem_of_In, elem_of_seqZ in Hrow.
      destruct (Z.rem (col + row) 2 =? 0) eqn:E; [|destruct Hin].
      destruct Hin as [<-|[]]. apply Z.eqb_eq in E.
      rewrite Z.rem_mod_nonneg in E by lia.
      exists col, row. repeat split; lia.
    - intros (col & row & Hcol & Hrow & Heven & ->).
      exists col. split; [apply list_elem_of_In, elem_of_seqZ; lia|].
      apply in_flat_map. exists row.
      split; [apply list_elem_of_In, elem_of_seqZ; lia|].
      rewrite Z.rem_mod_nonneg by lia.
      apply Z.eqb_eq in Heven. rewrite Heven. left. reflexivity. }
  split; [|split; [exact Hmember|]].
  - assert (Hlen : forall l : list Z,
      length (flat_map (fun col =>
                          flat_map (fun row =>
                                      if Z.rem (col + row) 2 =? 0
                                      then [checkerboard_square element col row]
                                      else [])
                                   (seqZ 0 rows)) l)
      = length (flat_map (fun col =>
                            List.filter (fun row => Z.rem (col + row) 2 =? 0)
                                        (seqZ 0 rows)) l)).
    { induction l as [|col l IH]; cbn [flat_map]; [reflexivity|].
      rewrite !length_app, IH. f_equal.
      apply (flat_map_if_length (fun row => Z.rem (col + row) 2 =? 0)
                                (checkerboard_square element col)). }
    rewrite Hlen.
    destruct (Z.le_gt_cases cols 0) as [Hc|Hc].
    { rewrite (seqZ_nil 0 cols) by exact Hc. cbn [flat_map length Z.of_nat].
      rewrite Z.max_l by exact Hc. reflexivity. }
    destruct (Z.le_gt_cases rows 0) as [Hr|Hr].
    { rewrite (seqZ_nil 0 rows) by exact Hr.
      rewrite (Z.max_l 0 rows) by exact Hr. rewrite Z.mul_0_r.
      clear Hlen Hmember. generalize (seqZ 0 cols) as l. intros l.
      induction l as [|col l IH]; [reflexivity|exact IH]. }
    rewrite !Z.max_r by lia.
    rewrite <- (Z2Nat.id cols) by lia. rewrite <- (Z2Nat.id rows) by lia.
    apply filled_squares_of_the_columns.
  - intros rect Hin. apply Hmember in Hin.
    destruct Hin as (col & row & Hcol & Hrow & _ & ->).
    cbn [checkerboard_square rect_x rect_y].
    assert (Hx : (inject_Z col * 20 < overlay_width element)%Q).
    { pose proof (Qceiling_lt (overlay_width element / 20)) as Hlt.
      fold cols in Hlt.
      assert (Hle : (inject_Z col <= inject_Z (cols - 1))%Q)
        by (rewrite <- Zle_Qle; lia).
      assert (Hdiv : (inject_Z col < overlay_width element / 20)%Q)
        by (eapply Qle_lt_trans; eassumption).
      apply (Qmult_lt_r _ _ 20) in Hdiv; [|reflexivity].
      assert (Hback : (overlay_width element / 20 * 20 == overlay_width element)%Q)
        by (field; discriminate).
      rewrite Hback in Hdiv. exact Hdiv. }
    assert (Hy : (inject_Z row * 20 < overlay_height element)%Q).
    { pose proof (Qceiling_lt (overlay_height element / 20)) as Hlt.
      fold rows in Hlt.
      assert (Hle : (inject_Z row <= inject_Z (rows - 1))%Q)
        by (rewrite <- Zle_Qle; lia).
      assert (Hdiv : (inject_Z row < overlay_height element / 20)%Q)
        by (eapply Qle_lt_trans; eassumption).
      apply (Qmult_lt_r _ _ 20) in Hdiv; [|reflexivity].
      assert (Hback : (overlay_height element / 20 * 20 == overlay_height element)%Q)
        by (field; discriminate).
      rewrite Hback in Hdiv. exact Hdiv. }
    assert (Hcol0 : (0 <= inject_Z col)%Q) by (change 0%Q with (inject_Z 0); rewrite <- Zle_Qle; lia).
    assert (Hrow0 : (0 <= inject_Z row)%Q) by (change 0%Q with (inject_Z 0); rewrite <- Zle_Qle; lia).
    rewrite !inject_Z_mult. change (inject_Z 20) with 20%Q.
    assert (Hw : (overlay_width element == 2 * (overlay_width element / 2))%Q)
      by (field; discriminate).
    assert (Hh : (overlay_height element == 2 * (overlay_height element / 2))%Q)
      by (field; discriminate).
    assert (Hw' : (-1 * overlay_width element / 2 == - (overlay_width element / 2))%Q)
      by (field; discriminate).
    assert (Hh' : (-1 * overlay_height element / 2 == - (overlay_height element / 2))%Q)
      by (field; discriminate).
    rewrite Hw', Hh'. rewrite Hw in Hx. rewrite Hh in Hy.
    set (halfWidth := (overlay_width element / 2)%Q) in *.
    set (halfHeight := (overlay_height element / 2)%Q) in *.
    repeat split; lra.
Qed.

(** X23 at an instance: an overlay of 50 by 30 pixels has 3 by 2 squares,
    of which 3 are filled. *)
Lemma checkerboard_of_50_by_30_fills_three_squares :
  length (renderCheckerboardPattern overlay_50_by_30) = 3%nat.
Proof.
  apply Nat2Z.inj.
  rewrite (proj1 (checkerboard_fills_every_other_square overlay_50_by_30)).
  reflexivity.
Defined.

(** ** Audio: what the engine and the processor take for an audio track *)

(** X11.  Whenever the engine finds audio tracks ([hasAudioTracks]), so
    does the audio processor: called by the engine, [processAudio] never
    returns early for want of audio tracks. *)
Theorem audio_processor_finds_the_tracks_the_engine_found {num} `{JSNumber num}
    (env : AudioEnv num) (settings : ExportSettings num)
    (timelineData : TimelineExportData num) :
  hasAudioTracks timelineData = true ->
  processAudio env settings timelineData <> NoAudioTracks.
Proof.
  intros Hhas. unfold hasAudioTracks in Hhas. apply existsb_exists in Hhas.
  destruct Hhas as (track & Hin & Htrack).
  unfold processAudio.
  assert (Hfound :
    In track (List.filter (fun track => is_audio_track (track_type track)
                                        || existsb isAudioBearing (elements track))
                          (tracks timelineData))).
  { apply filter_In. split; [exact Hin|].
    destruct (track_type track); try discriminate; [|reflexivity].
    cbn [is_audio_track orb]. exact Htrack. }
  destruct (List.filter _ (tracks timelineData)) as [|t0 l]; [destruct Hfound|].
  cbn [length Nat.eqb].
  destruct (new_AudioBuffer env _ _ _); discriminate.
Qed.

(** The hypothesis of X11 holds of the two-second audio timeline, and the
    theorem applies to it. *)
Lemma audio_timeline_is_mixed :
  hasAudioTracks two_second_audio_timeline = true
  /\ processAudio one_second_decoder getDefaultSettings two_second_audio_timeline
     <> NoAudioTracks.
Proof.
  split; [reflexivity|].
  apply audio_processor_finds_the_tracks_the_engine_found. reflexivity.
Defined.

(** X12.  The engine looks for audio on tracks of type ['audio'] and
    ['media'] only.  When a timeline has no such track, the engine finds no
    audio tracks -- the export gets no audio track -- also when the tracks it
    has carry video or audio media, which the audio processor would have
    mixed. *)
Theorem audio_on_other_tracks_is_not_exported {num} `{JSNumber num}
    (timelineData : TimelineExportData num) :
  (forall track, In track (tracks timelineData) ->
                 track_type track <> track_audio /\ track_type track <> track_media) ->
  hasAudioTracks timelineData = false
  /\ (forall env settings,
        existsb (fun track => existsb isAudioBearing (elements track))
                (tracks timelineData) = true ->
        processAudio env settings timelineData <> NoAudioTracks).
Proof.
  intros Hother. split.
  - unfold hasAudioTracks. apply not_true_is_false. intros Hhas.
    apply existsb_exists in Hhas. destruct Hhas as (track & Hin & Htrack).
    destruct (Hother track Hin) as [Ha Hm].
    destruct (track_type track); try discriminate; congruence.
  - intros env settings Hbearing. apply existsb_exists in Hbearing.
    destruct Hbearing as (track & Hin & Htrack).
    unfold processAudio.
    assert (Hfound :
      In track (List.filter (fun track => is_audio_track (track_type track)
                                          || existsb isAudioBearing (elements track))
                            (tracks timelineData))).
    { apply filter_In. split; [exact Hin|]. rewrite Htrack. apply orb_true_r. }
    destruct (List.filter _ (tracks timelineData)) as [|t0 l]; [destruct Hfound|].
    cbn [length Nat.eqb].
    destruct (new_AudioBuffer env _ _ _); discriminate.
Qed.

(** The hypothesis of X12 holds of a video clip on an overlay track, and the
    theorem applies to it. *)
Lemma video_on_an_overlay_track_is_silent :
  (forall track, In track (tracks video_on_overlay_track) ->
                 track_type track <> track_audio /\ track_type track <> track_media)
  /\ hasAudioTracks video_on_overlay_track = false.
Proof.
  assert (Hother : forall track, In track (tracks video_on_overlay_track) ->
                     track_type track <> track_audio /\ track_type track <> track_media).
  { intros track [<-|[]]. split; discriminate. }
  split; [exact Hother|].
  exact (proj1 (audio_on_other_tracks_is_not_exported video_on_overlay_track Hother)).
Defined.

(** ** Media renderer: the state of the context *)

(** X13.  [render] of the media renderer gives the context back as it
    found it when the element is not active or no media is loaded, and with
    the state it found (current state and stack of saved states) when it has
    drawn an image or a video frame.  When the seek of a video fails,
    [restoreContext] is skipped: nothing is drawn, the saved state stays on
    the stack and the transform stays scaled by the resolution, for whatever
    is drawn on the context next. *)
Theorem media_render_leaves_the_context_scaled_when_a_seek_fails {num} `{JSNumber num}
    (settings : ExportSettings num) (loaded : option (LoadedMedia num))
    (seek_completes : bool) (element : ExportElement num) (timestamp : num)
    (c : CanvasContext num) :
  (isElementActive element timestamp = false \/ loaded = None ->
   media_render settings loaded seek_completes element timestamp c = c)
  /\ (isElementActive element timestamp = true ->
      loaded = Some HTMLImageElement
      \/ (exists video_currentTime,
            loaded = Some (HTMLVideoElement video_currentTime)
            /\ (seek_completes = true
                \/ seekVideo video_currentTime (getElementTime element timestamp)
                   = ReuseCurrentFrame)) ->
      current (media_render settings loaded seek_completes element timestamp c)
      = current c
      /\ saved (media_render settings loaded seek_completes element timestamp c)
         = saved c
      /\ length (drawn (media_render settings loaded seek_completes element timestamp c))
         = S (length (drawn c)))
  /\ (forall video_currentTime,
        isElementActive element timestamp = true ->
        loaded = Some (HTMLVideoElement video_currentTime) ->
        seek_completes = false ->
        seekVideo video_currentTime (getElementTime element timestamp)
        <> ReuseCurrentFrame ->
        saved (media_render settings loaded seek_completes element timestamp c)
        = current c :: saved c
        /\ scaleX (current (media_render settings loaded seek_completes element
                                         timestamp c))
           = nmul (scaleX (current c)) (resolution settings)
        /\ scaleY (current (media_render settings loaded seek_completes element
                                         timestamp c))
           = nmul (scaleY (current c)) (resolution settings)
        /\ drawn (media_render settings loaded seek_completes element timestamp c)
           = drawn c).
Proof.
  unfold media_render, renderVideoFrame, applyElementProperties, restoreContext,
    renderVideoToCanvas, renderImage.
  split; [|split].
  - intros [Hinactive| ->].
    + rewrite Hinactive. reflexivity.
    + destruct (isElementActive element timestamp); reflexivity.
  - intros Hactive Hloaded. rewrite Hactive. cbn [negb].
    destruct Hloaded as [->|(video_currentTime & -> & Hseek)].
    + destruct (opacity element), (blendMode element); cbn;
        rewrite length_app; cbn; repeat split; lia.
    + destruct (seekVideo video_currentTime (getElementTime element timestamp))
        eqn:Eseek.
      * destruct (opacity element), (blendMode element); cbn;
          rewrite length_app; cbn; repeat split; lia.
      * destruct Hseek as [->|Hreuse]; [|discriminate].
        destruct (opacity element), (blendMode element); cbn;
          rewrite length_app; cbn; repeat split; lia.
  - intros video_currentTime Hactive -> -> Hseek. rewrite Hactive. cbn [negb].
    destruct (seekVideo video_currentTime (getElementTime element timestamp));
      [contradiction|].
    destruct (opacity element), (blendMode element); cbn; repeat split; reflexivity.
Qed.

(** X13 at an instance, on binary64: after a failed seek at resolution 2 a
    new context is left scaled by 2, with one saved state on its stack. *)
Lemma failed_seek_at_resolution_2_leaves_the_scale :
  scaleX (current (media_render settings_4k (Some (HTMLVideoElement 0%float)) false
                                untrimmed_clip 1%float new_context))
  = 2%float
  /\ length (saved (media_render settings_4k (Some (HTMLVideoElement 0%float)) false
                                 untrimmed_clip 1%float new_context))
     = 1%nat.
Proof.
  destruct (proj2 (proj2 (media_render_leaves_the_context_scaled_when_a_seek_fails
                            (H:=Binary64) settings_4k (Some (HTMLVideoElement 0%float)) false
                            untrimmed_clip 1%float new_context))
                  0%float ltac:(vm_compute; reflexivity) eq_refl eq_refl)
    as (Hsaved & Hx & _).
  - vm_compute. discriminate.
  - rewrite Hsaved, Hx. split; vm_compute; reflexivity.
Defined.

(** ** The render pipeline *)

Lemma delete_middle {A} (before after : list A) (x : A) :
  delete (length before) (before ++ x :: after) = before ++ after.
Proof. induction before as [|y before IH]; cbn; [reflexivity|f_equal; exact IH]. Qed.

Section PipelineFacts.
Context {Frame num : Type}.
Implicit Types (p : RenderPipeline.t Frame num)
               (q processor : RenderPipeline.PipelineProcessor Frame num)
               (l before after : list (RenderPipeline.PipelineProcessor Frame num)).

(** [findIndex] finds the first processor of the id: the array splits
    around it. *)
Lemma findIndex_Some (ident : string) l (index : nat) processor :
  RenderPipeline.findIndex ident l = Some (index, processor) ->
  l = take index l ++ processor :: drop (S index) l
  /\ length (take index l) = index
  /\ Forall (fun q => RenderPipeline.proc_id q <> ident) (take index l)
  /\ RenderPipeline.proc_id processor = ident.
Proof.
  unfold RenderPipeline.findIndex. intros Hfind. apply list_find_Some in Hfind.
  destruct Hfind as (Hlookup & Hid & Hfirst).
  split; [symmetry; apply take_drop_middle; exact Hlookup|].
  split; [apply length_take_le; apply lookup_lt_Some in Hlookup; lia|].
  split; [|exact Hid].
  apply Forall_lookup. intros j y Hj. apply lookup_take_Some in Hj.
  destruct Hj as [Hj Hlt]. exact (Hfirst j y Hj Hlt).
Qed.

Lemma existsb_id_false (ident : string) l :
  existsb (fun q => String.eqb (RenderPipeline.proc_id q) ident) l = false
  <-> Forall (fun q => RenderPipeline.proc_id q <> ident) l.
Proof.
  induction l as [|q l IH]; cbn [existsb].
  - split; [constructor|reflexivity].
  - rewrite orb_false_iff, IH, Forall_cons, String.eqb_neq. reflexivity.
Qed.

Lemma findIndex_None (ident : string) l :
  RenderPipeline.findIndex ident l = None
  <-> existsb (fun q => String.eqb (RenderPipeline.proc_id q) ident) l = false.
Proof.
  unfold RenderPipeline.findIndex. rewrite list_find_None, existsb_id_false.
  reflexivity.
Qed.

(** The first processor of an id in an array that splits around it. *)
Lemma findIndex_middle (ident : string) before processor after :
  Forall (fun q => RenderPipeline.proc_id q <> ident) before ->
  RenderPipeline.proc_id processor = ident ->
  RenderPipeline.findIndex ident (before ++ processor :: after)
  = Some (length before, processor).
Proof.
  intros Hbefore Hid. unfold RenderPipeline.findIndex. apply list_find_Some.
  split; [apply list_lookup_middle; reflexivity|]. split; [exact Hid|].
  intros j y Hj Hlt. rewrite lookup_app_l in Hj by exact Hlt.
  rewrite Forall_lookup in Hbefore. exact (Hbefore j y Hj).
Qed.

Lemma find_middle (ident : string) before processor after :
  Forall (fun q => RenderPipeline.proc_id q <> ident) before ->
  RenderPipeline.proc_id processor = ident ->
  List.find (fun q => String.eqb (RenderPipeline.proc_id q) ident)
            (before ++ processor :: after)
  = Some processor.
Proof.
  intros Hbefore Hid. induction Hbefore as [|q before Hq _ IH]; cbn [app List.find].
  - apply String.eqb_eq in Hid. rewrite Hid. reflexivity.
  - apply String.eqb_neq in Hq. rewrite Hq. exact IH.
Qed.

(** A pipeline that has a processor of an id splits around the first one,
    which is the one [getProcessor] returns. *)
Lemma hasProcessor_split (ident : string) p :
  RenderPipeline.hasProcessor ident p = true ->
  exists before processor after,
    RenderPipeline.processors p = before ++ processor :: after
    /\ Forall (fun q => RenderPipeline.proc_id q <> ident) before
    /\ RenderPipeline.proc_id processor = ident
    /\ RenderPipeline.findIndex ident (RenderPipeline.processors p)
       = Some (length before, processor)
    /\ RenderPipeline.getProcessor ident p = Some processor.
Proof.
  intros Hhas. unfold RenderPipeline.hasProcessor in Hhas.
  destruct (RenderPipeline.findIndex ident (RenderPipeline.processors p))
    as [[index processor]|] eqn:Efind.
  - destruct (findIndex_Some _ _ _ _ Efind) as (Hsplit & Hlen & Hbefore & Hid).
    exists (take index (RenderPipeline.processors p)), processor,
           (drop (S index) (RenderPipeline.processors p)).
    split; [exact Hsplit|]. split; [exact Hbefore|]. split; [exact Hid|].
    split; [rewrite Hlen; reflexivity|].
    unfold RenderPipeline.getProcessor. rewrite Hsplit.
    apply find_middle; assumption.
  - apply findIndex_None in Efind. congruence.
Qed.
End PipelineFacts.

(** X14.  [removeProcessor] takes out the first processor of the given id
    and nothing else, and calls its [dispose] when it has one: the
    processors before and after it stay, in their order.  A later processor
    of the same id stays in the pipeline.  A pipeline without a processor of
    that id is left as it is. *)
Theorem removeProcessor_takes_out_the_first_processor_of_the_id {Frame num : Type}
    (ident : string) (p : RenderPipeline.t Frame num) :
  (RenderPipeline.hasProcessor ident p = false -> RenderPipeline.removeProcessor ident p = p)
  /\ (RenderPipeline.hasProcessor ident p = true ->
      exists before processor after,
        RenderPipeline.processors p = before ++ processor :: after
        /\ Forall (fun q => RenderPipeline.proc_id q <> ident) before
        /\ RenderPipeline.getProcessor ident p = Some processor
        /\ RenderPipeline.processors (RenderPipeline.removeProcessor ident p)
           = before ++ after
        /\ RenderPipeline.disposed (RenderPipeline.removeProcessor ident p)
           = RenderPipeline.disposed p ++ RenderPipeline.dispose_call processor
        /\ RenderPipeline.hasProcessor ident (RenderPipeline.removeProcessor ident p)
           = existsb (fun q => String.eqb (RenderPipeline.proc_id q) ident) after).
Proof.
  split.
  - intros Hhas. unfold RenderPipeline.removeProcessor.
    apply findIndex_None in Hhas. rewrite Hhas. reflexivity.
  - intros Hhas.
    destruct (hasProcessor_split ident p Hhas)
      as (before & processor & after & Hsplit & Hbefore & Hid & Hfind & Hget).
    exists before, processor, after.
    split; [exact Hsplit|]. split; [exact Hbefore|]. split; [exact Hget|].
    unfold RenderPipeline.removeProcessor, RenderPipeline.hasProcessor.
    rewrite Hfind. cbn [RenderPipeline.processors RenderPipeline.disposed].
    assert (Hdelete : delete (length before) (RenderPipeline.processors p)
                      = before ++ after).
    { rewrite Hsplit. apply delete_middle. }
    rewrite Hdelete. split; [reflexivity|]. split; [reflexivity|].
    rewrite existsb_app.
    apply existsb_id_false in Hbefore. rewrite Hbefore. reflexivity.
Qed.

(** X14 at an instance: of two processors with the id "fx" the first one is
    taken out and disposed of; the second one stays. *)
Lemma removing_fx_leaves_the_second_fx :
  RenderPipeline.hasProcessor "fx" three_processor_pipeline = true
  /\ RenderPipeline.processors (RenderPipeline.removeProcessor "fx" three_processor_pipeline)
     = [throwing_processor; doubling_processor].
Proof.
  split; [reflexivity|].
  destruct (proj2 (removeProcessor_takes_out_the_first_processor_of_the_id
                     "fx" three_processor_pipeline) eq_refl)
    as (before & processor & after & _ & _ & _ & Hrest & _).
  rewrite Hrest. rewrite <- Hrest. reflexivity.
Defined.

(** X15.  [reorderProcessor] moves the first processor of the given id to
    the position [newIndex]: afterwards it is at that position, the other
    processors keep their order (taking it out again gives what
    [removeProcessor] leaves), no processor is lost, added or disposed of.
    With an unknown id, a negative index or an index that is not below the
    number of processors, the pipeline is left as it is. *)
Theorem reorderProcessor_moves_the_first_processor_of_the_id {Frame num : Type}
    (ident : string) (newIndex : Z) (p : RenderPipeline.t Frame num) :
  (RenderPipeline.hasProcessor ident p = false
   \/ newIndex < 0
   \/ Z.of_nat (length (RenderPipeline.processors p)) <= newIndex ->
   RenderPipeline.reorderProcessor ident newIndex p = p)
  /\ (forall processor,
        RenderPipeline.getProcessor ident p = Some processor ->
        0 <= newIndex < Z.of_nat (length (RenderPipeline.processors p)) ->
        RenderPipeline.processors (RenderPipeline.reorderProcessor ident newIndex p)
          !! Z.to_nat newIndex
        = Some processor
        /\ delete (Z.to_nat newIndex)
                  (RenderPipeline.processors
                     (RenderPipeline.reorderProcessor ident newIndex p))
           = RenderPipeline.processors (RenderPipeline.removeProcessor ident p)
        /\ Permutation
             (RenderPipeline.processors (RenderPipeline.reorderProcessor ident newIndex p))
             (RenderPipeline.processors p)
        /\ RenderPipeline.disposed (RenderPipeline.reorderProcessor ident newIndex p)
           = RenderPipeline.disposed p).
Proof.
  split.
  - intros Hnone. unfold RenderPipeline.reorderProcessor.
    destruct (RenderPipeline.findIndex ident (RenderPipeline.processors p))
      as [[currentIndex processor]|] eqn:Efind; [|reflexivity].
    destruct Hnone as [Hhas|[Hneg|Hbig]].
    + apply findIndex_None in Hhas. congruence.
    + assert (Hb : (newIndex <? 0) = true) by (apply Z.ltb_lt; exact Hneg).
      rewrite Hb. reflexivity.
    + assert (Hb : (Z.of_nat (length (RenderPipeline.processors p)) <=? newIndex) = true)
        by (apply Z.leb_le; exact Hbig).
      rewrite Hb, orb_true_r. reflexivity.
  - intros processor Hget Hindex.
    assert (Hhas : RenderPipeline.hasProcessor ident p = true).
    { unfold RenderPipeline.getProcessor in Hget. unfold RenderPipeline.hasProcessor.
      apply existsb_exists. apply List.find_some in Hget. eauto. }
    destruct (hasProcessor_split ident p Hhas)
      as (before & processor' & after & Hsplit & Hbefore & Hid & Hfind & Hget').
    assert (processor' = processor) by congruence. subst processor'.
    assert (Hrest : delete (length before) (RenderPipeline.processors p)
                    = before ++ after).
    { rewrite Hsplit. apply delete_middle. }
    assert (Hlength : length (RenderPipeline.processors p)
                      = S (length (before ++ after))).
    { rewrite Hsplit, !length_app. cbn [length]. lia. }
    assert (Hk : (Z.to_nat newIndex <= length (before ++ after))%nat) by lia.
    assert (Htake : length (take (Z.to_nat newIndex) (before ++ after))
                    = Z.to_nat newIndex)
      by (apply length_take_le; exact Hk).
    assert (Hb1 : (newIndex <? 0) = false) by (apply Z.ltb_ge; lia).
    assert (Hb2 : (Z.of_nat (length (RenderPipeline.processors p)) <=? newIndex) = false)
      by (apply Z.leb_gt; lia).
    unfold RenderPipeline.reorderProcessor, RenderPipeline.removeProcessor.
    rewrite Hfind, Hb1, Hb2. cbn [orb RenderPipeline.processors RenderPipeline.disposed].
    rewrite Hrest. split; [|split; [|split; [|reflexivity]]].
    + apply list_lookup_middle. symmetry. exact Htake.
    + rewrite <- Htake at 1. rewrite delete_middle. apply take_drop.
    + rewrite Hsplit. rewrite <- !Permutation_middle. constructor.
      rewrite take_drop. reflexivity.
Qed.

(** X15 at an instance: the doubling processor is moved to the front. *)
Lemma doubling_processor_is_moved_to_the_front :
  RenderPipeline.getProcessor "double" three_processor_pipeline = Some doubling_processor
  /\ RenderPipeline.processors
       (RenderPipeline.reorderProcessor "double" 0 three_processor_pipeline)
     = [doubling_processor; increment_processor; throwing_processor].
Proof.
  split; [reflexivity|].
  destruct (proj2 (reorderProcessor_moves_the_first_processor_of_the_id
                     "double" 0 three_processor_pipeline)
                  doubling_processor eq_refl ltac:(split; [discriminate|reflexivity]))
    as (_ & _ & _ & _).
  reflexivity.
Defined.

(** X16.  [processFrame] hands the frame from one processor to the next,
    in the order of the pipeline, and a processor that throws does not stop
    it: the frame goes on to the next processor in the state the failed
    processor has left it.  A processor that throws before it has touched
    the frame is skipped: the pipeline gives what it gives without it. *)
Theorem a_processor_that_throws_is_skipped {Frame num : Type}
    (frame : Frame) (timestamp : num) (p : RenderPipeline.t Frame num)
    (before after : list (RenderPipeline.PipelineProcessor Frame num))
    (processor : RenderPipeline.PipelineProcessor Frame num) :
  RenderPipeline.processors p = before ++ processor :: after ->
  RenderPipeline.processFrame frame timestamp p
  = RenderPipeline.processFrame
      (RenderPipeline.processFrame frame timestamp (pipeline_of p before))
      timestamp (pipeline_of p (processor :: after))
  /\ (forall abandoned,
        RenderPipeline.proc_process processor
          (RenderPipeline.processFrame frame timestamp (pipeline_of p before))
          (RenderPipeline.settings p) timestamp
        = RenderPipeline.Rejected abandoned ->
        RenderPipeline.processFrame frame timestamp p
        = RenderPipeline.processFrame abandoned timestamp (pipeline_of p after))
  /\ (RenderPipeline.proc_process processor
        (RenderPipeline.processFrame frame timestamp (pipeline_of p before))
        (RenderPipeline.settings p) timestamp
      = RenderPipeline.Rejected
          (RenderPipeline.processFrame frame timestamp (pipeline_of p before)) ->
      RenderPipeline.processFrame frame timestamp p
      = RenderPipeline.processFrame frame timestamp (pipeline_of p (before ++ after))).
Proof.
  intros Hsplit. unfold RenderPipeline.processFrame, pipeline_of.
  cbn [RenderPipeline.processors RenderPipeline.settings].
  rewrite Hsplit, !foldl_app. cbn [foldl].
  split; [reflexivity|]. split.
  - intros abandoned ->. reflexivity.
  - intros ->. reflexivity.
Qed.

(** The hypothesis of X16 holds of the pipeline of three processors, whose
    second one adds 100 to the frame and throws, and the theorem applies to
    it: the frame 5 comes out as (5 + 1 + 100) * 2. *)
Lemma pipeline_of_three_keeps_what_the_throwing_processor_did :
  RenderPipeline.processors three_processor_pipeline
  = [increment_processor] ++ throwing_processor :: [doubling_processor]
  /\ RenderPipeline.processFrame 5 0%Q three_processor_pipeline = 212.
Proof.
  split; [reflexivity|].
  destruct (a_processor_that_throws_is_skipped 5 0%Q three_processor_pipeline
              [increment_processor] [doubling_processor] throwing_processor eq_refl)
    as (_ & Hleft & _).
  rewrite (Hleft 106 eq_refl). reflexivity.
Defined.

(** ** Effect parameters *)

(** X17.  A parameter that was set is read back, unless it was set to
    [undefined] or [null], which reads as the default; setting a parameter
    leaves the others alone; after [updateParameters] a parameter reads as
    the new value when the update names it -- as the default when the update
    names it with [undefined] or [null], whatever it was before -- and as
    before otherwise. *)
Theorem effect_parameters_read_back_unless_nullish {num : Type}
    (key other : string) (value defaultValue : BaseEffect.ParamValue num)
    (newParams parameters : gmap string (BaseEffect.ParamValue num)) :
  BaseEffect.getParameter key defaultValue
    (BaseEffect.setParameter key value parameters)
  = (if BaseEffect.nullish value then defaultValue else value)
  /\ (other <> key ->
      BaseEffect.getParameter other defaultValue
        (BaseEffect.setParameter key value parameters)
      = BaseEffect.getParameter other defaultValue parameters)
  /\ BaseEffect.getParameter key defaultValue
       (BaseEffect.updateParameters newParams parameters)
     = match newParams !! key with
       | Some given => if BaseEffect.nullish given then defaultValue else given
       | None => BaseEffect.getParameter key defaultValue parameters
       end.
Proof.
  unfold BaseEffect.getParameter, BaseEffect.setParameter, BaseEffect.updateParameters.
  split; [|split].
  - rewrite lookup_insert_eq. reflexivity.
  - intros Hother. rewrite lookup_insert_ne by congruence. reflexivity.
  - destruct (newParams !! key) as [given|] eqn:Enew.
    + rewrite (lookup_union_Some_l newParams parameters key given Enew). reflexivity.
    + rewrite lookup_union_r by exact Enew. reflexivity.
Qed.

(** X17 at an instance: a blur radius of 5 that an update names with
    [undefined] reads as the default again. *)
Lemma undefined_update_hides_the_blur_radius :
  BaseEffect.getParameter "blurRadius" (BaseEffect.ParamNumber 3%Q)
    (BaseEffect.updateParameters
       {[ "blurRadius" := BaseEffect.ParamUndefined ]}
       {[ "blurRadius" := BaseEffect.ParamNumber 5%Q ]})
  = BaseEffect.ParamNumber 3%Q.
Proof.
  rewrite (proj2 (proj2 (effect_parameters_read_back_unless_nullish
                           "blurRadius" "blurRadius" BaseEffect.ParamUndefined
                           (BaseEffect.ParamNumber 3%Q)
                           {[ "blurRadius" := BaseEffect.ParamUndefined ]}
                           {[ "blurRadius" := BaseEffect.ParamNumber 5%Q ]}))).
  reflexivity.
Defined.

(** ** Transitions *)

Lemma updateProgress_range (progress : Q) :
  (0 <= BaseTransition.updateProgress progress
   /\ BaseTransition.updateProgress progress <= 1)%Q.
Proof.
  unfold BaseTransition.updateProgress. apply (clamp_cases 0 1 progress). reflexivity.
Qed.

(** X18.  With a progress that [updateProgress] has set, which lies in
    [0, 1], the alpha of a fade is the progress for a fade in, one less the
    progress for a fade out, and [|1 - 2 * progress|] for a cross fade -- a
    dip to nothing at the middle of the transition, not a blend of two
    frames -- and lies in [0, 1].  The frame is left untouched exactly when
    that alpha is 1; otherwise it is cleared and drawn again with it, except
    that a fade in or a cross fade at alpha 0 draws nothing. *)
Theorem fade_alpha_lies_between_0_and_1 (fadeType : FadeTransition.FadeType)
    (given : Q) :
  (0 <= fade_alpha fadeType (BaseTransition.updateProgress given) <= 1)%Q
  /\ match FadeTransition.process fadeType (BaseTransition.updateProgress given) with
     | FadeTransition.Untouched =>
         (fade_alpha fadeType (BaseTransition.updateProgress given) == 1)%Q
     | FadeTransition.Faded alpha redrawn =>
         (alpha == fade_alpha fadeType (BaseTransition.updateProgress given))%Q
         /\ (0 <= alpha /\ alpha < 1)%Q
         /\ (redrawn = false
             <-> fadeType <> FadeTransition.fade_out /\ (alpha == 0)%Q)
     end.
Proof.
  pose proof (updateProgress_range given) as [Hlo Hhi].
  set (progress := BaseTransition.updateProgress given) in *.
  assert (Habs : forall x : Q, (0 <= x -> Qabs x == x)%Q)
    by (intros x Hx; apply Qabs_pos; exact Hx).
  assert (Habs' : forall x : Q, (x <= 0 -> Qabs x == - x)%Q)
    by (intros x Hx; apply Qabs_neg; exact Hx).
  unfold fade_alpha, FadeTransition.process, ngtb.
  cbn [nltb nsub nmul ndiv neqb num_of_Z ExactNumber].
  change (inject_Z 1 / inject_Z 2)%Q with (1 # 2)%Q.
  change (inject_Z 1) with 1%Q. change (inject_Z 2) with 2%Q.
  change (inject_Z 0) with 0%Q.
  destruct fadeType.
  - split; [split; assumption|].
    destruct (Qeq_bool progress 1) eqn:E1; cbn [negb].
    + apply Qeq_bool_iff in E1. exact E1.
    + apply Qeq_bool_false_neq in E1. split; [reflexivity|]. split.
      * split; [exact Hlo|]. apply Qle_lteq in Hhi. tauto.
      * cbn [orb]. destruct (Qltb 0 progress) eqn:E0.
        -- apply Qltb_lt in E0. split; [discriminate|]. intros [_ Hz]. lra.
        -- apply Qltb_ge in E0. split; [|reflexivity]. intros _.
           split; [discriminate|]. lra.
  - split; [lra|].
    destruct (Qeq_bool (1 - progress) 1) eqn:E1; cbn [negb].
    + apply Qeq_bool_iff in E1. exact E1.
    + apply Qeq_bool_false_neq in E1. split; [reflexivity|]. split.
      * split; [lra|]. assert (Hle : (1 - progress <= 1)%Q) by lra.
        apply Qle_lteq in Hle. tauto.
      * cbn [orb]. split; [discriminate|]. intros [Hout _]. congruence.
  - destruct (Qltb progress (1 # 2)) eqn:Ehalf.
    + apply Qltb_lt in Ehalf.
      assert (Heq : (Qabs (1 - 2 * progress) == 1 - progress * 2)%Q).
      { rewrite Habs by lra. lra. }
      split; [rewrite Heq; lra|].
      destruct (Qeq_bool (1 - progress * 2) 1) eqn:E1; cbn [negb].
      * apply Qeq_bool_iff in E1. rewrite Heq. exact E1.
      * apply Qeq_bool_false_neq in E1. split; [symmetry; exact Heq|]. split.
        -- split; [lra|]. assert (Hle : (1 - progress * 2 <= 1)%Q) by lra.
           apply Qle_lteq in Hle. tauto.
        -- cbn [orb]. destruct (Qltb 0 (1 - progress * 2)) eqn:E0.
           ++ apply Qltb_lt in E0. split; [discriminate|]. intros [_ Hz]. lra.
           ++ apply Qltb_ge in E0. lra.
    + apply Qltb_ge in Ehalf.
      assert (Heq : (Qabs (1 - 2 * progress) == (progress - (1 # 2)) * 2)%Q).
      { rewrite Habs' by lra. lra. }
      split; [rewrite Heq; lra|].
      destruct (Qeq_bool ((progress - (1 # 2)) * 2) 1) eqn:E1; cbn [negb].
      * apply Qeq_bool_iff in E1. rewrite Heq. exact E1.
      * apply Qeq_bool_false_neq in E1. split; [symmetry; exact Heq|]. split.
        -- split; [lra|]. assert (Hle : ((progress - (1 # 2)) * 2 <= 1)%Q) by lra.
           apply Qle_lteq in Hle. tauto.
        -- cbn [orb]. destruct (Qltb 0 ((progress - (1 # 2)) * 2)) eqn:E0.
           ++ apply Qltb_lt in E0. split; [discriminate|]. intros [_ Hz]. lra.
           ++ apply Qltb_ge in E0. split; [|reflexivity]. intros _.
              split; [discriminate|]. lra.
Qed.

(** X18 at an instance: half way through a cross fade the frame is cleared
    and not drawn again. *)
Lemma cross_fade_is_empty_half_way :
  exists alpha,
    FadeTransition.process FadeTransition.fade_cross
      (BaseTransition.updateProgress (1 # 2)%Q)
    = FadeTransition.Faded alpha false
    /\ (alpha == 0)%Q.
Proof.
  pose proof (fade_alpha_lies_between_0_and_1 FadeTransition.fade_cross (1 # 2)%Q)
    as [_ Hprocess].
  exists (0 # 4)%Q. split; reflexivity.
Defined.

(** X19.  With a progress that [updateProgress] has set and a canvas of
    non-negative width and height, a slide moves the frame along one axis
    only and by no more than the canvas side, and a wipe clips the frame to a
    rectangle at the origin that lies inside the canvas; both leave the frame
    untouched exactly when the progress is 0. *)
Theorem slide_and_wipe_stay_within_the_canvas (given width height : Q) :
  (0 <= width)%Q -> (0 <= height)%Q ->
  (forall direction,
     match SlideTransition.process direction (BaseTransition.updateProgress given)
                                   width height with
     | None => (BaseTransition.updateProgress given == 0)%Q
     | Some (offsetX, offsetY) =>
         ~ (BaseTransition.updateProgress given == 0)%Q
         /\ (Qabs offsetX <= width)%Q /\ (Qabs offsetY <= height)%Q
         /\ (offsetX == 0 \/ offsetY == 0)%Q
     end)
  /\ (forall direction,
        match WipeTransition.process direction (BaseTransition.updateProgress given)
                                     width height with
        | None => (BaseTransition.updateProgress given == 0)%Q
        | Some (clipWidth, clipHeight) =>
            ~ (BaseTransition.updateProgress given == 0)%Q
            /\ (0 <= clipWidth /\ clipWidth <= width)%Q
            /\ (0 <= clipHeight /\ clipHeight <= height)%Q
        end).
Proof.
  intros Hw Hh. pose proof (updateProgress_range given) as [Hlo Hhi].
  set (progress := BaseTransition.updateProgress given) in *.
  split; intros direction.
  - unfold SlideTransition.process. cbn [neqb nmul num_of_Z ExactNumber].
    change (inject_Z 0) with 0%Q. change (inject_Z (-1)) with (-1)%Q.
    destruct (Qeq_bool progress 0) eqn:E0.
    + apply Qeq_bool_iff in E0. exact E0.
    + apply Qeq_bool_false_neq in E0.
      destruct direction; (split; [exact E0|]).
      * split; [apply Qabs_Qle_condition; nra|].
        split; [apply Qabs_Qle_condition; lra|]. right. reflexivity.
      * split; [apply Qabs_Qle_condition; nra|].
        split; [apply Qabs_Qle_condition; lra|]. right. reflexivity.
      * split; [apply Qabs_Qle_condition; lra|].
        split; [apply Qabs_Qle_condition; nra|]. left. reflexivity.
      * split; [apply Qabs_Qle_condition; lra|].
        split; [apply Qabs_Qle_condition; nra|]. left. reflexivity.
  - unfold WipeTransition.process. cbn [neqb nmul nsub num_of_Z ExactNumber].
    change (inject_Z 0) with 0%Q. change (inject_Z 1) with 1%Q.
    destruct (Qeq_bool progress 0) eqn:E0.
    + apply Qeq_bool_iff in E0. exact E0.
    + apply Qeq_bool_false_neq in E0.
      destruct direction; (split; [exact E0|]).
      * split; [split; nra|]. split; lra.
      * split; [split; lra|]. split; nra.
Qed.

(** The hypotheses of X19 hold of a 1920 x 1080 canvas, and the theorem
    applies to it: a wipe at three quarters leaves a quarter of the width. *)
Lemma wipe_at_three_quarters_leaves_a_quarter :
  (0 <= 1920)%Q /\ (0 <= 1080)%Q
  /\ WipeTransition.process WipeTransition.horizontal
       (BaseTransition.updateProgress (3 # 4)%Q) 1920%Q 1080%Q
     = Some ((1920 * (1 - (3 # 4)))%Q, 1080%Q).
Proof.
  split; [discriminate|]. split; [discriminate|].
  pose proof (proj2 (slide_and_wipe_stay_within_the_canvas (3 # 4)%Q 1920%Q 1080%Q
                       ltac:(discriminate) ltac:(discriminate))
                    WipeTransition.horizontal) as Hwipe.
  reflexivity.
Defined.

(** ** The debug logger *)

Lemma last_n_short {A} (n : nat) (l : list A) : (length l <= n)%nat -> last_n n l = l.
Proof.
  intros Hle. unfold last_n. replace (length l - n)%nat with 0%nat by lia. reflexivity.
Qed.

Lemma last_n_length {A} (n : nat) (l : list A) :
  length (last_n n l) = Nat.min n (length l).
Proof. unfold last_n. rewrite length_drop. lia. Qed.

(** Pushing onto the last [maxLogs] entries and cutting again gives the
    last [maxLogs] entries of the longer list. *)
Lemma push_last_n (written : list string) (logEntry : string) (d : DebugLogger.t) :
  DebugLogger.logs d = last_n DebugLogger.maxLogs written ->
  DebugLogger.logs (DebugLogger.push logEntry d)
  = last_n DebugLogger.maxLogs (written ++ [logEntry]).
Proof.
  intros Hlogs. unfold DebugLogger.push, DebugLogger.notifyListeners.
  cbn [DebugLogger.logs]. rewrite Hlogs. rewrite length_app, last_n_length.
  cbn [length]. unfold last_n. rewrite length_app. cbn [length].
  assert (Hmax : (0 < DebugLogger.maxLogs)%nat) by (unfold DebugLogger.maxLogs; lia).
  destruct (DebugLogger.maxLogs <? Nat.min DebugLogger.maxLogs (length written) + 1)%nat
    eqn:E.
  - apply Nat.ltb_lt in E.
    assert (Hlong : (DebugLogger.maxLogs <= length written)%nat) by lia.
    rewrite drop_app_le by (rewrite length_drop; lia).
    rewrite drop_drop. rewrite drop_app_le by lia.
    f_equal. f_equal. lia.
  - apply Nat.ltb_ge in E.
    assert (Hshort : (length written < DebugLogger.maxLogs)%nat) by lia.
    replace (length written - DebugLogger.maxLogs)%nat with 0%nat by lia.
    replace (length written + 1 - DebugLogger.maxLogs)%nat with 0%nat by lia.
    reflexivity.
Qed.

(** X20.  After any sequence of [log], [error], [warn] and [clear] on a new
    logger, [getLogs] returns the last 100 of the entries written since the
    last [clear], in the order they were written: never more than 100. *)
Theorem logger_keeps_the_last_100_entries_since_the_last_clear
    (calls : list LoggerCall) :
  DebugLogger.getLogs (foldl logger_call DebugLogger.create calls)
  = last_n 100 (foldl written_since_clear [] calls)
  /\ (length (DebugLogger.getLogs (foldl logger_call DebugLogger.create calls))
      <= 100)%nat.
Proof.
  assert (Hlogs : DebugLogger.logs (foldl logger_call DebugLogger.create calls)
                  = last_n DebugLogger.maxLogs (foldl written_since_clear [] calls)).
  { induction calls as [|call calls IH] using rev_ind; [reflexivity|].
    rewrite !foldl_app. cbn [foldl].
    destruct call as [timestamp message args|timestamp message args
                      |timestamp message args|];
      cbn [logger_call written_since_clear].
    - apply push_last_n. exact IH.
    - apply push_last_n. exact IH.
    - apply push_last_n. exact IH.
    - reflexivity. }
  unfold DebugLogger.getLogs. split; [exact Hlogs|].
  rewrite Hlogs, last_n_length. unfold DebugLogger.maxLogs. lia.
Qed.

(** The listeners of a logger are not changed by writing or clearing. *)
Lemma logger_call_listeners (d : DebugLogger.t) (call : LoggerCall) :
  DebugLogger.listeners (logger_call d call) = DebugLogger.listeners d.
Proof. destruct call; reflexivity. Qed.

Lemma logger_calls_listeners (calls : list LoggerCall) (d : DebugLogger.t) :
  DebugLogger.listeners (foldl logger_call d calls) = DebugLogger.listeners d.
Proof.
  revert d. induction calls as [|call calls IH]; intros d; cbn [foldl]; [reflexivity|].
  rewrite IH. apply logger_call_listeners.
Qed.

(** Writing and clearing only add notifications, each to a listener that is
    registered. *)
Lemma logger_call_notified (d : DebugLogger.t) (call : LoggerCall) :
  exists added,
    DebugLogger.notified (logger_call d call) = DebugLogger.notified d ++ added
    /\ map fst added = DebugLogger.listeners d.
Proof.
  destruct call; eexists; (split; [reflexivity|]);
    cbn; rewrite map_map; cbn; apply map_id.
Qed.

Lemma logger_calls_notified (calls : list LoggerCall) (d : DebugLogger.t) :
  exists added,
    DebugLogger.notified (foldl logger_call d calls) = DebugLogger.notified d ++ added
    /\ Forall (fun notification => In (fst notification) (DebugLogger.listeners d)) added.
Proof.
  revert d. induction calls as [|call calls IH]; intros d; cbn [foldl].
  - exists []. split; [symmetry; apply app_nil_r|constructor].
  - destruct (logger_call_notified d call) as (first & Hfirst & Hto).
    destruct (IH (logger_call d call)) as (rest & Hrest & Hall).
    exists (first ++ rest). split.
    + rewrite Hrest, Hfirst, app_assoc. reflexivity.
    + apply Forall_app. split.
      * apply Forall_forall. intros notification Hin. rewrite <- Hto.
        apply list_elem_of_In in Hin. apply in_map. exact Hin.
      * rewrite logger_call_listeners in Hall. exact Hall.
Qed.

Lemma filter_sublist {A} (f : A -> bool) (l : list A) : sublist (List.filter f l) l.
Proof.
  induction l as [|x l IH]; cbn [List.filter]; [constructor|].
  destruct (f x); [apply sublist_skip|apply sublist_cons]; exact IH.
Qed.

(** X21.  The function [addListener] returns takes every registration of
    its callback off the logger, also when the callback was added more than
    once, and leaves the other listeners in their order: what is left is the
    list of listeners with entries taken out and none moved, and every other
    listener is in it as often as it was; whatever is written or cleared
    afterwards, the callback is not notified again. *)
Theorem unsubscribing_removes_every_registration_of_the_callback
    (callback : nat) (d : DebugLogger.t) (calls : list LoggerCall) :
  ~ In callback (DebugLogger.listeners (DebugLogger.removeListener callback d))
  /\ DebugLogger.listeners
       (DebugLogger.removeListener callback
          (DebugLogger.addListener callback (DebugLogger.addListener callback d)))
     = DebugLogger.listeners (DebugLogger.removeListener callback d)
  /\ sublist (DebugLogger.listeners (DebugLogger.removeListener callback d))
             (DebugLogger.listeners d)
  /\ (forall other, other <> callback ->
        List.filter (Nat.eqb other)
                    (DebugLogger.listeners (DebugLogger.removeListener callback d))
        = List.filter (Nat.eqb other) (DebugLogger.listeners d))
  /\ exists added,
       DebugLogger.notified
         (foldl logger_call (DebugLogger.removeListener callback d) calls)
       = DebugLogger.notified d ++ added
       /\ Forall (fun notification => fst notification <> callback) added.
Proof.
  split; [|split; [|split; [|split]]].
  - cbn [DebugLogger.removeListener DebugLogger.listeners]. intros Hin.
    apply filter_In in Hin. destruct Hin as [_ Hne].
    rewrite Nat.eqb_refl in Hne. discriminate.
  - cbn [DebugLogger.removeListener DebugLogger.addListener DebugLogger.listeners].
    rewrite <- app_assoc, List.filter_app. cbn [List.filter app].
    rewrite Nat.eqb_refl. cbn [negb]. apply app_nil_r.
  - cbn [DebugLogger.removeListener DebugLogger.listeners]. apply filter_sublist.
  - intros other Hother.
    cbn [DebugLogger.removeListener DebugLogger.listeners].
    induction (DebugLogger.listeners d) as [|l ls IH]; cbn [List.filter]; [reflexivity|].
    destruct (l =? callback)%nat eqn:El; cbn [negb List.filter].
    + apply Nat.eqb_eq in El. subst l.
      assert (Hne : (other =? callback)%nat = false) by (apply Nat.eqb_neq; exact Hother).
      rewrite Hne. exact IH.
    + destruct (other =? l)%nat; [f_equal|]; exact IH.
  - destruct (logger_calls_notified calls (DebugLogger.removeListener callback d))
      as (added & Hadded & Hall).
    exists added. split; [exact Hadded|].
    eapply Forall_impl; [exact Hall|]. intros notification Hin Heq.
    cbv beta in Hin. rewrite Heq in Hin.
    cbn [DebugLogger.removeListener DebugLogger.listeners] in Hin.
    apply filter_In in Hin. destruct Hin as [_ Hne].
    rewrite Nat.eqb_refl in Hne. discriminate.
Qed.
